(** * People Protocol skill builder: the transformation pipeline

    A shallow embedding of [transform_skill] of
    [people_protocol_skill_builder.py] and of the Python operations it
    relies on ([str.strip], [str.split], [in], [str.format], [str.join],
    [dict.get], [json.loads], [json.dump]), of [check_credentials], of the
    description [display_skills] shows and of what [main] does with the
    selection (adding and removing skills by their numbers, transforming
    and exporting), followed by the properties of the pipeline and of
    these.  The requests to the catalogue and the text printed on the
    console are not part of the model. *)

From Stdlib Require Import String Ascii List NArith ZArith Lia Bool Sorted.
From Stdlib Require DecimalFacts DecimalPos DecimalN.
Import ListNotations.

Local Open Scope N_scope.

(** ** Python strings

    A Python [str] is a sequence of Unicode code points. *)

Definition str := list N.

(** An ASCII literal as a [str]. *)
Definition u (s : string) : str :=
  map N_of_ascii (list_ascii_of_string s).

(** [a == b] *)
Fixpoint str_eqb (a b : str) : bool :=
  match a, b with
  | [], [] => true
  | x :: a', y :: b' => (x =? y) && str_eqb a' b'
  | _, _ => false
  end.

Definition DQUOTE : N := 34.
Definition BACKSLASH : N := 92.
Definition NL : N := 10.

(** [str.isspace] on one code point: the characters Python's [str.strip]
    removes. *)
Definition isspace (c : N) : bool :=
  ((9 <=? c) && (c <=? 13)) || ((28 <=? c) && (c <=? 32))
  || (c =? 133) || (c =? 160) || (c =? 5760)
  || ((8192 <=? c) && (c <=? 8202))
  || (c =? 8232) || (c =? 8233) || (c =? 8239) || (c =? 8287)
  || (c =? 12288).

Fixpoint lstrip (s : str) : str :=
  match s with
  | c :: s' => if isspace c then lstrip s' else s
  | [] => []
  end.

Definition rstrip (s : str) : str := rev (lstrip (rev s)).

(** [s.strip()] *)
Definition strip (s : str) : str := rstrip (lstrip s).

(** [s.startswith(p)] *)
Fixpoint startswith (p s : str) : bool :=
  match p, s with
  | [], _ => true
  | a :: p', b :: s' => (a =? b) && startswith p' s'
  | _ :: _, [] => false
  end.

(** [sub in s] *)
Fixpoint py_in (sub s : str) : bool :=
  startswith sub s ||
  match s with
  | [] => false
  | _ :: s' => py_in sub s'
  end.

(** [s.partition(sep)] when [sep] occurs: the text before the first
    occurrence and the text after it. *)
Fixpoint partition (sep s : str) : option (str * str) :=
  if startswith sep s then Some ([], skipn (length sep) s)
  else match s with
       | [] => None
       | c :: s' =>
           match partition sep s' with
           | Some (a, b) => Some (c :: a, b)
           | None => None
           end
       end.

Fixpoint split_fuel (fuel : nat) (sep s : str) : list str :=
  match fuel with
  | O => [s]
  | S fuel' =>
      match partition sep s with
      | None => [s]
      | Some (a, b) => a :: split_fuel fuel' sep b
      end
  end.

(** [s.split(sep)] for a non-empty [sep]: every occurrence consumes at
    least one character, so [length s] rounds are enough. *)
Definition split (sep s : str) : list str := split_fuel (length s) sep s.

(** [sep.join(parts)] *)
Fixpoint join (sep : str) (parts : list str) : str :=
  match parts with
  | [] => []
  | [p] => p
  | p :: rest => p ++ sep ++ join sep rest
  end.

(** ** Decimal digits *)

Definition is_digit (c : N) : bool := (48 <=? c) && (c <=? 57).

Fixpoint digits_of_uint (d : Decimal.uint) : str :=
  match d with
  | Decimal.Nil => []
  | Decimal.D0 d' => 48 :: digits_of_uint d'
  | Decimal.D1 d' => 49 :: digits_of_uint d'
  | Decimal.D2 d' => 50 :: digits_of_uint d'
  | Decimal.D3 d' => 51 :: digits_of_uint d'
  | Decimal.D4 d' => 52 :: digits_of_uint d'
  | Decimal.D5 d' => 53 :: digits_of_uint d'
  | Decimal.D6 d' => 54 :: digits_of_uint d'
  | Decimal.D7 d' => 55 :: digits_of_uint d'
  | Decimal.D8 d' => 56 :: digits_of_uint d'
  | Decimal.D9 d' => 57 :: digits_of_uint d'
  end.

(** The decimal number written by a sequence of digit characters; it is
    applied to digit characters only. *)
Fixpoint uint_of_digits (ds : str) : Decimal.uint :=
  match ds with
  | [] => Decimal.Nil
  | c :: ds' =>
      let r := uint_of_digits ds' in
      if c =? 48 then Decimal.D0 r else if c =? 49 then Decimal.D1 r
      else if c =? 50 then Decimal.D2 r else if c =? 51 then Decimal.D3 r
      else if c =? 52 then Decimal.D4 r else if c =? 53 then Decimal.D5 r
      else if c =? 54 then Decimal.D6 r else if c =? 55 then Decimal.D7 r
      else if c =? 56 then Decimal.D8 r else Decimal.D9 r
  end.

(** [str(n)] for a natural number, as [len(...)] gives one. *)
Definition str_of_N (n : N) : str := digits_of_uint (N.to_uint n).

(** [str(z)] for an integer. *)
Definition str_of_Z (z : Z) : str :=
  match z with
  | Zneg p => 45 :: str_of_N (Npos p)
  | _ => str_of_N (Z.to_N z)
  end.

(** [int(lit)] for an optional minus sign and a sequence of digits. *)
Definition int_of_literal (neg : bool) (ds : str) : Z :=
  let n := Z.of_N (N.of_uint (uint_of_digits ds)) in
  if neg then Z.opp n else n.

(** ** JSON values

    What [json.loads] returns: [None], [bool], [int], [float], [str],
    [list] and [dict] with string keys.  A dict keeps its keys in insertion
    order and is written as the list of its items.  A float is kept as a
    literal that denotes it: binary64 arithmetic is outside this model and
    no operation of the pipeline looks inside a number. *)

Definition dict (A : Type) := list (str * A).

#[local] Unset Elimination Schemes.
Inductive json : Type :=
| JNull
| JBool (b : bool)
| JInt (z : Z)
| JFloat (lit : str)
| JStr (s : str)
| JList (items : list json)
| JDict (d : dict json).
#[local] Set Elimination Schemes.

(** [d[k] = v] *)
Fixpoint dict_set {A} (d : dict A) (k : str) (v : A) : dict A :=
  match d with
  | [] => [(k, v)]
  | (k', v') :: d' =>
      if str_eqb k' k then (k', v) :: d' else (k', v') :: dict_set d' k v
  end.

(** [dict(pairs)] *)
Definition dict_of_pairs {A} (pairs : list (str * A)) : dict A :=
  fold_left (fun d kv => dict_set d (fst kv) (snd kv)) pairs [].

(** [d.get(k)], [None] when the key is absent. *)
Fixpoint dict_find {A} (d : dict A) (k : str) : option A :=
  match d with
  | [] => None
  | (k', v) :: d' => if str_eqb k' k then Some v else dict_find d' k
  end.

(** [d.get(k, default)] *)
Definition dict_get {A} (d : dict A) (k : str) (default : A) : A :=
  match dict_find d k with
  | Some v => v
  | None => default
  end.

(** ** [json.loads]

    After [json/decoder.py] and [json/scanner.py].  A scanning function
    takes the text from the current position on and returns the value with
    the text that follows it, or [None] where the library raises
    [JSONDecodeError].  The limits of the interpreter on the depth of the
    recursion and on the number of digits of an integer literal are not
    modelled: beyond them the library raises [RecursionError] or a plain
    [ValueError] where these functions go on. *)

Module PyJson.

Definition is_ws (c : N) : bool :=
  (c =? 32) || (c =? 9) || (c =? 10) || (c =? 13).

(** [WHITESPACE.match(s, end).end()] *)
Fixpoint skip_ws (s : str) : str :=
  match s with
  | c :: s' => if is_ws c then skip_ws s' else s
  | [] => []
  end.

Definition hexval (c : N) : option N :=
  if is_digit c then Some (c - 48)
  else if (97 <=? c) && (c <=? 102) then Some (c - 87)
  else if (65 <=? c) && (c <=? 70) then Some (c - 55)
  else None.

(** [int(esc, 16)] for the four characters after a backslash-u. *)
Definition hex4 (a b c d : N) : option N :=
  match hexval a, hexval b, hexval c, hexval d with
  | Some x, Some y, Some z, Some w => Some (((x * 16 + y) * 16 + z) * 16 + w)
  | _, _, _, _ => None
  end.

Definition is_high_surrogate (c : N) : bool := (55296 <=? c) && (c <=? 56319).
Definition is_low_surrogate (c : N) : bool := (56320 <=? c) && (c <=? 57343).

Definition join_surrogates (hi lo : N) : N :=
  65536 + N.lor (N.shiftl (hi - 55296) 10) (lo - 56320).

(** The [BACKSLASH] table of the decoder. *)
Definition backslash (e : N) : option N :=
  if e =? 34 then Some 34 else if e =? 92 then Some 92
  else if e =? 47 then Some 47 else if e =? 98 then Some 8
  else if e =? 102 then Some 12 else if e =? 110 then Some 10
  else if e =? 114 then Some 13 else if e =? 116 then Some 9
  else None.

(** [py_scanstring(s, end, strict=True)]: [s] starts after the opening
    quote, [acc] holds the characters decoded so far, last first. *)
Fixpoint scanstring (s : str) (acc : str) : option (str * str) :=
  match s with
  | [] => None
  | c :: s1 =>
      if c =? 34 then Some (rev acc, s1)
      else if c =? 92 then
        match s1 with
        | [] => None
        | e :: s2 =>
            if e =? 117 then
              match s2 with
              | h1 :: h2 :: h3 :: h4 :: s3 =>
                  match hex4 h1 h2 h3 h4 with
                  | None => None
                  | Some uni =>
                      if is_high_surrogate uni then
                        match s3 with
                        | b :: e2 :: t =>
                            if (b =? 92) && (e2 =? 117) then
                              match t with
                              | l1 :: l2 :: l3 :: l4 :: s4 =>
                                  match hex4 l1 l2 l3 l4 with
                                  | None => None
                                  | Some uni2 =>
                                      if is_low_surrogate uni2
                                      then scanstring s4 (join_surrogates uni uni2 :: acc)
                                      else scanstring s3 (uni :: acc)
                                  end
                              | _ => None
                              end
                            else scanstring s3 (uni :: acc)
                        | _ => scanstring s3 (uni :: acc)
                        end
                      else scanstring s3 (uni :: acc)
                  end
              | _ => None
              end
            else
              match backslash e with
              | Some ch => scanstring s2 (ch :: acc)
              | None => None
              end
        end
      else if c <? 32 then None
      else scanstring s1 (c :: acc)
  end.

(** The longest prefix of digits and what follows it. *)
Fixpoint span_digits (s : str) : str * str :=
  match s with
  | c :: s' =>
      if is_digit c then let (ds, r) := span_digits s' in (c :: ds, r)
      else ([], s)
  | [] => ([], [])
  end.

(** The integer group of [NUMBER_RE]: a zero, or a non-zero digit and the
    digits after it. *)
Definition match_integer (s : str) : option (str * str) :=
  match s with
  | c :: s' =>
      if c =? 48 then Some ([48], s')
      else if is_digit c then let (ds, r) := span_digits s' in Some (c :: ds, r)
      else None
  | [] => None
  end.

(** The fraction group: a dot and at least one digit, or nothing. *)
Definition match_frac (s : str) : str * str :=
  match s with
  | c :: s' =>
      if c =? 46 then
        match span_digits s' with
        | ([], _) => ([], s)
        | (ds, r) => (46 :: ds, r)
        end
      else ([], s)
  | [] => ([], [])
  end.

(** The exponent group: [e] or [E], an optional sign and at least one
    digit, or nothing. *)
Definition match_exp (s : str) : str * str :=
  match s with
  | c :: s' =>
      if (c =? 101) || (c =? 69) then
        match s' with
        | g :: s'' =>
            if (g =? 45) || (g =? 43) then
              match span_digits s'' with
              | ([], _) => ([], s)
              | (ds, r) => (c :: g :: ds, r)
              end
            else
              match span_digits s' with
              | ([], _) => ([], s)
              | (ds, r) => (c :: ds, r)
              end
        | [] => ([], s)
        end
      else ([], s)
  | [] => ([], [])
  end.

(** [match_number] and the conversion of its groups by [int] or [float]. *)
Definition match_number (s : str) : option (json * str) :=
  let '(neg, s0) :=
    match s with
    | c :: s' => if c =? 45 then (true, s') else (false, s)
    | [] => (false, s)
    end in
  match match_integer s0 with
  | None => None
  | Some (ds, r1) =>
      let '(frac, r2) := match_frac r1 in
      let '(exp, r3) := match_exp r2 in
      match frac, exp with
      | [], [] => Some (JInt (int_of_literal neg ds), r3)
      | _, _ =>
          Some (JFloat ((if neg then [45] else []) ++ ds ++ frac ++ exp), r3)
      end
  end.

(** [scan_once], with the loops of [JSONArray] and [JSONObject].  [fuel]
    bounds the number of nested calls. *)
Fixpoint scan_once (fuel : nat) (s : str) : option (json * str) :=
  match fuel with
  | O => None
  | S f =>
      match s with
      | [] => None
      | c :: s' =>
          if c =? 34 then
            match scanstring s' [] with
            | Some (x, r) => Some (JStr x, r)
            | None => None
            end
          else if c =? 123 then
            match skip_ws s' with
            | c1 :: s1 =>
                if c1 =? 125 then Some (JDict [], s1)
                else if c1 =? 34 then object_loop f s1 []
                else None
            | [] => None
            end
          else if c =? 91 then
            match skip_ws s' with
            | c1 :: s1 =>
                if c1 =? 93 then Some (JList [], s1)
                else array_loop f (c1 :: s1) []
            | [] => None
            end
          else if (c =? 110) && startswith (u "null") s then
            Some (JNull, skipn 4 s)
          else if (c =? 116) && startswith (u "true") s then
            Some (JBool true, skipn 4 s)
          else if (c =? 102) && startswith (u "false") s then
            Some (JBool false, skipn 5 s)
          else
            match match_number s with
            | Some r => Some r
            | None =>
                if (c =? 78) && startswith (u "NaN") s then
                  Some (JFloat (u "NaN"), skipn 3 s)
                else if (c =? 73) && startswith (u "Infinity") s then
                  Some (JFloat (u "Infinity"), skipn 8 s)
                else if (c =? 45) && startswith (u "-Infinity") s then
                  Some (JFloat (u "-Infinity"), skipn 9 s)
                else None
            end
      end
  end

with array_loop (fuel : nat) (s : str) (values : list json)
  : option (json * str) :=
  match fuel with
  | O => None
  | S f =>
      match scan_once f s with
      | None => None
      | Some (value, s1) =>
          match skip_ws s1 with
          | c :: s2 =>
              if c =? 93 then Some (JList (rev (value :: values)), s2)
              else if c =? 44 then array_loop f (skip_ws s2) (value :: values)
              else None
          | [] => None
          end
      end
  end

with object_loop (fuel : nat) (s : str) (pairs : list (str * json))
  : option (json * str) :=
  match fuel with
  | O => None
  | S f =>
      match scanstring s [] with
      | None => None
      | Some (key, s1) =>
          match skip_ws s1 with
          | c :: s2 =>
              if c =? 58 then
                match scan_once f (skip_ws s2) with
                | None => None
                | Some (value, s3) =>
                    match skip_ws s3 with
                    | c1 :: s4 =>
                        if c1 =? 125 then
                          Some (JDict (dict_of_pairs (rev ((key, value) :: pairs))), s4)
                        else if c1 =? 44 then
                          match skip_ws s4 with
                          | c2 :: s5 =>
                              if c2 =? 34
                              then object_loop f s5 ((key, value) :: pairs)
                              else None
                          | [] => None
                          end
                        else None
                    | [] => None
                    end
                end
              else None
          | [] => None
          end
      end
  end.

(** [json.loads(s)]: [None] stands for [JSONDecodeError]. *)
Definition loads (s : str) : option json :=
  if startswith [65279] s then None
  else
    match scan_once (S (length s)) (skip_ws s) with
    | Some (obj, rest) =>
        match skip_ws rest with
        | [] => Some obj
        | _ :: _ => None
        end
    | None => None
    end.

(** ** [json.dumps(obj, indent=2)]

    After [json/encoder.py], with the defaults [json.dump] is called with:
    [ensure_ascii=True], item separator [","], key separator [": "].  A
    float is written as the literal it was read from, where the library
    writes [repr] of the binary64 value it stands for ([100.0] for [1e2],
    [Infinity] for [1E400]): the two texts differ in the writing of such
    numbers only. *)

Definition hexdigit (n : N) : N := if n <? 10 then 48 + n else 87 + n.

(** The escape of a code unit, four lower-case hexadecimal digits. *)
Definition u_escape (n : N) : str :=
  [92; 117; hexdigit (n / 4096); hexdigit ((n / 256) mod 16);
   hexdigit ((n / 16) mod 16); hexdigit (n mod 16)].

(** The replacement of one character in [encode_basestring_ascii]. *)
Definition encode_char (c : N) : str :=
  if c =? 34 then [92; 34]
  else if c =? 92 then [92; 92]
  else if c =? 10 then [92; 110]
  else if c =? 13 then [92; 114]
  else if c =? 9 then [92; 116]
  else if c =? 8 then [92; 98]
  else if c =? 12 then [92; 102]
  else if (32 <=? c) && (c <=? 126) then [c]
  else if c <? 65536 then u_escape c
  else
    let n := c - 65536 in
    u_escape (N.lor 55296 (N.land (N.shiftr n 10) 1023))
    ++ u_escape (N.lor 56320 (N.land n 1023)).

Definition encode_basestring_ascii (s : str) : str :=
  34 :: flat_map encode_char s ++ [34].

(** A newline and the indentation of a nesting level. *)
Definition newline_indent (level : nat) : str :=
  10 :: repeat 32 (2 * level).

(** The chunks of a container joined by the item separator and the
    newline of the level. *)
Fixpoint join_items (level : nat) (chunks : list str) : str :=
  match chunks with
  | [] => []
  | [x] => x
  | x :: rest => x ++ [44] ++ newline_indent level ++ join_items level rest
  end.

Fixpoint encode (level : nat) (v : json) : str :=
  match v with
  | JNull => u "null"
  | JBool true => u "true"
  | JBool false => u "false"
  | JInt z => str_of_Z z
  | JFloat lit => lit
  | JStr s => encode_basestring_ascii s
  | JList [] => u "[]"
  | JList items =>
      [91] ++ newline_indent (S level)
      ++ join_items (S level) (map (encode (S level)) items)
      ++ newline_indent level ++ [93]
  | JDict [] => u "{}"
  | JDict d =>
      [123] ++ newline_indent (S level)
      ++ join_items (S level)
           (map (fun kv => match kv with
                           | (k, x) =>
                               encode_basestring_ascii k ++ [58; 32]
                               ++ encode (S level) x
                           end) d)
      ++ newline_indent level ++ [125]
  end.

Definition dumps (v : json) : str := encode 0 v.

End PyJson.

(** ** Exceptions and results *)

Inductive exn : Type :=
| APIError (msg : str)
| IndexError
| AttributeError (type_name attr : str)
| KeyError (key : str)
| JSONDecodeError (doc : str)
| ValueError (msg : str)
| RecursionError (msg : str).

Inductive outcome (A : Type) : Type :=
| Return (a : A)
| Raise (e : exn).

Arguments Return {A} a.
Arguments Raise {A} e.

Definition bind {A B} (m : outcome A) (k : A -> outcome B) : outcome B :=
  match m with
  | Return a => k a
  | Raise e => Raise e
  end.

Notation "x <- m ;; k" := (bind m (fun x => k))
  (at level 61, m at next level, right associativity).

(** [json.loads] as the pipeline sees it, on a text within the limits of
    the interpreter.  The message and the position of a [JSONDecodeError]
    are functions of the document it was raised on, which the exception
    carries as [doc]. *)
Definition json_loads (s : str) : outcome json :=
  match PyJson.loads s with
  | Some v => Return v
  | None => Raise (JSONDecodeError s)
  end.

(** [type(v).__name__] *)
Definition type_name (v : json) : str :=
  match v with
  | JNull => u "NoneType"
  | JBool _ => u "bool"
  | JInt _ => u "int"
  | JFloat _ => u "float"
  | JStr _ => u "str"
  | JList _ => u "list"
  | JDict _ => u "dict"
  end.

(** ** The prompt *)

Definition q : str := [DQUOTE].

(** [TRANSFORMATION_PROMPT], line by line: the rubric and the output
    format, then the lines with the replacement fields. *)
Definition PROMPT_RUBRIC : list str :=
  [ u "You are transforming skills into the People Protocol framework format.";
    [];
    u "## What is a Skill?";
    [];
    u "Skills are technical and functional competencies required for a role. They are NOT:";
    u "- Behaviors/Values (universal organizational attributes)";
    u "- Deliverables (output metrics like speed, quality)";
    u "- Personality traits (abstract characteristics)";
    [];
    u "Skills provide clear roadmaps for growth, objective recruitment criteria, and standardized expectations.";
    [];
    u "## The Five Proficiency Levels";
    [];
    u "Each skill uses a consistent five-level scale that builds cumulatively. An employee at " ++ q ++ u "Advanced" ++ q ++ u " has demonstrated all behaviors at Poor (absence of), Basic, and Intermediate levels.";
    [];
    u "| Level | Label | Definition |";
    u "|-------|-------|------------|";
    u "| 1 | **Poor** | Red flag behaviors" ++ [8212] ++ u "no employee should exhibit these. Indicates fundamental gaps or negative impact. |";
    u "| 2 | **Basic** | Minimum acceptable standard. Foundational competency expected of entry-level employees. |";
    u "| 3 | **Intermediate** | Solid proficiency. Independent execution with reliability on complex tasks. |";
    u "| 4 | **Advanced** | High mastery. Strategic application, innovation, and ability to handle novel situations. |";
    u "| 5 | **Exceptional** | World-class. Industry-leading expertise that only the very best demonstrate. |";
    [];
    u "## Observable Statement Requirements";
    [];
    u "Each statement must be:";
    u "- **Observable**: Based on actions a manager can witness, not internal states";
    u "- **Specific**: Describes concrete behaviors, not vague qualities";
    u "- **Binary**: Can be answered Yes or No without ambiguity";
    u "- **Action-oriented**: Uses verbs that describe what someone does";
    u "- **Level-appropriate**: Complexity matches the proficiency level";
    [];
    u "**Good examples**: " ++ q ++ u "Delivers tasks on time" ++ q ++ u ", " ++ q ++ u "Identifies errors in seemingly correct statements by applying critical thinking" ++ q ++ u ", " ++ q ++ u "Breaks down simple problems based on data and resolves them" ++ q;
    [];
    u "**Bad examples**: " ++ q ++ u "Has good time management" ++ q ++ u ", " ++ q ++ u "Thinks critically" ++ q ++ u ", " ++ q ++ u "Is pretty good at problem-solving" ++ q;
    [];
    u "## Statement Quantity Per Level";
    [];
    u "**CRITICAL - MANDATORY REQUIREMENT**: Each level MUST have EXACTLY 2 or more statements. There should NEVER be 0 or 1 statement for any level. This is a hard requirement that cannot be violated.";
    [];
    u "- **Poor**: 2" ++ [8211] ++ u "5 statements (define clear " ++ q ++ u "red lines" ++ q ++ u ") - **MUST HAVE AT LEAST 2, NEVER 0 OR 1**";
    u "- **Basic**: 2" ++ [8211] ++ u "4 statements (core foundational behaviors) - **MUST HAVE AT LEAST 2, NEVER 0 OR 1**";
    u "- **Intermediate**: 2" ++ [8211] ++ u "4 statements (solid independent performance) - **MUST HAVE AT LEAST 2, NEVER 0 OR 1**";
    u "- **Advanced**: 2" ++ [8211] ++ u "5 statements (multiple aspects of mastery) - **MUST HAVE AT LEAST 2, NEVER 0 OR 1**";
    u "- **Exceptional**: 2" ++ [8211] ++ u "3 statements (rare, distinctive achievements) - **MUST HAVE AT LEAST 2, NEVER 0 OR 1**";
    [];
    u "**Total per skill**: 10" ++ [8211] ++ u "21 observable statements (minimum 10: 2 per level " ++ [215] ++ u " 5 levels).";
    [];
    u "**VALIDATION**: Your response will be rejected if ANY level has fewer than 2 statements. Ensure every level has at least 2 statements before returning your response.";
    [];
    u "## Statement Writing Patterns by Level";
    [];
    u "**Poor Level** (what NOT to do):";
    u "- " ++ q ++ u "Demonstrates unstructured [skill], fails to [expected outcome]" ++ q;
    u "- " ++ q ++ u "Lacks [key attribute], [negative consequence]" ++ q;
    u "- " ++ q ++ u "[Negative behavior] when challenged" ++ q;
    u "- " ++ q ++ u "Unable to [basic expectation]" ++ q;
    [];
    u "**Basic Level** (foundational competency):";
    u "- " ++ q ++ u "Shows common sense by [observable action]" ++ q;
    u "- " ++ q ++ u "Can [basic task] based on [inputs]" ++ q;
    u "- " ++ q ++ u "[Core competency]: [expected output]" ++ q;
    u "- " ++ q ++ u "Recognizes [fundamental concepts] and applies them correctly" ++ q;
    [];
    u "**Intermediate Level** (independent execution):";
    u "- " ++ q ++ u "Identifies [nuanced issues] by applying [method]" ++ q;
    u "- " ++ q ++ u "Delves into [complex areas] until reaching deep understanding" ++ q;
    u "- " ++ q ++ u "Consistently [positive behavior] without supervision" ++ q;
    u "- " ++ q ++ u "Able to [complex output] with minimal guidance" ++ q;
    [];
    u "**Advanced Level** (strategic mastery):";
    u "- " ++ q ++ u "Can synthesize [complex inputs] and connect [non-obvious elements]" ++ q;
    u "- " ++ q ++ u "Approaches [skill area] in an innovative way" ++ q;
    u "- " ++ q ++ u "Able to [teach/mentor/develop] others in [skill area]" ++ q;
    u "- " ++ q ++ u "Creates [frameworks/standards] adopted by the team" ++ q;
    [];
    u "**Exceptional Level** (industry-leading):";
    u "- " ++ q ++ u "Engages in [abstract/theoretical work] at the highest level" ++ q;
    u "- " ++ q ++ u "Solves [unprecedented challenges] using [advanced methods]" ++ q;
    u "- " ++ q ++ u "Recognized externally as an authority in [skill area]" ++ q;
    u "- " ++ q ++ u "Redefines [industry/field] standards and expectations" ++ q;
    [];
    u "## Scorecard Mechanics";
    [];
    u "Managers assess skills by reviewing each statement starting from Poor, marking " ++ q ++ u "Yes" ++ q ++ u " or " ++ q ++ u "No" ++ q ++ u " based on observed behavior, and stopping at the first " ++ q ++ u "No" ++ q ++ u " response. The employee's level is the highest level where all statements are " ++ q ++ u "Yes" ++ q ++ u ".";
    [];
    u "**Critical**: Earlier statements (Poor, Basic) must be absolute prerequisites. A " ++ q ++ u "No" ++ q ++ u " at Basic means the employee scores Poor, regardless of advanced capabilities.";
    [];
    u "## Quality Checklist";
    [];
    u "Before generating statements, ensure:";
    u "- All statements are observable (manager can answer Yes/No)";
    u "- Each statement is distinct (no duplicates across levels)";
    u "- Poor level describes genuinely problematic behaviors";
    u "- Basic level is achievable by entry-level employees";
    u "- Exceptional level is genuinely rare (top 1" ++ [8211] ++ u "5%)";
    u "- Statements use action verbs (demonstrates, delivers, identifies, creates)";
    u "- Statements avoid subjective qualifiers (good, bad, excellent)";
    u "- Progression from Poor " ++ [8594] ++ u " Exceptional shows clear capability increase";
    [];
    u "## Output Format";
    [];
    u "Return ONLY valid JSON in this exact structure (no markdown, no explanation):";
    [];
    u "{{";
    u "  " ++ q ++ u "name" ++ q ++ u ": " ++ q ++ u "Skill Name" ++ q ++ u ",";
    u "  " ++ q ++ u "description" ++ q ++ u ": " ++ q ++ u "One-line definition" ++ q ++ u ",";
    u "  " ++ q ++ u "lightcast_id" ++ q ++ u ": " ++ q ++ u "original_id" ++ q ++ u ",";
    u "  " ++ q ++ u "levels" ++ q ++ u ": {{";
    u "    " ++ q ++ u "poor" ++ q ++ u ": [" ++ q ++ u "statement 1" ++ q ++ u ", " ++ q ++ u "statement 2" ++ q ++ u "],";
    u "    " ++ q ++ u "basic" ++ q ++ u ": [" ++ q ++ u "statement 1" ++ q ++ u ", " ++ q ++ u "statement 2" ++ q ++ u "],";
    u "    " ++ q ++ u "intermediate" ++ q ++ u ": [" ++ q ++ u "statement 1" ++ q ++ u ", " ++ q ++ u "statement 2" ++ q ++ u "],";
    u "    " ++ q ++ u "advanced" ++ q ++ u ": [" ++ q ++ u "statement 1" ++ q ++ u ", " ++ q ++ u "statement 2" ++ q ++ u ", " ++ q ++ u "statement 3" ++ q ++ u "],";
    u "    " ++ q ++ u "exceptional" ++ q ++ u ": [" ++ q ++ u "statement 1" ++ q ++ u ", " ++ q ++ u "statement 2" ++ q ++ u "]";
    u "  }}";
    u "}}";
    [];
    u "## Skill to Transform";
    [] ].

Definition PROMPT_FIELDS : list str :=
  [ u "Name: {skill_name}";
    u "Description: {skill_description}";
    u "Lightcast ID: {skill_id}";
    [];
    u "Return ONLY the JSON object, nothing else." ].

Definition TRANSFORMATION_PROMPT : str :=
  join [NL] (PROMPT_RUBRIC ++ PROMPT_FIELDS).

(** A value of a skill record of the catalogue: a string, or [None] for a
    JSON null. *)
Inductive field_value : Type :=
| FStr (s : str)
| FNone.

(** [format(v, spec)] for the empty format spec: [str(v)]. *)
Definition format_value (v : field_value) : str :=
  match v with
  | FStr s => s
  | FNone => u "None"
  end.

Definition is_field_special (c : N) : bool :=
  (c =? 123) || (c =? 33) || (c =? 58) || (c =? 46) || (c =? 91).

(** [template.format] with keyword arguments [kwargs], for replacement
    fields that are plain keyword names, as those of [TRANSFORMATION_PROMPT]
    are.  [format_lit]
    reads literal text, [format_field] the name of a field after its
    opening brace. *)
Fixpoint format_lit (t : str) (kwargs : dict field_value) : outcome str :=
  match t with
  | [] => Return []
  | c :: t' =>
      if c =? 123 then
        match t' with
        | c' :: t'' =>
            if c' =? 123 then (r <- format_lit t'' kwargs;; Return (123 :: r))
            else format_field t' kwargs []
        | [] => Raise (ValueError (u "Single '{' encountered in format string"))
        end
      else if c =? 125 then
        match t' with
        | c' :: t'' =>
            if c' =? 125 then (r <- format_lit t'' kwargs;; Return (125 :: r))
            else Raise (ValueError (u "Single '}' encountered in format string"))
        | [] => Raise (ValueError (u "Single '}' encountered in format string"))
        end
      else (r <- format_lit t' kwargs;; Return (c :: r))
  end

with format_field (t : str) (kwargs : dict field_value) (name : str)
  : outcome str :=
  match t with
  | [] => Raise (ValueError (u "expected '}' before end of string"))
  | c :: t' =>
      if c =? 125 then
        match name with
        | [] => Raise IndexError
        | _ :: _ =>
            match dict_find kwargs (rev name) with
            | Some v => (r <- format_lit t' kwargs;; Return (format_value v ++ r))
            | None => Raise (KeyError (rev name))
            end
        end
      else if is_field_special c then
        Raise (ValueError (u "unsupported replacement field"))
      else format_field t' kwargs (c :: name)
  end.

Definition py_format (t : str) (kwargs : dict field_value) : outcome str :=
  format_lit t kwargs.

(** A skill record: the dict [skill] of [transform_skill]. *)
Definition skill_record := dict field_value.

Definition NO_DESCRIPTION : str := u "No description available".

(** Lines 227-231: the Prompt Builder. *)
Definition build_prompt (skill : skill_record) : outcome str :=
  py_format TRANSFORMATION_PROMPT
    [ (u "skill_name", dict_get skill (u "name") (FStr []));
      (u "skill_description",
        dict_get skill (u "description") (FStr NO_DESCRIPTION));
      (u "skill_id", dict_get skill (u "id") (FStr [])) ].

(** ** The model client

    [client.messages.create] either raises or returns a message, whose
    [content] is a list of blocks; only a text block has a [text]. *)

Inductive content_block : Type :=
| TextBlock (text : str)
| ToolUseBlock.

Definition message := list content_block.

Definition model_client := str -> outcome message.

(** [message.content[0].text] *)
Definition first_text (m : message) : outcome str :=
  match m with
  | [] => Raise IndexError
  | TextBlock text :: _ => Return text
  | ToolUseBlock :: _ => Raise (AttributeError (u "ToolUseBlock") (u "text"))
  end.

(** ** The response extractor, lines 241-253 *)

Definition FENCE : str := u "```".
Definition FENCE_JSON : str := u "```json".

(** [l[i]] *)
Definition index {A} (l : list A) (i : nat) : outcome A :=
  match nth_error l i with
  | Some x => Return x
  | None => Raise IndexError
  end.

(** [text.split(opening)[1].split(FENCE)[0].strip()] *)
Definition fenced (opening : str) (text : str) : outcome str :=
  after <- index (split opening text) 1;;
  inner <- index (split FENCE after) 0;;
  Return (strip inner).

Definition extract_json (response_text : str) : outcome json :=
  match json_loads response_text with
  | Return r => Return r
  | Raise (JSONDecodeError doc) =>
      if py_in FENCE_JSON response_text then
        json_str <- fenced FENCE_JSON response_text;;
        json_loads json_str
      else if py_in FENCE response_text then
        json_str <- fenced FENCE response_text;;
        json_loads json_str
      else Raise (JSONDecodeError doc)
  | Raise e => Raise e
  end.

(** Lines 241-253 for any behaviour of [json.loads].  Beyond the limits
    of the interpreter [json.loads] raises errors that are not a
    [JSONDecodeError]: a plain [ValueError] for an integer literal of more
    digits than the limit of [int], a [RecursionError] for containers
    nested deeper than the stack allows.  Line 244 does not catch them.
    [extract_json] is [extract_json_with json_loads]. *)
Definition extract_json_with (loads : str -> outcome json)
  (response_text : str) : outcome json :=
  match loads response_text with
  | Return r => Return r
  | Raise (JSONDecodeError doc) =>
      if py_in FENCE_JSON response_text then
        json_str <- fenced FENCE_JSON response_text;;
        loads json_str
      else if py_in FENCE response_text then
        json_str <- fenced FENCE response_text;;
        loads json_str
      else Raise (JSONDecodeError doc)
  | Raise e => Raise e
  end.

(** ** The structural validator, lines 255-268 *)

Definition LEVELS : list str :=
  [ u "poor"; u "basic"; u "intermediate"; u "advanced"; u "exceptional" ].

(** [x.get]: only a dict has the method. *)
Definition get_method (x : json) : outcome (dict json) :=
  match x with
  | JDict d => Return d
  | _ => Raise (AttributeError (type_name x) (u "get"))
  end.

(** [isinstance(statements, list)] *)
Definition is_list (x : json) : bool :=
  match x with
  | JList _ => true
  | _ => false
  end.

(** [len(statements) if isinstance(statements, list) else 0] *)
Definition observed_count (statements : json) : N :=
  match statements with
  | JList items => N.of_nat (length items)
  | _ => 0
  end.

(** [not isinstance(statements, list) or len(statements) < 2] *)
Definition too_few (statements : json) : bool :=
  negb (is_list statements) || (observed_count statements <? 2).

Definition violation (level : str) (statements : json) : str :=
  u "Level " ++ q ++ level ++ q
  ++ u " must have at least 2 statements, but found "
  ++ str_of_N (observed_count statements).

(** The loop over the levels. *)
Fixpoint check_levels (result : json) (levels : list str)
  (validation_errors : list str) : outcome (list str) :=
  match levels with
  | [] => Return validation_errors
  | level :: rest =>
      d <- get_method result;;
      by_level <- get_method (dict_get d (u "levels") (JDict []));;
      let statements := dict_get by_level level (JList []) in
      check_levels result rest
        (if too_few statements
         then validation_errors ++ [violation level statements]
         else validation_errors)
  end.

Definition error_msg (validation_errors : list str) : str :=
  u "Invalid skill transformation: " ++ join (u "; ") validation_errors
  ++ u ". Please regenerate with at least 2 statements per level.".

Definition validate (result : json) : outcome json :=
  validation_errors <- check_levels result LEVELS [];;
  match validation_errors with
  | [] => Return result
  | _ :: _ => Raise (ValueError (error_msg validation_errors))
  end.

(** ** [transform_skill] *)

Definition transform_skill (client : model_client) (skill : skill_record)
  : outcome json :=
  prompt <- build_prompt skill;;
  message <- client prompt;;
  text <- first_text message;;
  let response_text := strip text in
  result <- extract_json response_text;;
  validate result.

(** ** The components of the specification

    The stages of [transform_skill] under the names the specification
    gives them. *)

(** The text the model answers with, lines 227-239 before the trim. *)
Definition model_text (client : model_client) (skill : skill_record)
  : outcome str :=
  prompt <- build_prompt skill;;
  message <- client prompt;;
  first_text message.

(** The Response Extractor: the trim of line 239 and lines 241-253. *)
Definition response_extractor (text : str) : outcome json :=
  extract_json (strip text).

(** The same for any behaviour of [json.loads]. *)
Definition response_extractor_with (loads : str -> outcome json)
  (text : str) : outcome json :=
  extract_json_with loads (strip text).

(** A text wrapped in a fenced code block tagged [json]. *)
Definition json_fenced (t : str) : str :=
  FENCE_JSON ++ [NL] ++ t ++ [NL] ++ FENCE.

(** A text wrapped in an untagged fenced code block. *)
Definition plain_fenced (t : str) : str :=
  FENCE ++ [NL] ++ t ++ [NL] ++ FENCE.

(** The candidate object handed to the validator. *)
Definition candidate (client : model_client) (skill : skill_record)
  : outcome json :=
  text <- model_text client skill;;
  response_extractor text.

(** The [levels] sub-mapping of a candidate, when the candidate is a
    mapping and the entry is one; an absent entry is the empty mapping. *)
Definition levels_of (result : json) : option (dict json) :=
  match result with
  | JDict d =>
      match dict_get d (u "levels") (JDict []) with
      | JDict by_level => Some by_level
      | _ => None
      end
  | _ => None
  end.

(** The number of statements a level holds: the length of its sequence,
    and 0 when the key is absent or its value is not a sequence. *)
Definition statement_count (by_level : dict json) (level : str) : N :=
  match dict_find by_level level with
  | Some (JList items) => N.of_nat (length items)
  | _ => 0
  end.

(** Every canonical level holds a sequence of at least two statements. *)
Definition levels_ok (result : json) : Prop :=
  exists by_level,
    levels_of result = Some by_level /\
    forall level, In level LEVELS ->
      exists items,
        dict_find by_level level = Some (JList items) /\
        (2 <= length items)%nat.

(** The clause of the failure message for a level and a count. *)
Definition violation_clause (level : str) (count : N) : str :=
  u "Level " ++ q ++ level ++ q
  ++ u " must have at least 2 statements, but found " ++ str_of_N count.

(** The violations of a list of levels, in the order of the list. *)
Definition violations (by_level : dict json) (levels : list str) : list str :=
  map (fun level => violation_clause level (statement_count by_level level))
    (filter (fun level => statement_count by_level level <? 2) levels).

(** The identifier, as [transform_skill] reads it from the skill. *)
Definition identifier (skill : skill_record) : field_value :=
  dict_get skill (u "id") (FStr []).

(** [result.get(key)] on a returned value. *)
Definition member (key : string) (result : json) : option json :=
  match result with
  | JDict d => dict_find d (u key)
  | _ => None
  end.


(** The text a template stands for where it has no replacement field:
    a doubled brace is one brace. *)
Fixpoint unescape_braces (t : str) : str :=
  match t with
  | a :: ((b :: t') as r) =>
      if ((a =? 123) && (b =? 123)) || ((a =? 125) && (b =? 125))
      then a :: unescape_braces t'
      else a :: unescape_braces r
  | _ => t
  end.

(** The prompt for a name, a description and an identifier: the fixed
    text of the template with the three values in their places. *)
Definition rendered_prompt (name description id : str) : str :=
  unescape_braces (join [NL] PROMPT_RUBRIC) ++ [NL]
  ++ u "Name: " ++ name ++ [NL]
  ++ u "Description: " ++ description ++ [NL]
  ++ u "Lightcast ID: " ++ id ++ [NL; NL]
  ++ u "Return ONLY the JSON object, nothing else.".

(** The description in the words of the specification: the placeholder
    when the skill has no description or an empty one. *)
Definition description_or_placeholder (skill : skill_record) : str :=
  match dict_find skill (u "description") with
  | Some (FStr (c :: d)) => c :: d
  | _ => NO_DESCRIPTION
  end.

(** ** Well-formed text and values *)

Definition is_surrogate (c : N) : bool := (55296 <=? c) && (c <=? 57343).

(** A Unicode scalar value: a code point that is not a surrogate. *)
Definition scalar (c : N) : bool := (c <? 1114112) && negb (is_surrogate c).

(** Text of scalar values, as any text decoded from UTF-8 is. *)
Definition scalar_text (s : str) : Prop := Forall (fun c => scalar c = true) s.

(** No high surrogate is followed by a low one. *)
Fixpoint no_pair (s : str) : bool :=
  match s with
  | a :: ((b :: _) as r) =>
      negb (PyJson.is_high_surrogate a && PyJson.is_low_surrogate b)
      && no_pair r
  | _ => true
  end.

(** The strings the decoder builds from scalar text: code points, with no
    surrogate pair left unjoined. *)
Definition str_ok (s : str) : Prop :=
  Forall (fun c => c < 1114112) s /\ no_pair s = true.

(** What follows a value in an encoded document: nothing, a comma or a
    newline. *)
Definition delimited (rest : str) : Prop :=
  match rest with
  | [] => True
  | c :: _ => c = 44 \/ c = 10
  end.

(** A literal that the scanner reads back as the float it stands for. *)
Definition float_literal (lit : str) : Prop :=
  forall rest fuel,
    delimited rest ->
    PyJson.scan_once (S fuel) (lit ++ rest) = Some (JFloat lit, rest).

(** The values the decoder builds from scalar text. *)
#[local] Unset Elimination Schemes.
Inductive wf : json -> Prop :=
| wf_null : wf JNull
| wf_bool (b : bool) : wf (JBool b)
| wf_int (z : Z) : wf (JInt z)
| wf_float (lit : str) : float_literal lit -> wf (JFloat lit)
| wf_str (s : str) : str_ok s -> wf (JStr s)
| wf_list (items : list json) : Forall wf items -> wf (JList items)
| wf_dict (d : dict json) :
    NoDup (map fst d) ->
    Forall (fun kv => str_ok (fst kv) /\ wf (snd kv)) d ->
    wf (JDict d).
#[local] Set Elimination Schemes.

(** The number of values in a value, which bounds the nesting of the
    calls that scan its encoding. *)
Fixpoint size (v : json) : nat :=
  match v with
  | JList items => S (fold_right (fun x n => S (size x + n)) O items)
  | JDict d =>
      S (fold_right (fun kv n => match kv with
                                 | (_, x) => S (size x + n)
                                 end) O d)
  | _ => 1
  end.

(** The wire shape of the specification: the three string entries and a
    [levels] mapping from exactly the five level names to sequences of at
    least two strings. *)
Definition is_string (x : json) : Prop := exists s, x = JStr s.

Definition wire_shape (r : json) : Prop :=
  (exists s, member "name" r = Some (JStr s))
  /\ (exists s, member "description" r = Some (JStr s))
  /\ (exists s, member "lightcast_id" r = Some (JStr s))
  /\ exists by_level,
       member "levels" r = Some (JDict by_level)
       /\ (forall k, In k (map fst by_level) <-> In k LEVELS)
       /\ forall level, In level LEVELS ->
            exists items,
              dict_find by_level level = Some (JList items)
              /\ (2 <= length items)%nat
              /\ Forall is_string items.

(** Lines 456-464 of [main]: the document written to the output file. *)
Definition export_document (transformed : list json) : json :=
  JDict [ (u "framework", JStr (u "People Protocol"));
          (u "version", JStr (u "1.0"));
          (u "skills", JList transformed) ].

(** ** The configuration, lines 30-32, and [check_credentials], lines 277-296 *)

(** What [os.environ.get] returned for each of the three variables:
    [None] for a variable that is not set. *)
Record configuration : Type := {
  LIGHTCAST_CLIENT_ID : option str;
  LIGHTCAST_CLIENT_SECRET : option str;
  ANTHROPIC_API_KEY : option str
}.

(** [not v] for a string or [None]: both [None] and the empty string are
    false. *)
Definition py_not (v : option str) : bool :=
  match v with
  | Some (_ :: _) => false
  | _ => true
  end.

(** The list [missing] of lines 279-285. *)
Definition missing_variables (c : configuration) : list str :=
  (if py_not (LIGHTCAST_CLIENT_ID c) then [u "LIGHTCAST_CLIENT_ID"] else [])
  ++ (if py_not (LIGHTCAST_CLIENT_SECRET c)
      then [u "LIGHTCAST_CLIENT_SECRET"] else [])
  ++ (if py_not (ANTHROPIC_API_KEY c) then [u "ANTHROPIC_API_KEY"] else []).

(** The lines [check_credentials] prints and the value it returns. *)
Definition check_credentials (c : configuration) : list str * bool :=
  match missing_variables c with
  | [] => ([], true)
  | (_ :: _) as missing =>
      ([u "ERROR: Missing environment variables:"]
       ++ map (fun var => u "  - " ++ var) missing
       ++ [ NL :: u "Set them with:";
            u "  export LIGHTCAST_CLIENT_ID=" ++ q ++ u "your_id" ++ q;
            u "  export LIGHTCAST_CLIENT_SECRET=" ++ q ++ u "your_secret" ++ q;
            u "  export ANTHROPIC_API_KEY=" ++ q ++ u "your_key" ++ q ],
       false)
  end.

(** A variable that is set to a text that is not empty. *)
Definition is_set (v : option str) : Prop := exists c s, v = Some (c :: s).

(** ** [display_skills], lines 304-306: the description shown for a skill *)

(** [bool(v)] for a value of a skill record. *)
Definition truthy (v : field_value) : bool :=
  match v with
  | FStr (_ :: _) => true
  | _ => false
  end.

(** [desc] after lines 304-306: a description of more than 60 characters
    is cut to its first 57 and an ellipsis. *)
Definition shown_description (skill : skill_record) : field_value :=
  let desc := dict_get skill (u "description") (FStr (u "No description")) in
  match desc with
  | FStr s =>
      if truthy desc && (60 <? N.of_nat (length s))
      then FStr (firstn 57 s ++ u "...")
      else desc
  | FNone => desc
  end.

(** ** [main]: selecting skills by their numbers, lines 380-384 and 410-414

    [indices] is the list of line 380: the numbers typed, less one. *)

(** [l[i]] for an integer: a negative index counts from the end. *)
Definition getitem {A} (l : list A) (i : Z) : outcome A :=
  let n := Z.of_nat (length l) in
  let j := if (i <? 0)%Z then (i + n)%Z else i in
  if ((0 <=? j) && (j <? n))%Z then index l (Z.to_nat j)
  else Raise IndexError.

(** The loop of lines 381-383. *)
Fixpoint add_selected {A} (skills : list A) (indices : list Z)
  (selected_skills : list A) : outcome (list A) :=
  match indices with
  | [] => Return selected_skills
  | i :: rest =>
      if ((0 <=? i) && (i <? Z.of_nat (length skills)))%Z then
        skill <- getitem skills i;;
        add_selected skills rest (selected_skills ++ [skill])
      else add_selected skills rest selected_skills
  end.

(** Lines 381-384: the selection after the loop and the line printed. *)
Definition select_numbers {A} (skills : list A) (indices : list Z)
  (selected_skills : list A) : outcome (list A * str) :=
  selected <- add_selected skills indices selected_skills;;
  Return (selected,
          u "Added " ++ str_of_N (N.of_nat (length indices)) ++ u " skills").

(** Whether [i] is the position of an item of [l]. *)
Definition in_range {A} (l : list A) (i : Z) : bool :=
  ((0 <=? i) && (i <? Z.of_nat (length l)))%Z.

(** The items of [l] at the positions [indices], in the order of
    [indices]; a position outside of [l] gives no item. *)
Definition items_at {A} (l : list A) (indices : list Z) : list A :=
  flat_map (fun i => if in_range l i
                     then match nth_error l (Z.to_nat i) with
                          | Some x => [x]
                          | None => []
                          end
                     else []) indices.

(** ** [main]: removing selected skills, lines 430-434 *)

(** [d[k]] *)
Definition subscript {A} (d : dict A) (k : str) : outcome A :=
  match dict_find d k with
  | Some v => Return v
  | None => Raise (KeyError k)
  end.

(** [l.pop(i)]: the item removed and the list it leaves. *)
Definition pop {A} (l : list A) (i : Z) : outcome (A * list A) :=
  let n := Z.of_nat (length l) in
  let j := if (i <? 0)%Z then (i + n)%Z else i in
  if ((0 <=? j) && (j <? n))%Z then
    x <- index l (Z.to_nat j);;
    Return (x, firstn (Z.to_nat j) l ++ skipn (S (Z.to_nat j)) l)
  else Raise IndexError.

(** [sorted(l, reverse=True)] for a list of integers. *)
Fixpoint insert_descending (x : Z) (l : list Z) : list Z :=
  match l with
  | [] => [x]
  | y :: l' => if (y <? x)%Z then x :: l else y :: insert_descending x l'
  end.

Definition sorted_reverse (l : list Z) : list Z :=
  fold_right insert_descending [] l.

(** The loop of lines 431-434; line 434 prints the name of the skill
    removed. *)
Fixpoint remove_selected (indices : list Z)
  (selected_skills : list skill_record) : outcome (list skill_record) :=
  match indices with
  | [] => Return selected_skills
  | i :: rest =>
      if ((0 <=? i) && (i <? Z.of_nat (length selected_skills)))%Z then
        p <- pop selected_skills i;;
        name <- subscript (fst p) (u "name");;
        remove_selected rest (snd p)
      else remove_selected rest selected_skills
  end.

(** Lines 430-434, for the numbers typed, less one, in the order typed. *)
Definition remove_numbers (numbers : list Z)
  (selected_skills : list skill_record) : outcome (list skill_record) :=
  remove_selected (sorted_reverse numbers) selected_skills.

(** A skill record with a [name]. *)
Definition named (skill : skill_record) : Prop :=
  dict_find skill (u "name") <> None.

(** The list [l], whose first item has the position [start], without the
    items at the given positions. *)
Fixpoint drop_positions_from {A} (start : Z) (positions : list Z)
  (l : list A) : list A :=
  match l with
  | [] => []
  | x :: l' =>
      if existsb (Z.eqb start) positions
      then drop_positions_from (start + 1)%Z positions l'
      else x :: drop_positions_from (start + 1)%Z positions l'
  end.

Definition drop_positions {A} (positions : list Z) (l : list A) : list A :=
  drop_positions_from 0%Z positions l.

(** ** [main]: transforming the selected skills and exporting, lines 438-468

    The service may answer the same prompt differently each time:
    [claude n] is the client as it behaves at its [n]-th call, and every
    call of [transform_skill] calls the client once. *)

(** The loop of lines 446-454: line 448 prints the name of the skill, a
    transformation that raises is reported and left out. *)
Fixpoint transform_selected (claude : nat -> model_client) (call : nat)
  (selected_skills : list skill_record) (transformed : list json)
  : outcome (list json) :=
  match selected_skills with
  | [] => Return transformed
  | skill :: rest =>
      name <- subscript skill (u "name");;
      match transform_skill (claude call) skill with
      | Return result =>
          transform_selected claude (S call) rest (transformed ++ [result])
      | Raise _ => transform_selected claude (S call) rest transformed
      end
  end.

(** Lines 438-468: the text written to [OUTPUT_FILE], [None] when no file
    is written. *)
Definition export_selected (claude : nat -> model_client)
  (selected_skills : list skill_record) : outcome (option str) :=
  match selected_skills with
  | [] => Return None
  | _ :: _ =>
      transformed <- transform_selected claude 0 selected_skills [];;
      match transformed with
      | [] => Return None
      | _ :: _ => Return (Some (PyJson.dumps (export_document transformed)))
      end
  end.

(** The results of the transformations that succeed, in the order of the
    skills; the first skill is transformed at the call [call]. *)
Fixpoint successes (claude : nat -> model_client) (call : nat)
  (skills : list skill_record) : list json :=
  match skills with
  | [] => []
  | skill :: rest =>
      match transform_skill (claude call) skill with
      | Return result => result :: successes claude (S call) rest
      | Raise _ => successes claude (S call) rest
      end
  end.

(** Every text the service answers with is scalar text. *)
Definition scalar_answers (claude : nat -> model_client) : Prop :=
  forall n prompt message text,
    claude n prompt = Return message ->
    first_text message = Return text ->
    scalar_text text.

(** A newline or a printable ASCII character. *)
Definition plain_ascii (c : N) : Prop := c = 10 \/ (32 <= c /\ c <= 126).

(** The list without its item at the position [n]. *)
Definition remove_at {A} (n : nat) (l : list A) : list A :=
  firstn n l ++ skipn (S n) l.

(** ** [main]: the numbers typed, lines 380, 410 and 430

    [str.isdigit] and [int] read Unicode tables, which are parameters
    here: [unicode_digit c] says whether [c] is a digit for [str.isdigit]
    (numeric type Digit or Decimal), [unicode_decimal c] is the value of
    [c] when it is a decimal digit (category Nd), and [max_str_digits] is
    the limit [int] puts on the number of digits
    ([sys.get_int_max_str_digits()], 0 for no limit). *)

Section Numbers.

Variable unicode_digit : N -> bool.
Variable unicode_decimal : N -> option N.
Variable max_str_digits : nat.

(** [s.isdigit()] *)
Definition isdigit (s : str) : bool :=
  match s with
  | [] => false
  | _ :: _ => forallb unicode_digit s
  end.

(** The values of the characters of [s], when all are decimal digits. *)
Fixpoint decimal_values (s : str) : option (list N) :=
  match s with
  | [] => Some []
  | c :: s' =>
      match unicode_decimal c, decimal_values s' with
      | Some v, Some vs => Some (v :: vs)
      | _, _ => None
      end
  end.

(** The decimal number with the given digits. *)
Fixpoint uint_of_values (values : list N) : Decimal.uint :=
  match values with
  | [] => Decimal.Nil
  | v :: values' =>
      let r := uint_of_values values' in
      if v =? 0 then Decimal.D0 r else if v =? 1 then Decimal.D1 r
      else if v =? 2 then Decimal.D2 r else if v =? 3 then Decimal.D3 r
      else if v =? 4 then Decimal.D4 r else if v =? 5 then Decimal.D5 r
      else if v =? 6 then Decimal.D6 r else if v =? 7 then Decimal.D7 r
      else if v =? 8 then Decimal.D8 r else Decimal.D9 r
  end.

(** [int(s)] for a text [s] that [str.isdigit] accepts: it is a
    [ValueError] when the text is longer than the limit or holds a digit
    that is not a decimal digit. *)
Definition py_int (s : str) : outcome Z :=
  if negb (Nat.eqb max_str_digits 0) && Nat.ltb max_str_digits (length s)
  then
    Raise (ValueError
             (u "Exceeds the limit (" ++ str_of_N (N.of_nat max_str_digits)
              ++ u " digits) for integer string conversion: value has "
              ++ str_of_N (N.of_nat (length s))
              ++ u " digits; use sys.set_int_max_str_digits() "
              ++ u "to increase the limit"))
  else
    match decimal_values s with
    | Some values => Return (Z.of_N (N.of_uint (uint_of_values values)))
    | None =>
        Raise (ValueError
                 (u "invalid literal for int() with base 10: '" ++ s
                  ++ u "'"))
    end.

(** [[int(x.strip())-1 for x in entries if x.strip().isdigit()]] *)
Fixpoint entry_indices (entries : list str) : outcome (list Z) :=
  match entries with
  | [] => Return []
  | x :: rest =>
      if isdigit (strip x) then
        n <- py_int (strip x);;
        indices <- entry_indices rest;;
        Return ((n - 1)%Z :: indices)
      else entry_indices rest
  end.

(** The list [indices] of lines 380 and 410, for the text typed. *)
Definition typed_indices (selection : str) : outcome (list Z) :=
  entry_indices (split (u ",") selection).

(** Lines 380-384 and 410-414: the branch of a text that is not empty and
    is not [all]. *)
Definition select_typed {A} (skills : list A) (selection : str)
  (selected_skills : list A) : outcome (list A * str) :=
  indices <- typed_indices selection;;
  select_numbers skills indices selected_skills.

(** Lines 430-434: the branch of a text that is not empty and is not
    [clear]. *)
Definition remove_typed (remove : str) (selected_skills : list skill_record)
  : outcome (list skill_record) :=
  numbers <- typed_indices remove;;
  remove_numbers numbers selected_skills.

End Numbers.

(** [str.isdigit] and [int] on ASCII characters: the digits are 0 to 9. *)
Definition agrees_on_ascii (unicode_digit : N -> bool)
  (unicode_decimal : N -> option N) : Prop :=
  (forall c, c < 128 -> unicode_digit c = is_digit c)
  /\ (forall c, is_digit c = true -> unicode_decimal c = Some (c - 48)).

(** The limit allows texts of [n] digits. *)
Definition within_limit (max_str_digits n : nat) : Prop :=
  max_str_digits = 0%nat \/ (n <= max_str_digits)%nat.

(** A number as it may be typed: its decimal writing between blanks. *)
Definition typed_number (entry : str * N * str) : str :=
  match entry with
  | (before, n, after) => before ++ str_of_N n ++ after
  end.

Definition blanks (s : str) : Prop := Forall (fun c => isspace c = true) s.

(** The tables restricted to ASCII. *)
Definition ascii_decimal (c : N) : option N :=
  if is_digit c then Some (c - 48) else None.

(** A number typed between blanks, within the limit on digits. *)
Definition entry_ok_typed (max_str_digits : nat) (entry : str * N * str)
  : Prop :=
  match entry with
  | (before, n, after) =>
      blanks before /\ blanks after
      /\ within_limit max_str_digits (length (str_of_N n))
  end.


(** ** Notions for the proofs about the codec *)

Import PyJson.

(** Whether [f] holds of every number below [bound]. *)
Definition all_below (bound : N) (f : N -> bool) : bool :=
  snd (N.iter bound (fun st => (fst st + 1, snd st && f (fst st))) (0, true)).

(** Whether the four digits of the escape of [n] are read as [n]. *)
Definition u_escape_reads_back (n : N) : bool :=
  match u_escape n with
  | [b; e; h1; h2; h3; h4] =>
      (b =? 92) && (e =? 117) &&
      match hex4 h1 h2 h3 h4 with
      | Some m => m =? n
      | None => false
      end
  | _ => false
  end.

(** The two surrogates [encode_char] writes for a code point above the
    basic plane. *)
Definition high_half (c : N) : N :=
  N.lor 55296 (N.land (N.shiftr (c - 65536) 10) 1023).

Definition low_half (c : N) : N := N.lor 56320 (N.land (c - 65536) 1023).

(** Ten bits set over the base of a surrogate range add to it. *)
Definition lor_high_check (a : N) : bool :=
  N.lor 55296 (N.land a 1023) =? 55296 + a.

Definition lor_low_check (b : N) : bool := N.lor 56320 b =? 56320 + b.

(** What must follow the escape of a high surrogate for the scanner to
    keep it as it is. *)
Definition safe_after_high (x : str) : bool :=
  match x with
  | b :: e :: t =>
      if (b =? 92) && (e =? 117) then
        match t with
        | l1 :: l2 :: l3 :: l4 :: _ =>
            match hex4 l1 l2 l3 l4 with
            | Some uni2 => negb (is_low_surrogate uni2)
            | None => false
            end
        | _ => false
        end
      else true
  | _ => true
  end.

(** The classes of characters of [encode_char]. *)
Inductive encoding_of (c : N) : str -> Prop :=
| enc_backslash (e : N) :
    (e =? 117) = false -> backslash e = Some c -> encoding_of c [92; e]
| enc_plain :
    (c =? 34) = false -> (c =? 92) = false -> (c <? 32) = false ->
    encoding_of c [c]
| enc_escape : c < 65536 -> encoding_of c (u_escape c)
| enc_pair :
    65536 <= c -> c < 1114112 ->
    encoding_of c (u_escape (high_half c) ++ u_escape (low_half c)).

(** The text does not go on with a digit. *)
Definition no_digit_ahead (x : str) : Prop :=
  match x with
  | c :: _ => is_digit c = false
  | [] => True
  end.

(** A character at which [scan_once] finds a value is neither white space
    nor a closing bracket nor a byte order mark. *)
Definition value_start (c : N) : Prop :=
  is_ws c = false /\ (c =? 93) = false /\ (c =? 65279) = false.

(** The calls the loops of [JSONArray] and [JSONObject] need for the
    items of a container. *)
Definition items_size (items : list json) : nat :=
  fold_right (fun x n => S (size x + n)) O items.

Definition dict_size (d : dict json) : nat :=
  fold_right (fun kv n => match kv with (_, x) => S (size x + n) end) O d.

(** An encoded value, followed by a delimiter, is scanned as the value. *)
Definition reads_back (v : json) : Prop :=
  forall level rest fuel,
    (size v <= fuel)%nat -> delimited rest ->
    scan_once fuel (encode level v ++ rest) = Some (v, rest).

(** The entries of an encoded dict after the opening quote of the first
    key. *)
Fixpoint entries_tail (level : nat) (d : dict json) : str :=
  match d with
  | [] => []
  | (k, x) :: d' =>
      flat_map encode_char k ++ [34; 58; 32] ++ encode level x
      ++ match d' with
         | [] => []
         | _ :: _ => [44] ++ newline_indent level ++ 34 :: entries_tail level d'
         end
  end.

(** The lengths of the chunks of a container, one more for each. *)
Definition chunk_sum (chunks : list str) : nat :=
  fold_right (fun c n => S (length c + n)) O chunks.

(** Whether the text begins with the escape of a low surrogate. *)
Definition low_escape_ahead (s : str) : bool :=
  match s with
  | b :: e :: h1 :: h2 :: h3 :: h4 :: _ =>
      (b =? 92) && (e =? 117)
      && match hex4 h1 h2 h3 h4 with
         | Some uni => is_low_surrogate uni
         | None => false
         end
  | _ => false
  end.

(** One step of [scanstring]: the character it appends and the text it
    goes on with. *)
Inductive scan_step : str -> N -> str -> Prop :=
| step_plain (c : N) (s1 : str) :
    (c =? 34) = false -> (c =? 92) = false -> (c <? 32) = false ->
    scan_step (c :: s1) c s1
| step_backslash (e ch : N) (s2 : str) :
    (e =? 117) = false -> backslash e = Some ch ->
    scan_step (92 :: e :: s2) ch s2
| step_escape (h1 h2 h3 h4 uni : N) (s3 : str) :
    hex4 h1 h2 h3 h4 = Some uni ->
    (is_high_surrogate uni = true -> low_escape_ahead s3 = false) ->
    scan_step (92 :: 117 :: h1 :: h2 :: h3 :: h4 :: s3) uni s3
| step_pair (h1 h2 h3 h4 l1 l2 l3 l4 hi lo : N) (s4 : str) :
    hex4 h1 h2 h3 h4 = Some hi -> is_high_surrogate hi = true ->
    hex4 l1 l2 l3 l4 = Some lo -> is_low_surrogate lo = true ->
    scan_step (92 :: 117 :: h1 :: h2 :: h3 :: h4
               :: 92 :: 117 :: l1 :: l2 :: l3 :: l4 :: s4)
      (join_surrogates hi lo) s4.

(** What [scanstring] has decoded so far, last character first, before
    the text [s]. *)
Definition decoded_ok (acc s : str) : Prop :=
  Forall (fun c => c < 1114112) acc
  /\ no_pair (rev acc) = true
  /\ match acc with
     | a :: _ => is_high_surrogate a = true -> low_escape_ahead s = false
     | [] => True
     end.

(** A group of [NUMBER_RE] that matched [g] matches it again before any
    text that does not continue it. *)
Definition integer_group (g : str) : Prop :=
  (exists c t, g = c :: t /\ is_digit c = true)
  /\ forall x, no_digit_ahead x -> match_integer (g ++ x) = Some (g, x).

(** The same for the fraction and the exponent, which may be absent. *)
Definition optional_group (matcher : str -> str * str) (first : N -> bool)
  (g : str) : Prop :=
  g = []
  \/ ((exists c t, g = c :: t /\ first c = true)
      /\ forall x, no_digit_ahead x -> matcher (g ++ x) = (g, x)).

Definition is_exponent_mark (c : N) : bool := (c =? 101) || (c =? 69).

(** A well-formed item of a dict. *)
Definition entry_ok (kv : str * json) : Prop := str_ok (fst kv) /\ wf (snd kv).

(** With [fuel] calls, the scanner and its two loops build well-formed
    values from scalar text and leave scalar text. *)
Definition scanner_wf (fuel : nat) : Prop :=
  (forall s v r,
      scan_once fuel s = Some (v, r) -> scalar_text s ->
      wf v /\ scalar_text r)
  /\ (forall s values v r,
         array_loop fuel s values = Some (v, r) -> scalar_text s ->
         Forall wf values -> wf v /\ scalar_text r)
  /\ (forall s pairs v r,
         object_loop fuel s pairs = Some (v, r) -> scalar_text s ->
         Forall entry_ok pairs -> wf v /\ scalar_text r).

(** More fuel changes no result of the scanner. *)
Definition more_fuel (f : nat) : Prop :=
  (forall s r f', scan_once f s = Some r -> (f <= f')%nat ->
                  scan_once f' s = Some r)
  /\ (forall s values r f', array_loop f s values = Some r -> (f <= f')%nat ->
                            array_loop f' s values = Some r)
  /\ (forall s pairs r f', object_loop f s pairs = Some r -> (f <= f')%nat ->
                           object_loop f' s pairs = Some r).

(** A successful call of the scanner consumes text. *)
Definition consumes (f : nat) : Prop :=
  (forall s v rest, scan_once f s = Some (v, rest) ->
                    (length rest < length s)%nat)
  /\ (forall s values v rest, array_loop f s values = Some (v, rest) ->
                              (length rest < length s)%nat)
  /\ (forall s pairs v rest, object_loop f s pairs = Some (v, rest) ->
                             (length rest < length s)%nat).

(** The fuel a successful call needs is at most the length of the text it
    consumes. *)
Definition frugal (f : nat) : Prop :=
  (forall s v rest,
      scan_once f s = Some (v, rest) ->
      scan_once (length s - length rest) s = Some (v, rest))
  /\ (forall s values v rest,
         array_loop f s values = Some (v, rest) ->
         array_loop (length s - length rest) s values = Some (v, rest))
  /\ (forall s pairs v rest,
         object_loop f s pairs = Some (v, rest) ->
         object_loop (length s - length rest) s pairs = Some (v, rest)).

(** The characters of a number literal. *)
Definition number_char (c : N) : bool :=
  is_digit c || (c =? 43) || (c =? 45) || (c =? 46) || (c =? 69) || (c =? 101).

(** [plain_ascii] as a test. *)
Definition plain_asciib (c : N) : bool :=
  (c =? 10) || ((32 <=? c) && (c <=? 126)).

(** The string [scanstring] reads from the escapes written for [s]: a
    code point above the basic plane is written as two surrogates and
    read as their pair, and so is a high surrogate followed by a low
    one. *)
Fixpoint reread_str (s : str) : str :=
  match s with
  | [] => []
  | c :: s1 =>
      if c <? 65536 then
        match s1 with
        | l :: s2 =>
            if is_high_surrogate c && is_low_surrogate l
            then join_surrogates c l :: reread_str s2
            else c :: reread_str s1
        | [] => [c]
        end
      else join_surrogates (high_half c) (low_half c) :: reread_str s1
  end.

(** The value [json.loads] reads from the serialization of [v]. *)
Fixpoint reread (v : json) : json :=
  match v with
  | JStr s => JStr (reread_str s)
  | JList items => JList (map reread items)
  | JDict d =>
      JDict (dict_of_pairs
               (map (fun kv => match kv with
                               | (k, x) => (reread_str k, reread x)
                               end) d))
  | _ => v
  end.

(** The values the decoder builds from any text: the keys of a dict are
    distinct and a float is a literal of the grammar. *)
#[local] Unset Elimination Schemes.
Inductive parsed : json -> Prop :=
| parsed_null : parsed JNull
| parsed_bool (b : bool) : parsed (JBool b)
| parsed_int (z : Z) : parsed (JInt z)
| parsed_float (lit : str) : float_literal lit -> parsed (JFloat lit)
| parsed_str (s : str) : parsed (JStr s)
| parsed_list (items : list json) : Forall parsed items -> parsed (JList items)
| parsed_dict (d : dict json) :
    NoDup (map fst d) ->
    Forall (fun kv => parsed (snd kv)) d ->
    parsed (JDict d).
#[local] Set Elimination Schemes.

(** An encoded value, followed by a delimiter, is scanned as the value
    reread. *)
Definition rereads (v : json) : Prop :=
  forall level rest fuel,
    (size v <= fuel)%nat -> delimited rest ->
    scan_once fuel (encode level v ++ rest) = Some (reread v, rest).

(** The item of a dict, reread. *)
Definition reread_item (kv : str * json) : str * json :=
  (reread_str (fst kv), reread (snd kv)).

(** With [fuel] calls, the scanner and its two loops build parsed
    values. *)
Definition scanner_parsed (fuel : nat) : Prop :=
  (forall s v r, scan_once fuel s = Some (v, r) -> parsed v)
  /\ (forall s values v r,
         array_loop fuel s values = Some (v, r) ->
         Forall parsed values -> parsed v)
  /\ (forall s pairs v r,
         object_loop fuel s pairs = Some (v, r) ->
         Forall (fun kv => parsed (snd kv)) pairs -> parsed v).

(** Text of code points below the surrogates, as ASCII text is. *)
Definition below_surrogates (s : str) : Prop := Forall (fun c => c < 55296) s.

(** ** Sample inputs *)

Module Sample.

Definition quoted (s : string) : str := q ++ u s ++ q.

Definition entry (key : string) (value : str) : str :=
  quoted key ++ u ": " ++ value.

(** The JSON text of a list of [n] statements. *)
Definition statements (n : nat) : str :=
  u "[" ++ join (u ", ") (repeat (quoted "Delivers tasks on time") n) ++ u "]".

Definition levels_text (poor basic intermediate advanced exceptional : nat)
  : str :=
  u "{" ++ entry "poor" (statements poor) ++ u ", "
  ++ entry "basic" (statements basic) ++ u ", "
  ++ entry "intermediate" (statements intermediate) ++ u ", "
  ++ entry "advanced" (statements advanced) ++ u ", "
  ++ entry "exceptional" (statements exceptional) ++ u "}".

(** The JSON text of a transformed skill with the given identifier and
    the given number of statements at each level. *)
Definition skill_text (id : string)
  (poor basic intermediate advanced exceptional : nat) : str :=
  u "{" ++ entry "name" (quoted "Data Visualization") ++ u ", "
  ++ entry "description" (quoted "Presents data visually") ++ u ", "
  ++ entry "lightcast_id" (quoted id) ++ u ", "
  ++ entry "levels"
       (levels_text poor basic intermediate advanced exceptional)
  ++ u "}".

(** A JSON object with a string of three backticks. *)
Definition backticks_text : str :=
  u "{" ++ entry "a" (q ++ FENCE ++ q) ++ u "}".

(** An answer that holds the [levels] mapping and nothing else. *)
Definition levels_only_text : str :=
  u "{" ++ entry "levels" (levels_text 2 2 2 2 2) ++ u "}".

(** An answer whose [name] is a high surrogate and a low one, as two
    characters of the text. *)
Definition surrogates_text : str :=
  u "{" ++ entry "name" (q ++ [55357; 56832] ++ q) ++ u ", "
  ++ entry "levels" (levels_text 2 2 2 2 2) ++ u "}".

(** The skill of the scenario of the specification. *)
Definition data_visualization : skill_record :=
  [ (u "id", FStr (u "ESCOXXX"));
    (u "name", FStr (u "Data Visualization"));
    (u "description", FStr (u "Ability to present data visually")) ].

(** The same skill with an empty description. *)
Definition empty_description : skill_record :=
  [ (u "id", FStr (u "ESCOXXX"));
    (u "name", FStr (u "Data Visualization"));
    (u "description", FStr []) ].

(** A client that answers every prompt with the same text. *)
Definition answers (text : str) : model_client :=
  fun _ => Return [TextBlock text].

End Sample.

(** A service that answers its first call with a skill that has two
    statements at every level, and every later call with text that is
    not JSON. *)
Definition first_call_succeeds : nat -> model_client :=
  fun n =>
    match n with
    | O => Sample.answers (Sample.skill_text "ESCOXXX" 2 2 2 2 2)
    | S _ => Sample.answers (u "I cannot help with that.")
    end.

(** * Properties *)

(** ** The error monad *)

Lemma bind_Return_inv {A B} (m : outcome A) (k : A -> outcome B) (b : B) :
  bind m k = Return b -> exists a, m = Return a /\ k a = Return b.
Proof.
  destruct m as [a | e]; simpl; intros H.
  - exists a. split; [reflexivity | exact H].
  - discriminate H.
Qed.


(** [transform_skill] is the validator applied to the candidate. *)
Lemma transform_skill_stages (client : model_client) (skill : skill_record) :
  transform_skill client skill = bind (candidate client skill) validate.
Proof.
  unfold transform_skill, candidate, model_text, response_extractor.
  destruct (build_prompt skill) as [prompt | e]; simpl; [| reflexivity].
  destruct (client prompt) as [message | e]; simpl; [| reflexivity].
  destruct (first_text message) as [text | e]; simpl; reflexivity.
Qed.

Lemma candidate_stages (client : model_client) (skill : skill_record) :
  candidate client skill
  = bind (model_text client skill) response_extractor.
Proof. reflexivity. Qed.

(** ** Strings *)

Lemma str_eqb_eq (a b : str) : str_eqb a b = true <-> a = b.
Proof.
  revert b. induction a as [| x a IH]; intros [| y b]; simpl;
    try (split; [discriminate | discriminate]); [tauto |].
  rewrite andb_true_iff, N.eqb_eq, IH.
  split; [intros [-> ->]; reflexivity | intros H; inversion H; auto].
Qed.

Lemma str_eqb_refl (a : str) : str_eqb a a = true.
Proof. apply str_eqb_eq. reflexivity. Qed.

Lemma startswith_app (p s : str) : startswith p (p ++ s) = true.
Proof.
  induction p as [| a p IH]; simpl; [reflexivity |].
  rewrite N.eqb_refl. exact IH.
Qed.

Lemma py_in_app (x a b : str) : py_in x (a ++ x ++ b) = true.
Proof.
  induction a as [| c a IH]; simpl.
  - destruct (x ++ b) eqn:E; simpl.
    + destruct x; [reflexivity | discriminate E].
    + rewrite <- E, startswith_app. reflexivity.
  - rewrite IH. apply orb_true_r.
Qed.

Lemma py_in_in_join (sep x : str) (parts : list str) (a b : str) :
  In x parts -> py_in x (a ++ join sep parts ++ b) = true.
Proof.
  revert a. induction parts as [| p parts IH]; intros a; simpl; [tauto |].
  intros [-> | Hin].
  - destruct parts as [| p' parts].
    + apply py_in_app.
    + rewrite <- app_assoc. apply py_in_app.
  - destruct parts as [| p' parts]; [destruct Hin |].
    replace (a ++ (p ++ sep ++ join sep (p' :: parts)) ++ b)
      with ((a ++ p ++ sep) ++ join sep (p' :: parts) ++ b)
      by (repeat rewrite <- app_assoc; reflexivity).
    apply IH. exact Hin.
Qed.

(** ** The validator *)

Lemma statements_too_few (by_level : dict json) (level : str) :
  too_few (dict_get by_level level (JList []))
  = (statement_count by_level level <? 2).
Proof.
  unfold dict_get, statement_count, too_few.
  destruct (dict_find by_level level) as [[| | | | | items |] |]; reflexivity.
Qed.

Lemma statements_violation (by_level : dict json) (level : str) :
  violation level (dict_get by_level level (JList []))
  = violation_clause level (statement_count by_level level).
Proof.
  unfold dict_get, statement_count, violation, violation_clause.
  destruct (dict_find by_level level) as [[| | | | | items |] |]; reflexivity.
Qed.

Lemma check_levels_mapping (result : json) (by_level : dict json) :
  levels_of result = Some by_level ->
  forall levels errs,
    check_levels result levels errs
    = Return (errs ++ violations by_level levels).
Proof.
  intros Hl levels. unfold violations.
  induction levels as [| level rest IH]; intros errs; simpl.
  - rewrite app_nil_r. reflexivity.
  - unfold levels_of in Hl.
    destruct result as [| | | | | |d]; try discriminate Hl. simpl.
    destruct (dict_get d (u "levels") (JDict [])) as [| | | | | |bl] eqn:E;
      try discriminate Hl.
    injection Hl as ->. simpl.
    rewrite IH, statements_too_few, statements_violation.
    destruct (statement_count by_level level <? 2); simpl.
    + rewrite <- app_assoc. reflexivity.
    + reflexivity.
Qed.

Lemma check_levels_no_mapping (result : json) :
  levels_of result = None ->
  forall level rest errs,
    exists tn,
      check_levels result (level :: rest) errs
      = Raise (AttributeError tn (u "get")).
Proof.
  intros Hl level rest errs. unfold levels_of in Hl. simpl.
  destruct result as [| | | | | |d]; simpl; try (eexists; reflexivity).
  destruct (dict_get d (u "levels") (JDict [])) as [| | | | | |bl];
    simpl; try (eexists; reflexivity).
  discriminate Hl.
Qed.

Lemma validate_mapping (result : json) (by_level : dict json) :
  levels_of result = Some by_level ->
  validate result
  = match violations by_level LEVELS with
    | [] => Return result
    | errs => Raise (ValueError (error_msg errs))
    end.
Proof.
  intros Hl. unfold validate.
  rewrite (check_levels_mapping result by_level Hl). simpl.
  destruct (violations by_level LEVELS); reflexivity.
Qed.

Lemma violations_nil (by_level : dict json) (levels : list str) :
  violations by_level levels = [] <->
  forall level, In level levels ->
    exists items,
      dict_find by_level level = Some (JList items) /\ (2 <= length items)%nat.
Proof.
  unfold violations. induction levels as [| l rest IH]; simpl.
  - split; [intros _ level [] | reflexivity].
  - destruct (statement_count by_level l <? 2) eqn:E; simpl.
    + split; [discriminate |].
      intros H. destruct (H l (or_introl eq_refl)) as [items [Hf Hlen]].
      unfold statement_count in E. rewrite Hf in E.
      apply N.ltb_lt in E. lia.
    + rewrite IH. split.
      * intros H level [<- | Hin]; [| exact (H level Hin)].
        unfold statement_count in E. apply N.ltb_ge in E.
        destruct (dict_find by_level l) as [[| | | | | items |] |];
          try (exfalso; lia).
        exists items. split; [reflexivity | lia].
      * intros H level Hin. apply H. right. exact Hin.
Qed.

Lemma validate_Return_iff (result r : json) :
  validate result = Return r <-> r = result /\ levels_ok result.
Proof.
  unfold levels_ok. destruct (levels_of result) as [by_level |] eqn:Hl.
  - rewrite (validate_mapping result by_level Hl).
    destruct (violations by_level LEVELS) as [| e errs] eqn:Hv.
    + split.
      * intros H. injection H as <-. split; [reflexivity |].
        exists by_level. split; [reflexivity |].
        apply violations_nil. exact Hv.
      * intros [-> _]. reflexivity.
    + split; [discriminate |].
      intros [_ [bl [Hbl Hall]]]. injection Hbl as <-.
      apply violations_nil in Hall. rewrite Hall in Hv. discriminate Hv.
  - split.
    + intros H. unfold validate in H.
      destruct (check_levels_no_mapping result Hl (u "poor")
                  (tl LEVELS) []) as [tn Hc].
      change (u "poor" :: tl LEVELS) with LEVELS in Hc.
      rewrite Hc in H. discriminate H.
    + intros [_ [bl [Hbl _]]]. discriminate Hbl.
Qed.

Lemma transform_skill_Return_iff
  (client : model_client) (skill : skill_record) (r : json) :
  transform_skill client skill = Return r
  <-> candidate client skill = Return r /\ levels_ok r.
Proof.
  rewrite transform_skill_stages. split.
  - intros H. apply bind_Return_inv in H as [c [Hc Hv]].
    apply validate_Return_iff in Hv as [-> Hok]. split; assumption.
  - intros [Hc Hok]. rewrite Hc. simpl.
    apply validate_Return_iff. split; [reflexivity | exact Hok].
Qed.

(** C1. The transformation succeeds exactly when the candidate extracted
    from the model's answer holds, under each of the five canonical levels
    of its [levels] mapping, a sequence of at least two statements; the
    value returned is then that candidate, so no value below the minimum
    is ever returned as a success. *)
Theorem transform_skill_succeeds_iff
  (client : model_client) (skill : skill_record) (r : json) :
  transform_skill client skill = Return r
  <-> candidate client skill = Return r /\ levels_ok r.
Proof. exact (transform_skill_Return_iff client skill r). Qed.

(** P3 in general: exactly two statements at every level validate. *)
Lemma exactly_two_validates (result : json) (by_level : dict json) :
  levels_of result = Some by_level ->
  (forall level, In level LEVELS ->
     exists a b, dict_find by_level level = Some (JList [a; b])) ->
  validate result = Return result.
Proof.
  intros Hl Htwo. apply validate_Return_iff. split; [reflexivity |].
  exists by_level. split; [exact Hl |].
  intros level Hin. destruct (Htwo level Hin) as [a [b H]].
  exists [a; b]. split; [exact H | simpl; lia].
Qed.

(** P4 in general: one statement at a level fails, whatever the other
    levels hold, and the message names the level with the count 1. *)
Lemma one_statement_fails
  (result : json) (by_level : dict json) (level : str) (x : json) :
  levels_of result = Some by_level ->
  In level LEVELS ->
  dict_find by_level level = Some (JList [x]) ->
  exists msg,
    validate result = Raise (ValueError msg)
    /\ py_in (violation_clause level 1) msg = true.
Proof.
  intros Hl Hin Hone.
  assert (Hcount : statement_count by_level level = 1)
    by (unfold statement_count; rewrite Hone; reflexivity).
  assert (Hv : In (violation_clause level 1) (violations by_level LEVELS)).
  { unfold violations. rewrite <- Hcount.
    apply (in_map (fun l => violation_clause l (statement_count by_level l))).
    apply filter_In. split; [exact Hin | rewrite Hcount; reflexivity]. }
  rewrite (validate_mapping result by_level Hl).
  destruct (violations by_level LEVELS) as [| e0 errs] eqn:E;
    [destruct Hv |].
  eexists. split; [reflexivity |].
  unfold error_msg. apply py_in_in_join. exact Hv.
Qed.

(** P3: exactly two statements at every level validate. *)
Example two_at_every_level_validates :
  exists r,
    json_loads (Sample.skill_text "ESCOXXX" 2 2 2 2 2) = Return r
    /\ validate r = Return r.
Proof.
  eexists. split; [vm_compute; reflexivity |]. vm_compute. reflexivity.
Qed.

(** P4: one statement at a single level fails, naming the level and the
    count. *)
Example one_at_poor_fails :
  exists r,
    json_loads (Sample.skill_text "ESCOXXX" 1 2 2 2 2) = Return r
    /\ validate r
       = Raise (ValueError
           (u "Invalid skill transformation: Level " ++ q ++ u "poor" ++ q
            ++ u " must have at least 2 statements, but found 1"
            ++ u ". Please regenerate with at least 2 statements per level.")).
Proof.
  eexists. split; [vm_compute; reflexivity |]. vm_compute. reflexivity.
Qed.

(** The scenario of the specification: a fenced answer with two
    statements per level is returned. *)
Example scenario_fenced_answer :
  exists r,
    transform_skill
      (Sample.answers (json_fenced (Sample.skill_text "ESCOXXX" 2 2 2 2 2)))
      Sample.data_visualization = Return r
    /\ member "lightcast_id" r = Some (JStr (u "ESCOXXX")).
Proof.
  eexists. split; [vm_compute; reflexivity |]. vm_compute. reflexivity.
Qed.

(** C4. When validation fails, the one message lists every level that
    holds fewer than two statements, in canonical order, each with the
    count observed; a level that is absent or is not a sequence counts as
    0. *)
Theorem validation_failure_lists_every_level (result : json) (msg : str) :
  validate result = Raise (ValueError msg) ->
  exists by_level,
    levels_of result = Some by_level
    /\ msg = error_msg (violations by_level LEVELS)
    /\ forall level,
         In level LEVELS -> statement_count by_level level < 2 ->
         py_in (violation_clause level (statement_count by_level level)) msg
         = true.
Proof.
  intros H. destruct (levels_of result) as [by_level |] eqn:Hl.
  - exists by_level. split; [reflexivity |].
    rewrite (validate_mapping result by_level Hl) in H.
    destruct (violations by_level LEVELS) as [| e0 errs] eqn:Hv;
      [discriminate H |].
    injection H as <-. split; [reflexivity |].
    intros level Hin Hlt. unfold error_msg. apply py_in_in_join.
    rewrite <- Hv. unfold violations.
    apply (in_map (fun l => violation_clause l (statement_count by_level l))).
    apply filter_In. split; [exact Hin | apply N.ltb_lt; exact Hlt].
  - unfold validate in H.
    destruct (check_levels_no_mapping result Hl (u "poor") (tl LEVELS) [])
      as [tn Hc].
    change (u "poor" :: tl LEVELS) with LEVELS in Hc.
    rewrite Hc in H. discriminate H.
Qed.

(** ** The orchestrator *)

(** C10. A candidate that is valid JSON but not a mapping makes the
    transformation fail with the [AttributeError] of the [get] lookup, which
    is neither a parse failure nor a validation failure. *)
Theorem non_mapping_candidate_untyped
  (client : model_client) (skill : skill_record) (v : json) :
  candidate client skill = Return v ->
  (forall d, v <> JDict d) ->
  transform_skill client skill = Raise (AttributeError (type_name v) (u "get")).
Proof.
  intros Hc Hnd. rewrite transform_skill_stages, Hc. simpl.
  destruct v; try reflexivity.
  exfalso. exact (Hnd d eq_refl).
Qed.

(** C2, as the code has it. The value returned is the object extracted
    from the model's answer, unchanged: its [lightcast_id] is the one the
    answer carries. *)
Theorem returned_value_is_extracted_object
  (client : model_client) (skill : skill_record) (r : json) :
  transform_skill client skill = Return r ->
  exists text,
    model_text client skill = Return text
    /\ response_extractor text = Return r.
Proof.
  intros H. apply transform_skill_Return_iff in H as [Hc _].
  rewrite candidate_stages in Hc.
  apply bind_Return_inv in Hc as [text [Ht He]].
  exists text. split; assumption.
Qed.


(** Two levels below the minimum, one of them absent: both are listed,
    the absent one with count 0 (P5, P6). *)
Lemma validation_failure_lists_every_level_witness :
  let result :=
    JDict [ (u "levels",
             JDict [ (u "poor", JList [JStr (u "Misses deadlines")]);
                     (u "basic", JList [JStr (u "a"); JStr (u "b")]);
                     (u "intermediate", JList [JStr (u "a"); JStr (u "b")]);
                     (u "advanced", JList [JStr (u "a"); JStr (u "b")]) ]) ] in
  let msg :=
    u "Invalid skill transformation: Level " ++ q ++ u "poor" ++ q
    ++ u " must have at least 2 statements, but found 1; Level "
    ++ q ++ u "exceptional" ++ q
    ++ u " must have at least 2 statements, but found 0"
    ++ u ". Please regenerate with at least 2 statements per level." in
  validate result = Raise (ValueError msg)
  /\ exists by_level,
       levels_of result = Some by_level
       /\ msg = error_msg (violations by_level LEVELS)
       /\ forall level,
            In level LEVELS -> statement_count by_level level < 2 ->
            py_in (violation_clause level (statement_count by_level level)) msg
            = true.
Proof.
  intros result msg. split.
  - vm_compute. reflexivity.
  - apply (validation_failure_lists_every_level result msg).
    vm_compute. reflexivity.
Defined.

(** A JSON array as the answer: the [AttributeError] of a list. *)
Lemma non_mapping_candidate_untyped_witness :
  transform_skill (Sample.answers (u "[1, 2]")) Sample.data_visualization
  = Raise (AttributeError (u "list") (u "get")).
Proof.
  apply (non_mapping_candidate_untyped
           (Sample.answers (u "[1, 2]")) Sample.data_visualization
           (JList [JInt 1; JInt 2])).
  - vm_compute. reflexivity.
  - intros d H. discriminate H.
Defined.

(** C2 fails as stated: the answer carries another identifier than the
    skill, and the value returned keeps the answer's. *)
Lemma identifier_not_preserved :
  exists r,
    transform_skill
      (Sample.answers (Sample.skill_text "OTHER" 2 2 2 2 2))
      Sample.data_visualization = Return r
    /\ identifier Sample.data_visualization = FStr (u "ESCOXXX")
    /\ member "lightcast_id" r = Some (JStr (u "OTHER"))
    /\ member "lightcast_id" r
       <> Some (JStr (format_value (identifier Sample.data_visualization))).
Proof.
  eexists. split; [vm_compute; reflexivity |].
  split; [reflexivity |]. split; [vm_compute; reflexivity |].
  vm_compute. intros H. discriminate H.
Qed.

Lemma returned_value_is_extracted_object_witness :
  exists r,
    transform_skill
      (Sample.answers (Sample.skill_text "OTHER" 2 2 2 2 2))
      Sample.data_visualization = Return r
    /\ exists text,
         model_text
           (Sample.answers (Sample.skill_text "OTHER" 2 2 2 2 2))
           Sample.data_visualization = Return text
         /\ response_extractor text = Return r.
Proof.
  eexists. split.
  - vm_compute. reflexivity.
  - apply (returned_value_is_extracted_object
             (Sample.answers (Sample.skill_text "OTHER" 2 2 2 2 2))
             Sample.data_visualization).
    vm_compute. reflexivity.
Defined.



(** ** The prompt builder *)

Lemma format_prompt_fields (name description id : field_value) :
  py_format TRANSFORMATION_PROMPT
    [ (u "skill_name", name); (u "skill_description", description);
      (u "skill_id", id) ]
  = Return (rendered_prompt (format_value name) (format_value description)
              (format_value id)).
Proof. vm_compute. reflexivity. Qed.

(** C9, as the code has it. The prompt is a total function of the skill:
    the fixed text of the template with the name, the description and the
    identifier in their places, a missing name or identifier being empty
    and a missing description being the placeholder; a description that is
    present is substituted as it is, the empty one included. *)
Theorem build_prompt_renders (skill : skill_record) :
  build_prompt skill
  = Return
      (rendered_prompt
         (format_value (dict_get skill (u "name") (FStr [])))
         (format_value (dict_get skill (u "description") (FStr NO_DESCRIPTION)))
         (format_value (identifier skill))).
Proof.
  unfold build_prompt, identifier. exact (format_prompt_fields _ _ _).
Qed.

(** C9 fails as stated: an empty description is substituted as the empty
    text, not as the placeholder. *)
Lemma empty_description_not_replaced :
  description_or_placeholder Sample.empty_description = NO_DESCRIPTION
  /\ build_prompt Sample.empty_description
     = Return (rendered_prompt (u "Data Visualization") [] (u "ESCOXXX"))
  /\ build_prompt Sample.empty_description
     <> Return
          (rendered_prompt (u "Data Visualization")
             (description_or_placeholder Sample.empty_description)
             (u "ESCOXXX")).
Proof.
  split; [reflexivity |]. split; [vm_compute; reflexivity |].
  intros H.
  apply (f_equal (fun o => match o with
                           | Return p => N.of_nat (length p)
                           | Raise _ => 0
                           end)) in H.
  vm_compute in H. discriminate H.
Qed.

(** ** Searching and splitting *)

Lemma startswith_nil_r (p : str) : p <> [] -> startswith p [] = false.
Proof. destruct p; [congruence | reflexivity]. Qed.

Lemma startswith_prefix (p x s : str) :
  startswith (p ++ x) s = true -> startswith p s = true.
Proof.
  revert s. induction p as [| a p IH]; intros s; simpl; [reflexivity |].
  destruct s as [| b s]; [discriminate |].
  rewrite !andb_true_iff. intros [Hab H]. split; [exact Hab | exact (IH s H)].
Qed.

Lemma py_in_prefix (p x s : str) :
  py_in p s = false -> py_in (p ++ x) s = false.
Proof.
  induction s as [| b s IH]; simpl; rewrite !orb_false_iff.
  - intros [H _]. split; [| reflexivity].
    destruct (startswith (p ++ x) []) eqn:E; [| reflexivity].
    apply startswith_prefix in E. congruence.
  - intros [H1 H2]. split; [| exact (IH H2)].
    destruct (startswith (p ++ x) (b :: s)) eqn:E; [| reflexivity].
    apply startswith_prefix in E. congruence.
Qed.

(** A character that the pattern does not contain stops a match. *)
Lemma startswith_app_stop (p : str) (c : N) :
  ~ In c p -> forall s x, startswith p (s ++ c :: x) = startswith p s.
Proof.
  induction p as [| a p IH]; intros Hc s x; [destruct s; reflexivity |].
  destruct s as [| b s]; simpl.
  - destruct (N.eqb_spec a c) as [-> | _]; [| reflexivity].
    exfalso. apply Hc. left. reflexivity.
  - rewrite IH; [reflexivity |]. intros H. apply Hc. right. exact H.
Qed.

Lemma py_in_app_stop (p : str) (c : N) :
  ~ In c p -> p <> [] ->
  forall s x, py_in p (s ++ c :: x) = py_in p s || py_in p x.
Proof.
  intros Hc Hp s x. induction s as [| b s IH].
  - pose proof (startswith_app_stop p c Hc [] x) as E. simpl in E.
    simpl. rewrite E, (startswith_nil_r p Hp). reflexivity.
  - change ((b :: s) ++ c :: x) with (b :: (s ++ c :: x)).
    change (py_in p (b :: s ++ c :: x))
      with (startswith p (b :: s ++ c :: x) || py_in p (s ++ c :: x)).
    change (py_in p (b :: s)) with (startswith p (b :: s) || py_in p s).
    rewrite IH.
    change (b :: s ++ c :: x) with ((b :: s) ++ c :: x).
    rewrite (startswith_app_stop p c Hc).
    rewrite orb_assoc. reflexivity.
Qed.

Lemma partition_None_iff (sep s : str) :
  partition sep s = None <-> py_in sep s = false.
Proof.
  induction s as [| c s IH]; simpl.
  - destruct (startswith sep []); simpl; split; congruence.
  - destruct (startswith sep (c :: s)); simpl; [split; congruence |].
    rewrite <- IH. destruct (partition sep s) as [[a b] |]; split; congruence.
Qed.

Lemma skipn_length_app {A} (p s : list A) : skipn (length p) (p ++ s) = s.
Proof. induction p; simpl; auto. Qed.

Lemma partition_prefix (sep s : str) :
  partition sep (sep ++ s) = Some ([], s).
Proof.
  destruct (sep ++ s) eqn:E; simpl.
  - destruct sep; [| discriminate E]. simpl in E. subst s. reflexivity.
  - rewrite <- E, startswith_app, skipn_length_app. reflexivity.
Qed.

Lemma partition_app_stop (p : str) (c : N) :
  ~ In c p -> p <> [] ->
  forall s rest,
    py_in p s = false ->
    partition p (s ++ c :: p ++ rest) = Some (s ++ [c], rest).
Proof.
  intros Hc Hp s rest. induction s as [| b s IH]; intros Hs.
  - change ([] ++ c :: p ++ rest) with (c :: p ++ rest).
    change (partition p (c :: p ++ rest))
      with (if startswith p (c :: p ++ rest)
            then Some ([], skipn (length p) (c :: p ++ rest))
            else match partition p (p ++ rest) with
                 | Some (a, b) => Some (c :: a, b)
                 | None => None
                 end).
    pose proof (startswith_app_stop p c Hc [] (p ++ rest)) as E.
    change ([] ++ c :: p ++ rest) with (c :: p ++ rest) in E.
    rewrite E, (startswith_nil_r p Hp), partition_prefix. reflexivity.
  - change (py_in p (b :: s)) with (startswith p (b :: s) || py_in p s) in Hs.
    apply orb_false_iff in Hs as [Hs1 Hs2].
    change ((b :: s) ++ c :: p ++ rest) with (b :: (s ++ c :: p ++ rest)).
    change (partition p (b :: (s ++ c :: p ++ rest)))
      with (if startswith p (b :: (s ++ c :: p ++ rest))
            then Some ([], skipn (length p) (b :: (s ++ c :: p ++ rest)))
            else match partition p (s ++ c :: p ++ rest) with
                 | Some (a, b') => Some (b :: a, b')
                 | None => None
                 end).
    change (b :: (s ++ c :: p ++ rest)) with ((b :: s) ++ c :: p ++ rest).
    rewrite (startswith_app_stop p c Hc), Hs1, (IH Hs2). reflexivity.
Qed.

Lemma split_fuel_nonempty (fuel : nat) (sep s : str) :
  exists a rest, split_fuel fuel sep s = a :: rest.
Proof.
  destruct fuel as [| fuel]; simpl; [eauto |].
  destruct (partition sep s) as [[a b] |]; eauto.
Qed.

Lemma split_fuel_absent (fuel : nat) (sep s : str) :
  partition sep s = None -> split_fuel fuel sep s = [s].
Proof. intros H. destruct fuel; simpl; [| rewrite H]; reflexivity. Qed.

Lemma split_found (sep s a b : str) :
  s <> [] -> partition sep s = Some (a, b) ->
  split sep s = a :: split_fuel (pred (length s)) sep b.
Proof.
  intros Hs Hp. unfold split. destruct s as [| c s]; [congruence |].
  change (length (c :: s)) with (S (length s)).
  change (split_fuel (S (length s)) sep (c :: s))
    with (match partition sep (c :: s) with
          | None => [c :: s]
          | Some (a, b) => a :: split_fuel (length s) sep b
          end).
  rewrite Hp. reflexivity.
Qed.

Lemma index_split_0 (sep s : str) : exists a, index (split sep s) 0 = Return a.
Proof.
  unfold split. destruct (split_fuel_nonempty (length s) sep s) as [a [r ->]].
  exists a. reflexivity.
Qed.

Lemma index_split_1 (sep s : str) :
  sep <> [] -> py_in sep s = true ->
  exists b, index (split sep s) 1 = Return b.
Proof.
  intros Hsep Hin.
  destruct (partition sep s) as [[a b] |] eqn:Hp.
  - assert (Hs : s <> []).
    { intros ->. simpl in Hin. rewrite (startswith_nil_r sep Hsep) in Hin.
      discriminate Hin. }
    rewrite (split_found sep s a b Hs Hp).
    destruct (split_fuel_nonempty (pred (length s)) sep b) as [x [r ->]].
    exists x. reflexivity.
  - apply partition_None_iff in Hp. congruence.
Qed.

Lemma fenced_defined (opening text : str) :
  opening <> [] -> py_in opening text = true ->
  exists json_str, fenced opening text = Return json_str.
Proof.
  intros Ho Hin. unfold fenced.
  destruct (index_split_1 opening text Ho Hin) as [after ->]. simpl.
  destruct (index_split_0 FENCE after) as [inner ->]. simpl.
  eexists. reflexivity.
Qed.

(** ** The response extractor *)

Lemma no_fence_no_json_fence (s : str) :
  py_in FENCE s = false -> py_in FENCE_JSON s = false.
Proof. exact (py_in_prefix FENCE (u "json") s). Qed.

Lemma extract_json_with_json_loads (t : str) :
  extract_json_with json_loads t = extract_json t.
Proof. reflexivity. Qed.

Lemma response_extractor_with_json_loads (text : str) :
  response_extractor_with json_loads text = response_extractor text.
Proof. reflexivity. Qed.

Lemma extract_json_with_uncaught (loads : str -> outcome json) (t : str)
  (e : exn) :
  loads t = Raise e -> (forall doc, e <> JSONDecodeError doc) ->
  extract_json_with loads t = Raise e.
Proof.
  intros H He. unfold extract_json_with. rewrite H.
  destruct e as [msg | | tn attr | key | doc | msg | msg]; try reflexivity.
  exfalso. exact (He doc eq_refl).
Qed.

Lemma extract_json_with_caught (loads : str -> outcome json) (t doc : str) :
  loads t = Raise (JSONDecodeError doc) ->
  extract_json_with loads t
  = if py_in FENCE_JSON t then
      json_str <- fenced FENCE_JSON t;; loads json_str
    else if py_in FENCE t then
      json_str <- fenced FENCE t;; loads json_str
    else Raise (JSONDecodeError doc).
Proof. intros H. unfold extract_json_with. rewrite H. reflexivity. Qed.

(** C5, as the code has it, for every behaviour of [json.loads].  When
    the first attempt, on the whole trimmed text, raises an error: an
    error that is not a [JSONDecodeError] is not caught and is propagated;
    a [JSONDecodeError] is propagated when the text holds no fence; when
    the text holds a fence, the outcome is the one of [json.loads] on the
    fenced content, so a failure is then the failure of that later
    attempt. *)
Theorem extraction_failure (loads : str -> outcome json) (text : str)
  (e : exn) :
  loads (strip text) = Raise e ->
  ((forall doc, e <> JSONDecodeError doc) ->
   response_extractor_with loads text = Raise e)
  /\ (py_in FENCE (strip text) = false ->
      response_extractor_with loads text = Raise e)
  /\ ((exists doc, e = JSONDecodeError doc) ->
      py_in FENCE (strip text) = true ->
      exists json_str,
        fenced (if py_in FENCE_JSON (strip text) then FENCE_JSON else FENCE)
          (strip text) = Return json_str
        /\ response_extractor_with loads text = loads json_str).
Proof.
  intros Hl. unfold response_extractor_with.
  split; [exact (extract_json_with_uncaught loads _ e Hl) |]. split.
  - intros Hf. destruct e;
      try (apply (extract_json_with_uncaught loads _ _ Hl); discriminate).
    rewrite (extract_json_with_caught loads _ _ Hl).
    rewrite (no_fence_no_json_fence (strip text) Hf), Hf. reflexivity.
  - intros [doc ->] Hf.
    rewrite (extract_json_with_caught loads _ _ Hl).
    destruct (py_in FENCE_JSON (strip text)) eqn:Hj.
    + destruct (fenced_defined FENCE_JSON (strip text)) as [json_str Hs];
        [discriminate | exact Hj |].
      exists json_str. rewrite Hs. split; reflexivity.
    + rewrite Hf.
      destruct (fenced_defined FENCE (strip text)) as [json_str Hs];
        [discriminate | exact Hf |].
      exists json_str. rewrite Hs. split; reflexivity.
Qed.

(** Text with no JSON and no fence: the first failure is propagated
    (P2). *)
Lemma extraction_failure_witness :
  response_extractor_with json_loads (u " no json here ")
  = Raise (JSONDecodeError (u "no json here")).
Proof.
  assert (H : json_loads (strip (u " no json here "))
              = Raise (JSONDecodeError (u "no json here")))
    by (vm_compute; reflexivity).
  destruct (extraction_failure json_loads (u " no json here ")
              (JSONDecodeError (u "no json here")) H) as [_ [Hno _]].
  apply Hno. vm_compute. reflexivity.
Defined.

(** C5 fails as stated: with a fence around text that is not JSON, every
    attempt fails and the failure raised is the one of the fenced content,
    not the one of the whole text. *)
Lemma later_failure_propagated :
  PyJson.loads (strip (json_fenced (u "not json"))) = None
  /\ response_extractor (json_fenced (u "not json"))
     = Raise (JSONDecodeError (u "not json"))
  /\ response_extractor (json_fenced (u "not json"))
     <> Raise (JSONDecodeError (strip (json_fenced (u "not json")))).
Proof.
  split; [vm_compute; reflexivity |]. split; [vm_compute; reflexivity |].
  vm_compute. intros H. discriminate H.
Qed.

(** ** Trimming *)

Lemma lstrip_app (s w : str) :
  lstrip (s ++ w)
  = match lstrip s with
    | [] => lstrip w
    | c :: r => (c :: r) ++ w
    end.
Proof.
  induction s as [| c s IH]; simpl.
  - destruct (lstrip w); reflexivity.
  - destruct (isspace c); [exact IH | reflexivity].
Qed.

Lemma rstrip_snoc_space (s : str) (c : N) :
  isspace c = true -> rstrip (s ++ [c]) = rstrip s.
Proof.
  intros Hc. unfold rstrip. rewrite rev_unit. simpl. rewrite Hc. reflexivity.
Qed.

Lemma rstrip_snoc_other (s : str) (c : N) :
  isspace c = false -> rstrip (s ++ [c]) = s ++ [c].
Proof.
  intros Hc. unfold rstrip. rewrite rev_unit. simpl. rewrite Hc.
  simpl. rewrite rev_involutive. reflexivity.
Qed.

(** A newline on either side does not change the trimmed text. *)
Lemma strip_between_newlines (t : str) : strip (NL :: t ++ [NL]) = strip t.
Proof.
  unfold strip. change (lstrip (NL :: t ++ [NL])) with (lstrip (t ++ [NL])).
  rewrite lstrip_app. destruct (lstrip t) as [| c r]; [reflexivity |].
  apply rstrip_snoc_space. reflexivity.
Qed.

(** A text between two backticks is its own trim. *)
Lemma strip_between_backticks (s : str) :
  strip (96 :: s ++ [96]) = 96 :: s ++ [96].
Proof.
  unfold strip. change (lstrip (96 :: s ++ [96])) with (96 :: s ++ [96]).
  apply (rstrip_snoc_other (96 :: s) 96). reflexivity.
Qed.

(** No JSON text begins with a backtick. *)
Lemma loads_backtick (s : str) : PyJson.loads (96 :: s) = None.
Proof. reflexivity. Qed.

Lemma fence_stop : ~ In NL FENCE.
Proof. vm_compute. intuition discriminate. Qed.

Lemma fence_json_stop : ~ In NL FENCE_JSON.
Proof. vm_compute. intuition discriminate. Qed.

Lemma split_fuel_found (fuel : nat) (sep s a b : str) :
  partition sep s = Some (a, b) ->
  split_fuel (S fuel) sep s = a :: split_fuel fuel sep b.
Proof. intros H. simpl. rewrite H. reflexivity. Qed.

Lemma split_absent (sep s : str) : py_in sep s = false -> split sep s = [s].
Proof.
  intros H. apply split_fuel_absent. apply partition_None_iff. exact H.
Qed.

Lemma py_in_after_newline (p s : str) :
  ~ In NL p -> p <> [] -> py_in p (NL :: s) = py_in p s.
Proof.
  intros Hstop Hp.
  pose proof (py_in_app_stop p NL Hstop Hp [] s) as E.
  change ([] ++ NL :: s) with (NL :: s) in E.
  rewrite E. simpl. rewrite (startswith_nil_r p Hp). reflexivity.
Qed.

Lemma py_in_before_newline (p s : str) :
  ~ In NL p -> p <> [] -> py_in p (s ++ [NL]) = py_in p s.
Proof.
  intros Hstop Hp. rewrite (py_in_app_stop p NL Hstop Hp s []).
  simpl. rewrite (startswith_nil_r p Hp), orb_false_r. reflexivity.
Qed.

(** The closing fence is the first fence after a text that holds none. *)
Lemma partition_closing_fence (t : str) :
  py_in FENCE t = false ->
  partition FENCE (NL :: t ++ NL :: FENCE) = Some (NL :: t ++ [NL], []).
Proof.
  intros Hft.
  pose proof (partition_app_stop FENCE NL fence_stop) as P.
  specialize (P ltac:(discriminate) (NL :: t) []).
  rewrite app_nil_r in P. apply P.
  rewrite (py_in_after_newline FENCE t fence_stop); [exact Hft | discriminate].
Qed.

(** The content of a block tagged [json] whose text holds no fence. *)
Lemma fenced_json_content (t : str) :
  py_in FENCE t = false ->
  fenced FENCE_JSON (json_fenced t) = Return (strip t).
Proof.
  intros Hft. unfold fenced, json_fenced.
  assert (Hafter : py_in FENCE_JSON (NL :: t ++ NL :: FENCE) = false).
  { rewrite (py_in_after_newline FENCE_JSON _ fence_json_stop);
      [| discriminate].
    rewrite (py_in_app_stop FENCE_JSON NL fence_json_stop
               ltac:(discriminate) t FENCE).
    rewrite (no_fence_no_json_fence t Hft). reflexivity. }
  apply partition_None_iff in Hafter.
  rewrite (split_found FENCE_JSON (FENCE_JSON ++ [NL] ++ t ++ [NL] ++ FENCE)
             [] (NL :: t ++ NL :: FENCE));
    [| discriminate
     | apply (partition_prefix FENCE_JSON ([NL] ++ t ++ [NL] ++ FENCE))].
  rewrite (split_fuel_absent _ FENCE_JSON _ Hafter).
  change (index [[]; NL :: t ++ NL :: FENCE] 1)
    with (Return (NL :: t ++ NL :: FENCE)).
  change (bind (Return (NL :: t ++ NL :: FENCE))
            (fun after => bind (index (split FENCE after) 0)
                            (fun inner => Return (strip inner))))
    with (bind (index (split FENCE (NL :: t ++ NL :: FENCE)) 0)
            (fun inner => Return (strip inner))).
  rewrite (split_found FENCE (NL :: t ++ NL :: FENCE) _ _
             ltac:(discriminate) (partition_closing_fence t Hft)).
  simpl. rewrite strip_between_newlines. reflexivity.
Qed.

(** The content of an untagged block whose text holds no fence. *)
Lemma fenced_plain_content (t : str) :
  py_in FENCE t = false ->
  fenced FENCE (plain_fenced t) = Return (strip t).
Proof.
  intros Hft. unfold fenced, plain_fenced.
  rewrite (split_found FENCE (FENCE ++ [NL] ++ t ++ [NL] ++ FENCE)
             [] (NL :: t ++ NL :: FENCE));
    [| discriminate
     | apply (partition_prefix FENCE ([NL] ++ t ++ [NL] ++ FENCE))].
  change (pred (length (FENCE ++ [NL] ++ t ++ [NL] ++ FENCE)))
    with (S (S (S (length (t ++ [NL] ++ FENCE))))).
  rewrite (split_fuel_found _ FENCE _ _ _ (partition_closing_fence t Hft)).
  change (index ([] :: (NL :: t ++ [NL]) :: split_fuel
                   (S (S (length (t ++ [NL] ++ FENCE)))) FENCE []) 1)
    with (Return (NL :: t ++ [NL])).
  change (bind (Return (NL :: t ++ [NL]))
            (fun after => bind (index (split FENCE after) 0)
                            (fun inner => Return (strip inner))))
    with (bind (index (split FENCE (NL :: t ++ [NL])) 0)
            (fun inner => Return (strip inner))).
  rewrite (split_absent FENCE (NL :: t ++ [NL])).
  - simpl. rewrite strip_between_newlines. reflexivity.
  - rewrite (py_in_after_newline FENCE _ fence_stop); [| discriminate].
    rewrite (py_in_before_newline FENCE _ fence_stop); [| discriminate].
    exact Hft.
Qed.

Lemma strip_json_fenced (t : str) : strip (json_fenced t) = json_fenced t.
Proof.
  unfold json_fenced.
  replace (FENCE_JSON ++ [NL] ++ t ++ [NL] ++ FENCE)
    with (96 :: (u "``json" ++ [NL] ++ t ++ [NL] ++ u "``") ++ [96])
    by (simpl; repeat rewrite <- app_assoc; reflexivity).
  apply strip_between_backticks.
Qed.

Lemma strip_plain_fenced (t : str) : strip (plain_fenced t) = plain_fenced t.
Proof.
  unfold plain_fenced.
  replace (FENCE ++ [NL] ++ t ++ [NL] ++ FENCE)
    with (96 :: (u "``" ++ [NL] ++ t ++ [NL] ++ u "``") ++ [96])
    by (simpl; repeat rewrite <- app_assoc; reflexivity).
  apply strip_between_backticks.
Qed.

(** The first attempt on a text that begins with a backtick fails; what
    the extractor does next. *)
Lemma extract_json_backtick (s : str) :
  extract_json (96 :: s)
  = if py_in FENCE_JSON (96 :: s)
    then bind (fenced FENCE_JSON (96 :: s)) json_loads
    else if py_in FENCE (96 :: s)
         then bind (fenced FENCE (96 :: s)) json_loads
         else Raise (JSONDecodeError (96 :: s)).
Proof. reflexivity. Qed.

(** C3, as the code has it. For a JSON text whose trim parses to [j] and
    which holds no run of three backticks, the extractor yields [j] for the
    bare text, for the text in a fenced block tagged [json] and for the
    text in an untagged fenced block. *)
Theorem extraction_tiers_agree (t : str) (j : json) :
  PyJson.loads (strip t) = Some j ->
  py_in FENCE t = false ->
  response_extractor t = Return j
  /\ response_extractor (json_fenced t) = Return j
  /\ response_extractor (plain_fenced t) = Return j.
Proof.
  intros Hj Hft. unfold response_extractor.
  assert (Hloads : json_loads (strip t) = Return j).
  { unfold json_loads. rewrite Hj. reflexivity. }
  split; [| split].
  - unfold extract_json. rewrite Hloads. reflexivity.
  - rewrite strip_json_fenced.
    change (json_fenced t) with (96 :: skipn 1 (json_fenced t)) at 1.
    rewrite extract_json_backtick.
    change (96 :: skipn 1 (json_fenced t)) with (json_fenced t).
    change (py_in FENCE_JSON (json_fenced t)) with true. cbv iota.
    rewrite (fenced_json_content t Hft). exact Hloads.
  - rewrite strip_plain_fenced.
    change (plain_fenced t) with (96 :: skipn 1 (plain_fenced t)) at 1.
    rewrite extract_json_backtick.
    change (96 :: skipn 1 (plain_fenced t)) with (plain_fenced t).
    assert (Hnj : py_in FENCE_JSON (plain_fenced t) = false).
    { unfold plain_fenced.
      change (FENCE ++ [NL] ++ t ++ [NL] ++ FENCE)
        with (FENCE ++ NL :: t ++ NL :: FENCE).
      rewrite (py_in_app_stop FENCE_JSON NL fence_json_stop
                 ltac:(discriminate) FENCE (t ++ NL :: FENCE)).
      rewrite (py_in_app_stop FENCE_JSON NL fence_json_stop
                 ltac:(discriminate) t FENCE).
      rewrite (no_fence_no_json_fence t Hft). reflexivity. }
    rewrite Hnj.
    change (py_in FENCE (plain_fenced t)) with true. cbv iota.
    rewrite (fenced_plain_content t Hft). exact Hloads.
Qed.

Lemma extraction_tiers_agree_witness :
  exists j,
    PyJson.loads (strip (Sample.skill_text "ESCOXXX" 2 2 2 2 2)) = Some j
    /\ py_in FENCE (Sample.skill_text "ESCOXXX" 2 2 2 2 2) = false
    /\ response_extractor (Sample.skill_text "ESCOXXX" 2 2 2 2 2) = Return j
    /\ response_extractor (json_fenced (Sample.skill_text "ESCOXXX" 2 2 2 2 2))
       = Return j
    /\ response_extractor (plain_fenced (Sample.skill_text "ESCOXXX" 2 2 2 2 2))
       = Return j.
Proof.
  eexists. split; [vm_compute; reflexivity |].
  split; [vm_compute; reflexivity |].
  apply (extraction_tiers_agree (Sample.skill_text "ESCOXXX" 2 2 2 2 2)).
  - vm_compute. reflexivity.
  - vm_compute. reflexivity.
Defined.

(** C3 fails as stated: a JSON object with three backticks in a string
    is extracted from its bare text, and its fenced block is cut at those
    backticks and fails to parse. *)
Lemma backticks_break_the_fence :
  response_extractor Sample.backticks_text
  = Return (JDict [(u "a", JStr FENCE)])
  /\ response_extractor (json_fenced Sample.backticks_text)
     = Raise (JSONDecodeError (u "{" ++ q ++ u "a" ++ q ++ u ": " ++ q))
  /\ response_extractor (plain_fenced Sample.backticks_text)
     = Raise (JSONDecodeError (u "{" ++ q ++ u "a" ++ q ++ u ": " ++ q)).
Proof.
  split; [vm_compute; reflexivity |].
  split; vm_compute; reflexivity.
Qed.

(** * The codec *)

#[local] Arguments is_digit : simpl never.

(** ** Checking a property of every number below a bound *)

Lemma all_below_spec (bound : N) (f : N -> bool) :
  all_below bound f = true -> forall n, n < bound -> f n = true.
Proof.
  unfold all_below.
  pose (P := fun (k : N) (st : N * bool) =>
               fst st = k /\ (snd st = true -> forall n, n < k -> f n = true)).
  assert (H : P bound (N.iter bound
                         (fun st => (fst st + 1, snd st && f (fst st)))
                         (0, true))).
  { apply N.iter_ind; unfold P; simpl.
    - split; [reflexivity |]. intros _ n Hn. lia.
    - intros k [i ok] [Hi Hok]. simpl in *. subst i. split; [lia |].
      intros Hb n Hn. apply andb_true_iff in Hb as [Hb1 Hb2].
      destruct (N.eq_dec n k) as [-> | Hne]; [exact Hb2 |].
      apply Hok; [exact Hb1 | lia]. }
  destruct H as [_ H]. exact H.
Qed.

Lemma u_escape_hex4 (n : N) :
  n < 65536 ->
  hex4 (hexdigit (n / 4096)) (hexdigit ((n / 256) mod 16))
    (hexdigit ((n / 16) mod 16)) (hexdigit (n mod 16)) = Some n.
Proof.
  intros Hn.
  assert (H : u_escape_reads_back n = true).
  { apply (all_below_spec 65536 u_escape_reads_back);
      [vm_compute; reflexivity | exact Hn]. }
  unfold u_escape_reads_back, u_escape in H.
  apply andb_true_iff in H as [_ H].
  destruct (hex4 _ _ _ _) as [m |]; [| discriminate H].
  apply N.eqb_eq in H. subst m. reflexivity.
Qed.

Lemma lor_high_base (a : N) : a < 1024 -> N.lor 55296 (N.land a 1023) = 55296 + a.
Proof.
  intros Ha. apply N.eqb_eq. change (lor_high_check a = true).
  apply (all_below_spec 1024 lor_high_check); [vm_compute; reflexivity | exact Ha].
Qed.

Lemma lor_low_base (b : N) : b < 1024 -> N.lor 56320 b = 56320 + b.
Proof.
  intros Hb. apply N.eqb_eq. change (lor_low_check b = true).
  apply (all_below_spec 1024 lor_low_check); [vm_compute; reflexivity | exact Hb].
Qed.

Lemma shiftr_10_bound (n : N) : n < 1048576 -> N.shiftr n 10 < 1024.
Proof.
  intros Hn. rewrite N.shiftr_div_pow2.
  apply N.Div0.div_lt_upper_bound. exact Hn.
Qed.

Lemma land_1023_bound (n : N) : N.land n 1023 < 1024.
Proof.
  change 1023 with (N.ones 10). rewrite N.land_ones.
  apply N.mod_lt. discriminate.
Qed.

Lemma halves_join (n : N) :
  N.lor (N.shiftl (N.shiftr n 10) 10) (N.land n 1023) = n.
Proof.
  change 1023 with (N.ones 10).
  rewrite <- N.ldiff_ones_r. apply N.lor_ldiff_and.
Qed.

Lemma high_half_eq (c : N) :
  65536 <= c -> c < 1114112 -> high_half c = 55296 + N.shiftr (c - 65536) 10.
Proof.
  intros H1 H2. unfold high_half.
  rewrite <- (lor_high_base (N.shiftr (c - 65536) 10)).
  - reflexivity.
  - apply shiftr_10_bound. lia.
Qed.

Lemma low_half_eq (c : N) : low_half c = 56320 + N.land (c - 65536) 1023.
Proof. unfold low_half. apply lor_low_base. apply land_1023_bound. Qed.

Lemma pair_reads_back (c : N) :
  65536 <= c -> c < 1114112 ->
  is_high_surrogate (high_half c) = true
  /\ is_low_surrogate (low_half c) = true
  /\ join_surrogates (high_half c) (low_half c) = c.
Proof.
  intros H1 H2.
  pose proof (shiftr_10_bound (c - 65536) ltac:(lia)) as Ha.
  pose proof (land_1023_bound (c - 65536)) as Hb.
  rewrite (high_half_eq c H1 H2), low_half_eq.
  unfold is_high_surrogate, is_low_surrogate, join_surrogates.
  repeat split.
  - apply andb_true_iff. split; apply N.leb_le; lia.
  - apply andb_true_iff. split; apply N.leb_le; lia.
  - replace (55296 + N.shiftr (c - 65536) 10 - 55296)
      with (N.shiftr (c - 65536) 10) by lia.
    replace (56320 + N.land (c - 65536) 1023 - 56320)
      with (N.land (c - 65536) 1023) by lia.
    rewrite halves_join. lia.
Qed.

(** ** Strings read back *)

Lemma scanstring_plain (c : N) (x acc : str) :
  (c =? 34) = false -> (c =? 92) = false -> (c <? 32) = false ->
  scanstring (c :: x) acc = scanstring x (c :: acc).
Proof. intros H1 H2 H3. simpl. rewrite H1, H2, H3. reflexivity. Qed.

Lemma scanstring_backslash (e ch : N) (x acc : str) :
  (e =? 117) = false -> backslash e = Some ch ->
  scanstring (92 :: e :: x) acc = scanstring x (ch :: acc).
Proof. intros H1 H2. simpl. rewrite H1, H2. reflexivity. Qed.

Lemma scanstring_escape (h1 h2 h3 h4 uni : N) (x acc : str) :
  hex4 h1 h2 h3 h4 = Some uni ->
  (is_high_surrogate uni = true -> safe_after_high x = true) ->
  scanstring (92 :: 117 :: h1 :: h2 :: h3 :: h4 :: x) acc
  = scanstring x (uni :: acc).
Proof.
  intros Hh Hsafe. simpl. rewrite Hh.
  destruct (is_high_surrogate uni); [| reflexivity].
  specialize (Hsafe eq_refl). unfold safe_after_high in Hsafe.
  destruct x as [| b [| e t]]; try reflexivity.
  destruct ((b =? 92) && (e =? 117)); [| reflexivity].
  destruct t as [| l1 [| l2 [| l3 [| l4 t]]]]; try discriminate Hsafe.
  destruct (hex4 l1 l2 l3 l4) as [uni2 |]; [| discriminate Hsafe].
  destruct (is_low_surrogate uni2); [discriminate Hsafe | reflexivity].
Qed.

Lemma scanstring_pair (h1 h2 h3 h4 l1 l2 l3 l4 hi lo : N) (x acc : str) :
  hex4 h1 h2 h3 h4 = Some hi -> is_high_surrogate hi = true ->
  hex4 l1 l2 l3 l4 = Some lo -> is_low_surrogate lo = true ->
  scanstring (92 :: 117 :: h1 :: h2 :: h3 :: h4
              :: 92 :: 117 :: l1 :: l2 :: l3 :: l4 :: x) acc
  = scanstring x (join_surrogates hi lo :: acc).
Proof.
  intros Hh Hhi Hl Hlo. simpl. rewrite Hh, Hhi, Hl, Hlo. reflexivity.
Qed.

Lemma high_is_code_unit (c : N) : is_high_surrogate c = true -> c < 65536.
Proof.
  unfold is_high_surrogate. rewrite andb_true_iff, !N.leb_le. lia.
Qed.

Lemma low_is_code_unit (c : N) : is_low_surrogate c = true -> c < 65536.
Proof.
  unfold is_low_surrogate. rewrite andb_true_iff, !N.leb_le. lia.
Qed.

Lemma high_is_not_low (c : N) :
  is_high_surrogate c = true -> is_low_surrogate c = false.
Proof.
  unfold is_high_surrogate, is_low_surrogate.
  rewrite andb_true_iff, andb_false_iff, !N.leb_le, !N.leb_gt. lia.
Qed.

Lemma encode_char_class (c : N) : c < 1114112 -> encoding_of c (encode_char c).
Proof.
  intros Hc. unfold encode_char.
  destruct (N.eqb_spec c 34) as [-> | H34]; [apply (enc_backslash 34 34); reflexivity |].
  destruct (N.eqb_spec c 92) as [-> | H92]; [apply (enc_backslash 92 92); reflexivity |].
  destruct (N.eqb_spec c 10) as [-> | H10]; [apply (enc_backslash 10 110); reflexivity |].
  destruct (N.eqb_spec c 13) as [-> | H13]; [apply (enc_backslash 13 114); reflexivity |].
  destruct (N.eqb_spec c 9) as [-> | H9]; [apply (enc_backslash 9 116); reflexivity |].
  destruct (N.eqb_spec c 8) as [-> | H8]; [apply (enc_backslash 8 98); reflexivity |].
  destruct (N.eqb_spec c 12) as [-> | H12]; [apply (enc_backslash 12 102); reflexivity |].
  destruct ((32 <=? c) && (c <=? 126)) eqn:Hp.
  - apply andb_true_iff in Hp as [Hp1 Hp2]. apply N.leb_le in Hp1.
    apply enc_plain.
    + apply N.eqb_neq. exact H34.
    + apply N.eqb_neq. exact H92.
    + apply N.ltb_ge. exact Hp1.
  - destruct (N.ltb_spec c 65536) as [Hlt | Hge].
    + apply enc_escape. exact Hlt.
    + apply (enc_pair c Hge Hc).
Qed.

Lemma encoding_reads_back (c : N) (e x acc : str) :
  encoding_of c e ->
  (is_high_surrogate c = true -> safe_after_high x = true) ->
  scanstring (e ++ x) acc = scanstring x (c :: acc).
Proof.
  intros He Hsafe. destruct He as [e0 H1 H2 | H1 H2 H3 | Hc | Hge Hc].
  - apply scanstring_backslash; assumption.
  - apply scanstring_plain; assumption.
  - apply scanstring_escape; [apply u_escape_hex4; exact Hc | exact Hsafe].
  - destruct (pair_reads_back c Hge Hc) as [Hhi [Hlo Hjoin]].
    transitivity
      (scanstring x (join_surrogates (high_half c) (low_half c) :: acc));
      [| rewrite Hjoin; reflexivity].
    unfold u_escape. cbn [app].
    apply scanstring_pair.
    + apply u_escape_hex4. apply high_is_code_unit. exact Hhi.
    + exact Hhi.
    + apply u_escape_hex4. apply low_is_code_unit. exact Hlo.
    + exact Hlo.
Qed.

Lemma encoding_safe_after_high (c : N) (e x : str) :
  encoding_of c e -> is_low_surrogate c = false ->
  safe_after_high (e ++ x) = true.
Proof.
  intros He Hlow. destruct He as [e0 H1 H2 | H1 H2 H3 | Hc | Hge Hc].
  - simpl. rewrite H1. reflexivity.
  - simpl. destruct x as [| b t]; [reflexivity |]. rewrite H2. reflexivity.
  - unfold u_escape. simpl. rewrite (u_escape_hex4 c Hc), Hlow. reflexivity.
  - destruct (pair_reads_back c Hge Hc) as [Hhi [Hlo Hjoin]].
    unfold u_escape. simpl.
    rewrite (u_escape_hex4 _ (high_is_code_unit _ Hhi)).
    rewrite (high_is_not_low _ Hhi). reflexivity.
Qed.

Lemma quote_safe_after_high (rest : str) : safe_after_high (34 :: rest) = true.
Proof. destruct rest; reflexivity. Qed.

Lemma str_ok_tail (c : N) (s : str) : str_ok (c :: s) -> str_ok s.
Proof.
  intros [Hall Hp]. split.
  - inversion Hall. assumption.
  - destruct s as [| b s]; [reflexivity |].
    simpl in Hp. apply andb_true_iff in Hp as [_ Hp]. exact Hp.
Qed.

Lemma scanstring_encoded (s : str) :
  str_ok s ->
  forall rest acc,
    scanstring (flat_map encode_char s ++ 34 :: rest) acc
    = Some (rev acc ++ s, rest).
Proof.
  induction s as [| c s IH]; intros Hok rest acc.
  - simpl. rewrite app_nil_r. reflexivity.
  - pose proof (str_ok_tail c s Hok) as Hs.
    destruct Hok as [Hall Hp].
    assert (Hc : c < 1114112) by (inversion Hall; assumption).
    change (flat_map encode_char (c :: s))
      with (encode_char c ++ flat_map encode_char s).
    rewrite <- app_assoc.
    rewrite (encoding_reads_back c _ _ acc (encode_char_class c Hc)).
    + rewrite (IH Hs). simpl. rewrite <- app_assoc. reflexivity.
    + intros Hhi. destruct s as [| b s].
      * apply quote_safe_after_high.
      * change (flat_map encode_char (b :: s))
          with (encode_char b ++ flat_map encode_char s).
        rewrite <- app_assoc. apply (encoding_safe_after_high b).
        -- apply encode_char_class. destruct Hs as [Hb _].
           inversion Hb. assumption.
        -- simpl in Hp. apply andb_true_iff in Hp as [Hp _].
           rewrite Hhi in Hp. simpl in Hp.
           destruct (is_low_surrogate b); [discriminate Hp | reflexivity].
Qed.

(** ** Numbers read back *)

Lemma uint_of_digits_of_uint (d : Decimal.uint) :
  uint_of_digits (digits_of_uint d) = d.
Proof. induction d; simpl; rewrite ?IHd; reflexivity. Qed.

Lemma digits_of_uint_digits (d : Decimal.uint) :
  forallb is_digit (digits_of_uint d) = true.
Proof. induction d; simpl; rewrite ?IHd; reflexivity. Qed.

Lemma span_digits_app (ds x : str) :
  forallb is_digit ds = true -> no_digit_ahead x ->
  span_digits (ds ++ x) = (ds, x).
Proof.
  intros Hds Hx. induction ds as [| c ds IH]; simpl.
  - destruct x as [| b x]; [reflexivity |]. simpl in *. rewrite Hx. reflexivity.
  - simpl in Hds. apply andb_true_iff in Hds as [Hc Hds].
    rewrite Hc, (IH Hds). reflexivity.
Qed.

Lemma nzhead_not_D0 (d d' : Decimal.uint) : Decimal.nzhead d <> Decimal.D0 d'.
Proof. induction d; simpl; try discriminate. exact IHd. Qed.

(** The decimal writing of a positive number begins with a digit that is
    not a zero. *)
Lemma str_of_pos_head (p : positive) :
  exists c ds,
    str_of_N (Npos p) = c :: ds
    /\ (c =? 48) = false /\ is_digit c = true /\ forallb is_digit ds = true.
Proof.
  unfold str_of_N.
  pose proof (digits_of_uint_digits (N.to_uint (Npos p))) as Hd.
  assert (Hn : Decimal.unorm (Pos.to_uint p) = Pos.to_uint p).
  { rewrite <- DecimalPos.Unsigned.to_of, DecimalPos.Unsigned.of_to.
    reflexivity. }
  pose proof (DecimalPos.Unsigned.to_uint_nonzero p) as Hz.
  pose proof (DecimalPos.Unsigned.to_uint_nonnil p) as Hnil.
  change (N.to_uint (Npos p)) with (Pos.to_uint p) in *.
  destruct (Pos.to_uint p) as [| u | u | u | u | u | u | u | u | u | u];
    try congruence;
    try (simpl in *; eexists; eexists; split; [reflexivity |];
         split; [reflexivity | split; [reflexivity | exact Hd]]).
  exfalso. unfold Decimal.unorm in Hn. simpl in Hn.
  destruct (Decimal.nzhead u) eqn:E;
    try (injection Hn as Hn; subst u; apply Hz; reflexivity);
    try discriminate Hn.
  exact (nzhead_not_D0 u u0 E).
Qed.

Lemma delimited_no_digit (rest : str) : delimited rest -> no_digit_ahead rest.
Proof.
  destruct rest as [| c rest]; simpl; [trivial |].
  intros [-> | ->]; reflexivity.
Qed.

Lemma match_frac_delimited (rest : str) :
  delimited rest -> match_frac rest = ([], rest).
Proof.
  destruct rest as [| c rest]; simpl; [reflexivity |].
  intros [-> | ->]; reflexivity.
Qed.

Lemma match_exp_delimited (rest : str) :
  delimited rest -> match_exp rest = ([], rest).
Proof.
  destruct rest as [| c rest]; simpl; [reflexivity |].
  intros [-> | ->]; reflexivity.
Qed.

Lemma match_integer_N (n : N) (rest : str) :
  no_digit_ahead rest ->
  match_integer (str_of_N n ++ rest) = Some (str_of_N n, rest).
Proof.
  intros Hrest. destruct n as [| p].
  - reflexivity.
  - destruct (str_of_pos_head p) as [c [ds [E [Hc0 [Hc Hds]]]]].
    rewrite E. simpl. rewrite Hc0, Hc, (span_digits_app ds rest Hds Hrest).
    reflexivity.
Qed.

Lemma int_of_literal_N (n : N) : int_of_literal false (str_of_N n) = Z.of_N n.
Proof.
  unfold int_of_literal, str_of_N.
  rewrite uint_of_digits_of_uint, DecimalN.Unsigned.of_to. reflexivity.
Qed.

Lemma int_of_literal_neg (p : positive) :
  int_of_literal true (str_of_N (Npos p)) = Zneg p.
Proof.
  unfold int_of_literal, str_of_N.
  rewrite uint_of_digits_of_uint, DecimalN.Unsigned.of_to. reflexivity.
Qed.

Lemma str_of_N_head_not_minus (n : N) (rest : str) :
  exists c t, str_of_N n ++ rest = c :: t /\ (c =? 45) = false
              /\ is_digit c = true.
Proof.
  destruct n as [| p].
  - exists 48, rest. repeat split.
  - destruct (str_of_pos_head p) as [c [ds [E [_ [Hc _]]]]].
    exists c, (ds ++ rest). rewrite E. repeat split; [| exact Hc].
    unfold is_digit in Hc. apply andb_true_iff in Hc as [H1 H2].
    apply N.leb_le in H1. apply N.eqb_neq. lia.
Qed.

Lemma match_number_int (z : Z) (rest : str) :
  delimited rest ->
  match_number (str_of_Z z ++ rest) = Some (JInt z, rest).
Proof.
  intros Hrest.
  pose proof (delimited_no_digit rest Hrest) as Hnd.
  assert (Hpos : forall n,
             match_number (str_of_N n ++ rest) = Some (JInt (Z.of_N n), rest)).
  { intros n. unfold match_number.
    destruct (str_of_N_head_not_minus n rest) as [c [t [E [Hc _]]]].
    rewrite E, Hc, <- E, (match_integer_N n rest Hnd).
    rewrite (match_frac_delimited rest Hrest), (match_exp_delimited rest Hrest).
    rewrite int_of_literal_N. reflexivity. }
  destruct z as [| p | p].
  - exact (Hpos 0).
  - exact (Hpos (Npos p)).
  - unfold str_of_Z, match_number.
    change ((45 :: str_of_N (N.pos p)) ++ rest)
      with (45 :: (str_of_N (N.pos p) ++ rest)).
    cbv iota beta. change (45 =? 45) with true. cbv iota.
    rewrite (match_integer_N (Npos p) rest Hnd).
    rewrite (match_frac_delimited rest Hrest), (match_exp_delimited rest Hrest).
    rewrite int_of_literal_neg. reflexivity.
Qed.

(** ** Induction on JSON values *)

Lemma json_induction (P : json -> Prop) :
  P JNull ->
  (forall b, P (JBool b)) ->
  (forall z, P (JInt z)) ->
  (forall lit, P (JFloat lit)) ->
  (forall s, P (JStr s)) ->
  (forall items, Forall P items -> P (JList items)) ->
  (forall d, Forall (fun kv => P (snd kv)) d -> P (JDict d)) ->
  forall v, P v.
Proof.
  intros Hnull Hbool Hint Hfloat Hstr Hlist Hdict.
  fix IH 1. intros [| b | z | lit | s | items | d].
  - exact Hnull.
  - apply Hbool.
  - apply Hint.
  - apply Hfloat.
  - apply Hstr.
  - apply Hlist. induction items as [| x items IHitems].
    + constructor.
    + constructor; [apply IH | exact IHitems].
  - apply Hdict. induction d as [| [k x] d IHd].
    + constructor.
    + constructor; [apply IH | exact IHd].
Qed.

(** ** Whitespace *)

Lemma skip_ws_spaces (n : nat) (x : str) : skip_ws (repeat 32 n ++ x) = skip_ws x.
Proof. induction n as [| n IH]; simpl; [reflexivity | exact IH]. Qed.

Lemma skip_ws_indent (level : nat) (x : str) :
  skip_ws (newline_indent level ++ x) = skip_ws x.
Proof. unfold newline_indent. simpl. apply skip_ws_spaces. Qed.

Lemma skip_ws_stop (c : N) (x : str) :
  is_ws c = false -> skip_ws (c :: x) = c :: x.
Proof. intros H. simpl. rewrite H. reflexivity. Qed.

(** ** The first character of an encoded value *)

Lemma scan_once_value_start (fuel : nat) (c : N) (t : str) (r : json * str) :
  scan_once fuel (c :: t) = Some r -> value_start c.
Proof.
  intros H. destruct fuel as [| f]; [discriminate H |].
  unfold value_start.
  destruct (is_ws c) eqn:Hws.
  - exfalso. unfold is_ws in Hws.
    repeat (apply orb_true_iff in Hws as [Hws | Hws]);
      apply N.eqb_eq in Hws; subst c; discriminate H.
  - destruct (N.eqb_spec c 93) as [-> | _]; [discriminate H |].
    destruct (N.eqb_spec c 65279) as [-> | _]; [discriminate H |].
    repeat split.
Qed.

Lemma float_literal_head (lit : str) :
  float_literal lit -> exists c t, lit = c :: t /\ value_start c.
Proof.
  intros H. specialize (H [] O I). rewrite app_nil_r in H.
  destruct lit as [| c t]; [discriminate H |].
  exists c, t. split; [reflexivity |].
  exact (scan_once_value_start _ _ _ _ H).
Qed.

Lemma str_of_N_head (n : N) :
  exists c t, str_of_N n = c :: t /\ is_digit c = true.
Proof.
  destruct (str_of_N_head_not_minus n []) as [c [t [E [_ Hc]]]].
  rewrite app_nil_r in E. eauto.
Qed.

Lemma digit_value_start (c : N) : is_digit c = true -> value_start c.
Proof.
  unfold is_digit, value_start, is_ws. rewrite andb_true_iff, !N.leb_le.
  intros [H1 H2].
  repeat split; rewrite ?orb_false_iff; repeat split; apply N.eqb_neq; lia.
Qed.

Lemma encode_head (level : nat) (v : json) :
  wf v -> exists c t, encode level v = c :: t /\ value_start c.
Proof.
  intros Hwf. destruct v as [| [|] | z | lit | s | [| x items] | [| kv d]];
    try (eexists; eexists; split; [reflexivity | repeat split]).
  - destruct z as [| p | p].
    + eexists; eexists; split; [reflexivity | repeat split].
    + destruct (str_of_N_head (Npos p)) as [c [t [E Hc]]].
      exists c, t. split; [exact E | apply digit_value_start; exact Hc].
    + eexists; eexists; split; [reflexivity | repeat split].
  - inversion Hwf as [| | | lit' Hlit | | |]; subst.
    exact (float_literal_head lit Hlit).
Qed.

(** ** The equations of the scanner *)

Lemma scan_once_string (f : nat) (s : str) :
  scan_once (S f) (34 :: s)
  = match scanstring s [] with
    | Some (x, r) => Some (JStr x, r)
    | None => None
    end.
Proof. reflexivity. Qed.

Lemma scan_once_array (f : nat) (s : str) :
  scan_once (S f) (91 :: s)
  = match skip_ws s with
    | c1 :: s1 =>
        if c1 =? 93 then Some (JList [], s1) else array_loop f (c1 :: s1) []
    | [] => None
    end.
Proof. reflexivity. Qed.

Lemma scan_once_object (f : nat) (s : str) :
  scan_once (S f) (123 :: s)
  = match skip_ws s with
    | c1 :: s1 =>
        if c1 =? 125 then Some (JDict [], s1)
        else if c1 =? 34 then object_loop f s1 []
        else None
    | [] => None
    end.
Proof. reflexivity. Qed.

Lemma array_loop_eq (f : nat) (s : str) (values : list json) :
  array_loop (S f) s values
  = match scan_once f s with
    | None => None
    | Some (value, s1) =>
        match skip_ws s1 with
        | c :: s2 =>
            if c =? 93 then Some (JList (rev (value :: values)), s2)
            else if c =? 44 then array_loop f (skip_ws s2) (value :: values)
            else None
        | [] => None
        end
    end.
Proof. reflexivity. Qed.

Lemma object_loop_eq (f : nat) (s : str) (pairs : list (str * json)) :
  object_loop (S f) s pairs
  = match scanstring s [] with
    | None => None
    | Some (key, s1) =>
        match skip_ws s1 with
        | c :: s2 =>
            if c =? 58 then
              match scan_once f (skip_ws s2) with
              | None => None
              | Some (value, s3) =>
                  match skip_ws s3 with
                  | c1 :: s4 =>
                      if c1 =? 125 then
                        Some (JDict (dict_of_pairs (rev ((key, value) :: pairs))), s4)
                      else if c1 =? 44 then
                        match skip_ws s4 with
                        | c2 :: s5 =>
                            if c2 =? 34
                            then object_loop f s5 ((key, value) :: pairs)
                            else None
                        | [] => None
                        end
                      else None
                  | [] => None
                  end
              end
            else None
        | [] => None
        end
    end.
Proof. reflexivity. Qed.

Lemma scan_once_number (f : nat) (c : N) (t : str) (r : json * str) :
  is_digit c = true \/ c = 45 ->
  match_number (c :: t) = Some r ->
  scan_once (S f) (c :: t) = Some r.
Proof.
  intros Hc Hm.
  assert (H : (c =? 34) = false /\ (c =? 123) = false /\ (c =? 91) = false
              /\ (c =? 110) = false /\ (c =? 116) = false
              /\ (c =? 102) = false).
  { destruct Hc as [Hc | ->]; [| repeat split].
    unfold is_digit in Hc. apply andb_true_iff in Hc as [H1 H2].
    apply N.leb_le in H1, H2. repeat split; apply N.eqb_neq; lia. }
  destruct H as [H1 [H2 [H3 [H4 [H5 H6]]]]].
  cbn [scan_once]. rewrite H1, H2, H3, H4, H5, H6. cbn [andb]. rewrite Hm.
  reflexivity.
Qed.

(** ** Encoded values read back *)

Lemma join_items_head (level : nat) (x : json) (items : list json) (rest : str) :
  wf x ->
  exists c t,
    join_items level (map (encode level) (x :: items)) ++ rest = c :: t
    /\ value_start c.
Proof.
  intros Hx. destruct (encode_head level x Hx) as [c [t [E Hc]]].
  destruct items as [| y items]; simpl; rewrite E; simpl; eauto.
Qed.

Lemma skip_ws_closing (level : nat) (c : N) (rest : str) :
  is_ws c = false ->
  skip_ws (newline_indent level ++ c :: rest) = c :: rest.
Proof. intros H. rewrite skip_ws_indent. apply skip_ws_stop. exact H. Qed.

Lemma array_loop_encoded (level : nat) (items : list json) :
  items <> [] -> Forall wf items -> Forall reads_back items ->
  forall fuel values rest,
    (items_size items <= fuel)%nat ->
    array_loop fuel
      (join_items (S level) (map (encode (S level)) items)
       ++ newline_indent level ++ 93 :: rest) values
    = Some (JList (rev values ++ items), rest).
Proof.
  induction items as [| x items IH]; [congruence |].
  intros _ Hwf Hrb fuel values rest Hfuel.
  inversion Hwf as [| ? ? Hwx Hwitems]; subst.
  inversion Hrb as [| ? ? Hx Hitems]; subst.
  destruct fuel as [| f]; [simpl in Hfuel; lia |].
  simpl in Hfuel. rewrite array_loop_eq.
  destruct items as [| y more].
  - change (join_items (S level) (map (encode (S level)) [x]))
      with (encode (S level) x).
    rewrite (Hx (S level) (newline_indent level ++ 93 :: rest) f);
      [| lia | simpl; right; reflexivity].
    rewrite (skip_ws_closing level 93 rest eq_refl).
    change (93 =? 93) with true. cbv iota.
    reflexivity.
  - change (join_items (S level) (map (encode (S level)) (x :: y :: more)))
      with (encode (S level) x ++ [44] ++ newline_indent (S level)
            ++ join_items (S level) (map (encode (S level)) (y :: more))).
    replace ((encode (S level) x ++ [44] ++ newline_indent (S level)
              ++ join_items (S level) (map (encode (S level)) (y :: more)))
             ++ newline_indent level ++ 93 :: rest)
      with (encode (S level) x
            ++ 44 :: newline_indent (S level)
            ++ (join_items (S level) (map (encode (S level)) (y :: more))
                ++ newline_indent level ++ 93 :: rest))
      by (repeat rewrite <- app_assoc; reflexivity).
    rewrite (Hx (S level) _ f); [| lia | simpl; left; reflexivity].
    rewrite (skip_ws_stop 44 _ eq_refl).
    change (44 =? 93) with false. change (44 =? 44) with true. cbv iota.
    rewrite skip_ws_indent.
    inversion Hwitems as [| ? ? Hwy Hwmore]; subst.
    destruct (join_items_head (S level) y more
                (newline_indent level ++ 93 :: rest) Hwy)
      as [c [t [E [Hc _]]]].
    rewrite E, (skip_ws_stop c t Hc), <- E.
    rewrite (IH ltac:(discriminate) Hwitems Hitems f (x :: values) rest);
      [| simpl; simpl in Hfuel; lia].
    simpl. rewrite <- app_assoc. reflexivity.
Qed.

(** A dict with distinct keys is the dict of its items. *)
Lemma dict_set_fresh {A} (d : dict A) (k : str) (v : A) :
  ~ In k (map fst d) -> dict_set d k v = d ++ [(k, v)].
Proof.
  induction d as [| [k' v'] d IH]; simpl; intros Hk; [reflexivity |].
  destruct (str_eqb k' k) eqn:E.
  - apply str_eqb_eq in E. exfalso. apply Hk. left. exact E.
  - rewrite IH; [reflexivity |]. intros H. apply Hk. right. exact H.
Qed.

Lemma dict_of_pairs_distinct {A} (pairs acc : dict A) :
  NoDup (map fst (acc ++ pairs)) ->
  fold_left (fun d kv => dict_set d (fst kv) (snd kv)) pairs acc
  = acc ++ pairs.
Proof.
  revert acc. induction pairs as [| [k v] pairs IH]; intros acc Hnd; simpl.
  - rewrite app_nil_r. reflexivity.
  - rewrite dict_set_fresh.
    + rewrite IH; rewrite <- app_assoc; [reflexivity | exact Hnd].
    + rewrite map_app in Hnd. simpl in Hnd.
      apply NoDup_remove_2 in Hnd. intros H. apply Hnd.
      apply in_or_app. left. exact H.
Qed.

Lemma dict_of_pairs_id {A} (d : dict A) :
  NoDup (map fst d) -> dict_of_pairs d = d.
Proof. intros H. apply (dict_of_pairs_distinct d [] H). Qed.

Lemma join_entries (level : nat) (kv : str * json) (d : dict json) :
  join_items level
    (map (fun kv => match kv with
                    | (k, x) =>
                        encode_basestring_ascii k ++ [58; 32] ++ encode level x
                    end) (kv :: d))
  = 34 :: entries_tail level (kv :: d).
Proof.
  revert kv. induction d as [| kv' d IH]; intros [k x].
  - simpl. unfold encode_basestring_ascii. simpl.
    repeat rewrite <- app_assoc. rewrite app_nil_r. reflexivity.
  - change (map ?f ((k, x) :: kv' :: d))
      with (f (k, x) :: map f (kv' :: d)).
    cbn [join_items]. 
    destruct (map _ (kv' :: d)) eqn:E; [discriminate E |].
    rewrite <- E, (IH kv').
    unfold encode_basestring_ascii. cbn [entries_tail].
    simpl. repeat rewrite <- app_assoc. reflexivity.
Qed.

Lemma object_loop_encoded (level : nat) (d : dict json) :
  d <> [] ->
  Forall (fun kv => str_ok (fst kv) /\ wf (snd kv)) d ->
  Forall (fun kv => reads_back (snd kv)) d ->
  forall fuel pairs rest,
    (dict_size d <= fuel)%nat ->
    object_loop fuel
      (entries_tail (S level) d ++ newline_indent level ++ 125 :: rest) pairs
    = Some (JDict (dict_of_pairs (rev pairs ++ d)), rest).
Proof.
  induction d as [| [k x] d IH]; [congruence |].
  intros _ Hwf Hrb fuel pairs rest Hfuel.
  inversion Hwf as [| ? ? [Hk Hwx] Hwd]; subst.
  inversion Hrb as [| ? ? Hx Hd]; subst.
  simpl in Hk, Hwx, Hx.
  destruct fuel as [| f]; [simpl in Hfuel; lia |].
  simpl in Hfuel. rewrite object_loop_eq.
  cbn [entries_tail].
  repeat rewrite <- app_assoc.
  change ([34; 58; 32] ++ ?y) with (34 :: 58 :: 32 :: y).
  rewrite (scanstring_encoded k Hk). cbn [rev app].
  rewrite (skip_ws_stop 58 _ eq_refl).
  change (58 =? 58) with true. cbv iota.
  change (skip_ws (32 :: ?y)) with (skip_ws y).
  destruct (encode_head (S level) x Hwx) as [c [t [E [Hc _]]]].
  destruct d as [| kv' d'].
  - rewrite E. cbn [app]. rewrite (skip_ws_stop c _ Hc).
    change (c :: t ++ newline_indent level ++ 125 :: rest)
      with ((c :: t) ++ newline_indent level ++ 125 :: rest).
    rewrite <- E.
    rewrite (Hx (S level) (newline_indent level ++ 125 :: rest) f);
      [| lia | simpl; right; reflexivity].
    rewrite (skip_ws_closing level 125 rest eq_refl).
    change (125 =? 125) with true. cbv iota.
    reflexivity.
  - repeat rewrite <- app_assoc.
    change ([44] ++ ?y) with (44 :: y).
    rewrite E. cbn [app]. rewrite (skip_ws_stop c _ Hc).
    match goal with
    | |- context [scan_once f (c :: t ++ ?r)] =>
        change (c :: t ++ r) with ((c :: t) ++ r)
    end.
    rewrite <- E.
    rewrite (Hx (S level) _ f); [| lia | simpl; left; reflexivity].
    rewrite (skip_ws_stop 44 _ eq_refl).
    change (44 =? 125) with false. change (44 =? 44) with true. cbv iota.
    rewrite <- app_assoc, skip_ws_indent.
    change ((34 :: entries_tail (S level) (kv' :: d'))
            ++ newline_indent level ++ 125 :: rest)
      with (34 :: (entries_tail (S level) (kv' :: d')
                   ++ newline_indent level ++ 125 :: rest)).
    rewrite (skip_ws_stop 34 _ eq_refl).
    change (34 =? 34) with true. cbv iota.
    rewrite (IH ltac:(discriminate) Hwd Hd f ((k, x) :: pairs) rest);
      [| simpl; simpl in Hfuel; lia].
    simpl. rewrite <- app_assoc. reflexivity.
Qed.

Lemma str_of_Z_head (z : Z) :
  exists c t, str_of_Z z = c :: t /\ (is_digit c = true \/ c = 45).
Proof.
  destruct z as [| p | p].
  - exists 48, []. split; [reflexivity | left; reflexivity].
  - destruct (str_of_N_head (Npos p)) as [c [t [E Hc]]].
    exists c, t. split; [exact E | left; exact Hc].
  - eexists; eexists. split; [reflexivity | right; reflexivity].
Qed.

Lemma encoded_reads_back (v : json) : wf v -> reads_back v.
Proof.
  induction v as [| b | z | lit | s | items IH | d IH] using json_induction;
    intros Hwf level rest fuel Hfuel Hrest;
    (destruct fuel as [| f]; [simpl in Hfuel; lia |]).
  - reflexivity.
  - destruct b; reflexivity.
  - destruct (str_of_Z_head z) as [c [t [E Hc]]].
    pose proof (match_number_int z rest Hrest) as Hm.
    cbn [encode]. rewrite E in *. apply scan_once_number; assumption.
  - inversion Hwf as [| | | lit' Hlit | | |]; subst.
    apply Hlit. exact Hrest.
  - inversion Hwf as [| | | | s' Hs | |]; subst.
    cbn [encode]. unfold encode_basestring_ascii.
    change ((34 :: flat_map encode_char s ++ [34]) ++ rest)
      with (34 :: ((flat_map encode_char s ++ [34]) ++ rest)).
    rewrite <- app_assoc. rewrite scan_once_string.
    change ([34] ++ rest) with (34 :: rest).
    rewrite (scanstring_encoded s Hs). reflexivity.
  - inversion Hwf as [| | | | | items' Hitems |]; subst.
    destruct items as [| x items]; [reflexivity |].
    change (encode level (JList (x :: items)))
      with ([91] ++ newline_indent (S level)
            ++ join_items (S level) (map (encode (S level)) (x :: items))
            ++ newline_indent level ++ [93]).
    repeat rewrite <- app_assoc.
    change ([91] ++ ?y) with (91 :: y). change ([93] ++ rest) with (93 :: rest).
    rewrite scan_once_array, skip_ws_indent.
    inversion Hitems as [| ? ? Hwx Hwitems]; subst.
    destruct (join_items_head (S level) x items
                (newline_indent level ++ 93 :: rest) Hwx)
      as [c [t [E [Hc [Hc93 _]]]]].
    rewrite E, (skip_ws_stop c t Hc), Hc93, <- E.
    assert (Hall : Forall reads_back (x :: items)).
    { apply Forall_forall. intros y Hy.
      rewrite Forall_forall in IH, Hitems. exact (IH y Hy (Hitems y Hy)). }
    rewrite (array_loop_encoded level (x :: items) ltac:(discriminate)
               Hitems Hall f [] rest); [reflexivity |].
    change (size (JList (x :: items)))
      with (S (items_size (x :: items))) in Hfuel. lia.
  - inversion Hwf as [| | | | | | d' Hnd Hd]; subst.
    destruct d as [| kv d]; [reflexivity |].
    change (encode level (JDict (kv :: d)))
      with ([123] ++ newline_indent (S level)
            ++ join_items (S level)
                 (map (fun kv => match kv with
                                 | (k, x) =>
                                     encode_basestring_ascii k ++ [58; 32]
                                     ++ encode (S level) x
                                 end) (kv :: d))
            ++ newline_indent level ++ [125]).
    rewrite join_entries.
    repeat rewrite <- app_assoc.
    change ([123] ++ ?y) with (123 :: y).
    change ([125] ++ rest) with (125 :: rest).
    rewrite scan_once_object, skip_ws_indent.
    change ((34 :: entries_tail (S level) (kv :: d))
            ++ newline_indent level ++ 125 :: rest)
      with (34 :: (entries_tail (S level) (kv :: d)
                   ++ newline_indent level ++ 125 :: rest)).
    rewrite (skip_ws_stop 34 _ eq_refl).
    change (34 =? 125) with false. change (34 =? 34) with true. cbv iota.
    assert (Hall : Forall (fun kv => reads_back (snd kv)) (kv :: d)).
    { apply Forall_forall. intros y Hy.
      rewrite Forall_forall in IH, Hd. apply (IH y Hy). apply (Hd y Hy). }
    rewrite (object_loop_encoded level (kv :: d) ltac:(discriminate)
               Hd Hall f [] rest).
    + cbn [rev app]. rewrite (dict_of_pairs_id _ Hnd). reflexivity.
    + change (size (JDict (kv :: d)))
        with (S (dict_size (kv :: d))) in Hfuel. lia.
Qed.

(** ** The length of an encoding bounds the calls that scan it *)

Lemma join_items_length (level : nat) (chunks : list str) :
  (chunk_sum chunks <= length (join_items level chunks) + 1)%nat.
Proof.
  induction chunks as [| c chunks IH]; [simpl; lia |].
  destruct chunks as [| c' chunks].
  - simpl. lia.
  - change (join_items level (c :: c' :: chunks))
      with (c ++ [44] ++ newline_indent level ++ join_items level (c' :: chunks)).
    change (chunk_sum (c :: c' :: chunks))
      with (S (length c + chunk_sum (c' :: chunks))).
    rewrite !length_app. change (length [44]) with 1%nat. lia.
Qed.

Lemma items_size_chunks (f : json -> str) (items : list json) :
  Forall (fun x => (size x <= length (f x))%nat) items ->
  (items_size items <= chunk_sum (map f items))%nat.
Proof.
  induction 1 as [| x items Hx _ IH]; simpl; [lia |].
  unfold items_size, chunk_sum in *. simpl. lia.
Qed.

Lemma dict_size_chunks (f : str * json -> str) (d : dict json) :
  Forall (fun kv => (size (snd kv) <= length (f kv))%nat) d ->
  (dict_size d <= chunk_sum (map f d))%nat.
Proof.
  induction 1 as [| [k x] d Hx _ IH]; simpl; [lia |].
  unfold dict_size, chunk_sum in *. simpl in *. lia.
Qed.

Lemma size_le_length (v : json) :
  wf v -> forall level, (size v <= length (encode level v))%nat.
Proof.
  induction v as [| b | z | lit | s | items IH | d IH] using json_induction;
    intros Hwf level.
  - simpl. lia.
  - destruct b; simpl; lia.
  - destruct (str_of_Z_head z) as [c [t [E _]]].
    cbn [encode size]. rewrite E. simpl. lia.
  - destruct (encode_head level (JFloat lit) Hwf) as [c [t [E _]]].
    rewrite E. simpl. lia.
  - simpl. lia.
  - inversion Hwf as [| | | | | items' Hitems |]; subst.
    destruct items as [| x items]; [simpl; lia |].
    change (encode level (JList (x :: items)))
      with ([91] ++ newline_indent (S level)
            ++ join_items (S level) (map (encode (S level)) (x :: items))
            ++ newline_indent level ++ [93]).
    change (size (JList (x :: items))) with (S (items_size (x :: items))).
    rewrite !length_app.
    pose proof (join_items_length (S level)
                  (map (encode (S level)) (x :: items))) as Hj.
    assert (Hs : (items_size (x :: items)
                  <= chunk_sum (map (encode (S level)) (x :: items)))%nat).
    { apply items_size_chunks. apply Forall_forall. intros y Hy.
      rewrite Forall_forall in IH, Hitems. exact (IH y Hy (Hitems y Hy) _). }
    change (length [91]) with 1%nat. change (length [93]) with 1%nat. lia.
  - inversion Hwf as [| | | | | | d' Hnd Hd]; subst.
    destruct d as [| kv d]; [simpl; lia |].
    change (encode level (JDict (kv :: d)))
      with ([123] ++ newline_indent (S level)
            ++ join_items (S level)
                 (map (fun kv => match kv with
                                 | (k, x) =>
                                     encode_basestring_ascii k ++ [58; 32]
                                     ++ encode (S level) x
                                 end) (kv :: d))
            ++ newline_indent level ++ [125]).
    change (size (JDict (kv :: d))) with (S (dict_size (kv :: d))).
    rewrite !length_app.
    match goal with
    | |- context [join_items (S level) (map ?f (kv :: d))] =>
        pose proof (join_items_length (S level) (map f (kv :: d))) as Hj;
        assert (Hs : (dict_size (kv :: d) <= chunk_sum (map f (kv :: d)))%nat)
    end.
    { apply dict_size_chunks. apply Forall_forall. intros [k x] Hy.
      rewrite Forall_forall in IH, Hd.
      specialize (IH (k, x) Hy). specialize (Hd (k, x) Hy).
      simpl in IH, Hd. destruct Hd as [_ Hwx].
      specialize (IH Hwx (S level)).
      simpl snd. rewrite !length_app. lia. }
    change (length [123]) with 1%nat. change (length [125]) with 1%nat. lia.
Qed.

(** ** Serializing and reparsing *)

Lemma loads_dumps (v : json) : wf v -> loads (dumps v) = Some v.
Proof.
  intros Hwf. unfold loads, dumps.
  destruct (encode_head 0 v Hwf) as [c [t [E [Hws [_ Hbom]]]]].
  pose proof (encoded_reads_back v Hwf 0%nat [] (S (length (encode 0 v)))) as H.
  rewrite app_nil_r in H.
  rewrite E in *.
  cbn [startswith]. rewrite N.eqb_sym, Hbom. cbn [andb].
  rewrite (skip_ws_stop c t Hws), H.
  - reflexivity.
  - rewrite <- E. pose proof (size_le_length v Hwf 0%nat). lia.
  - exact I.
Qed.

(** ** What the scanner builds from scalar text *)

Lemma scanstring_inv (c : N) (s1 acc : str) (r : str * str) :
  scanstring (c :: s1) acc = Some r ->
  (c = 34 /\ r = (rev acc, s1))
  \/ exists ch s',
       scan_step (c :: s1) ch s' /\ scanstring s' (ch :: acc) = Some r.
Proof.
  intros H. cbn [scanstring] in H.
  destruct (N.eqb_spec c 34) as [-> | H34].
  { left. split; [reflexivity |]. injection H as <-. reflexivity. }
  right.
  destruct (N.eqb_spec c 92) as [-> | H92].
  - destruct s1 as [| e s2]; [discriminate H |].
    destruct (e =? 117) eqn:He.
    + apply N.eqb_eq in He. subst e.
      destruct s2 as [| h1 [| h2 [| h3 [| h4 s3]]]]; try discriminate H.
      destruct (hex4 h1 h2 h3 h4) as [uni |] eqn:Hh; [| discriminate H].
      destruct (is_high_surrogate uni) eqn:Hhi.
      * destruct s3 as [| b [| e2 t]].
        -- exists uni, []. split; [| exact H].
           apply step_escape; [exact Hh | reflexivity].
        -- exists uni, [b]. split; [| exact H].
           apply step_escape; [exact Hh | reflexivity].
        -- destruct ((b =? 92) && (e2 =? 117)) eqn:Hbe.
           ++ apply andb_true_iff in Hbe as [Hb He2].
              apply N.eqb_eq in Hb, He2. subst b e2.
              destruct t as [| l1 [| l2 [| l3 [| l4 s4]]]]; try discriminate H.
              destruct (hex4 l1 l2 l3 l4) as [uni2 |] eqn:Hl;
                [| discriminate H].
              destruct (is_low_surrogate uni2) eqn:Hlo.
              ** exists (join_surrogates uni uni2), s4. split; [| exact H].
                 apply (step_pair h1 h2 h3 h4 l1 l2 l3 l4 uni uni2);
                   assumption.
              ** exists uni, (92 :: 117 :: l1 :: l2 :: l3 :: l4 :: s4).
                 split; [| exact H].
                 apply step_escape; [exact Hh |].
                 intros _. cbn [low_escape_ahead]. rewrite Hl, Hlo.
                 reflexivity.
           ++ exists uni, (b :: e2 :: t). split; [| exact H].
              apply step_escape; [exact Hh |].
              intros _. destruct t as [| l1 [| l2 [| l3 [| l4 s4]]]];
                try reflexivity.
              cbn [low_escape_ahead]. rewrite Hbe. reflexivity.
      * exists uni, s3. split; [| exact H].
        apply step_escape; [exact Hh | intros E; congruence].
    + destruct (backslash e) as [ch |] eqn:Hb; [| discriminate H].
      exists ch, s2. split; [| exact H].
      apply step_backslash; assumption.
  - destruct (c <? 32) eqn:Hc; [discriminate H |].
    exists c, s1. split; [| exact H].
    apply step_plain; [apply N.eqb_neq; exact H34
                      | apply N.eqb_neq; exact H92 | exact Hc].
Qed.

Lemma hexval_bound (c x : N) : hexval c = Some x -> x < 16.
Proof.
  unfold hexval, is_digit.
  destruct ((48 <=? c) && (c <=? 57)) eqn:E1.
  { apply andb_true_iff in E1 as [H1 H2]. apply N.leb_le in H1, H2.
    intros H. injection H as <-. lia. }
  destruct ((97 <=? c) && (c <=? 102)) eqn:E2.
  { apply andb_true_iff in E2 as [H1 H2]. apply N.leb_le in H1, H2.
    intros H. injection H as <-. lia. }
  destruct ((65 <=? c) && (c <=? 70)) eqn:E3; [| discriminate].
  apply andb_true_iff in E3 as [H1 H2]. apply N.leb_le in H1, H2.
  intros H. injection H as <-. lia.
Qed.

Lemma hex4_bound (a b c d n : N) : hex4 a b c d = Some n -> n < 65536.
Proof.
  unfold hex4.
  destruct (hexval a) as [x |] eqn:Ea; [| discriminate].
  destruct (hexval b) as [y |] eqn:Eb; [| discriminate].
  destruct (hexval c) as [z |] eqn:Ec; [| discriminate].
  destruct (hexval d) as [w |] eqn:Ed; [| discriminate].
  apply hexval_bound in Ea, Eb, Ec, Ed.
  intros H. injection H as <-. lia.
Qed.

Lemma join_surrogates_eq (hi lo : N) :
  is_high_surrogate hi = true -> is_low_surrogate lo = true ->
  join_surrogates hi lo = 65536 + ((hi - 55296) * 1024 + (lo - 56320)).
Proof.
  unfold is_high_surrogate, is_low_surrogate, join_surrogates.
  rewrite !andb_true_iff, !N.leb_le. intros [H1 H2] [H3 H4].
  f_equal.
  set (a := hi - 55296). set (b := lo - 56320).
  assert (Ha : a < 1024) by (unfold a; lia).
  assert (Hb : b < 1024) by (unfold b; lia).
  assert (Eq : N.shiftr (a * 1024 + b) 10 = a).
  { rewrite N.shiftr_div_pow2. change (2 ^ 10) with 1024.
    symmetry. apply (N.div_unique (a * 1024 + b) 1024 a b); lia. }
  assert (Er : N.land (a * 1024 + b) 1023 = b).
  { change 1023 with (N.ones 10). rewrite N.land_ones.
    change (2 ^ 10) with 1024.
    symmetry. apply (N.mod_unique (a * 1024 + b) 1024 a b); lia. }
  pose proof (halves_join (a * 1024 + b)) as Hj.
  rewrite Eq, Er in Hj. exact Hj.
Qed.

Lemma join_surrogates_range (hi lo : N) :
  is_high_surrogate hi = true -> is_low_surrogate lo = true ->
  65536 <= join_surrogates hi lo < 1114112.
Proof.
  intros Hhi Hlo. rewrite (join_surrogates_eq hi lo Hhi Hlo).
  unfold is_high_surrogate, is_low_surrogate in *.
  apply andb_true_iff in Hhi as [H1 H2]. apply andb_true_iff in Hlo as [H3 H4].
  apply N.leb_le in H1, H2, H3, H4. lia.
Qed.

Lemma scalar_spec (c : N) :
  scalar c = true ->
  c < 1114112 /\ is_high_surrogate c = false /\ is_low_surrogate c = false.
Proof.
  unfold scalar, is_surrogate, is_high_surrogate, is_low_surrogate.
  rewrite andb_true_iff, negb_true_iff, andb_false_iff, N.ltb_lt.
  rewrite !N.leb_gt. intros [H1 H2].
  repeat split; [exact H1 | |]; apply andb_false_iff;
    rewrite ?N.leb_gt; lia.
Qed.

Lemma backslash_small (e ch : N) : backslash e = Some ch -> ch < 128.
Proof.
  unfold backslash.
  repeat match goal with
         | |- context [if ?b then _ else _] => destruct b
         end; intros H; try discriminate H; injection H as <-; reflexivity.
Qed.

Lemma small_not_surrogate (c : N) :
  c < 55296 \/ 65536 <= c ->
  is_high_surrogate c = false /\ is_low_surrogate c = false.
Proof.
  unfold is_high_surrogate, is_low_surrogate. intros H.
  split; apply andb_false_iff; rewrite !N.leb_gt; lia.
Qed.

Section ScanStep.

Variables (s s' : str) (ch : N).
Hypothesis Hstep : scan_step s ch s'.
Hypothesis Hs : scalar_text s.

Lemma scan_step_shorter : (length s' < length s)%nat.
Proof. clear Hs. destruct Hstep; simpl; lia. Qed.

Lemma scan_step_rest : scalar_text s'.
Proof.
  unfold scalar_text in *.
  destruct Hstep;
    repeat match goal with
           | H : Forall _ (_ :: _) |- _ => inversion H; clear H; subst
           end; assumption.
Qed.

Lemma scan_step_code_point : ch < 1114112.
Proof.
  unfold scalar_text in *. destruct Hstep as [c s1 _ _ _ | e c s2 _ Hb | h1 h2 h3 h4 uni s3 Hh _ | h1 h2 h3 h4 l1 l2 l3 l4 hi lo s4 Hh Hhi Hl Hlo].
  - inversion Hs as [| ? ? Hc _]; subst. apply scalar_spec in Hc. tauto.
  - apply backslash_small in Hb. lia.
  - apply hex4_bound in Hh. lia.
  - apply (join_surrogates_range hi lo Hhi Hlo).
Qed.

Lemma scan_step_low : is_low_surrogate ch = true -> low_escape_ahead s = true.
Proof.
  unfold scalar_text in *. destruct Hstep as [c s1 _ _ _ | e c s2 _ Hb | h1 h2 h3 h4 uni s3 Hh _ | h1 h2 h3 h4 l1 l2 l3 l4 hi lo s4 Hh Hhi Hl Hlo]; intros Hlow.
  - inversion Hs as [| ? ? Hc _]; subst. apply scalar_spec in Hc.
    destruct Hc as [_ [_ Hc]]. congruence.
  - apply backslash_small in Hb.
    destruct (small_not_surrogate c ltac:(lia)) as [_ H]. congruence.
  - cbn [low_escape_ahead]. rewrite Hh, Hlow. reflexivity.
  - pose proof (join_surrogates_range hi lo Hhi Hlo) as [H _].
    destruct (small_not_surrogate _ (or_intror H)) as [_ H']. congruence.
Qed.

Lemma scan_step_high :
  is_high_surrogate ch = true -> low_escape_ahead s' = false.
Proof.
  unfold scalar_text in *. destruct Hstep as [c s1 _ _ _ | e c s2 _ Hb | h1 h2 h3 h4 uni s3 Hh Hsafe | h1 h2 h3 h4 l1 l2 l3 l4 hi lo s4 Hh Hhi Hl Hlo]; intros Hhigh.
  - inversion Hs as [| ? ? Hc _]; subst. apply scalar_spec in Hc.
    destruct Hc as [_ [Hc _]]. congruence.
  - apply backslash_small in Hb.
    destruct (small_not_surrogate c ltac:(lia)) as [H _]. congruence.
  - exact (Hsafe Hhigh).
  - pose proof (join_surrogates_range hi lo Hhi Hlo) as [H _].
    destruct (small_not_surrogate _ (or_intror H)) as [H' _]. congruence.
Qed.

End ScanStep.

Lemma no_pair_snoc (l : str) (a ch : N) :
  no_pair ((l ++ [a]) ++ [ch])
  = no_pair (l ++ [a])
    && negb (is_high_surrogate a && is_low_surrogate ch).
Proof.
  induction l as [| x l IH].
  - simpl. rewrite andb_true_r. reflexivity.
  - destruct l as [| y l].
    + simpl. rewrite !andb_true_r. reflexivity.
    + change (no_pair (((x :: y :: l) ++ [a]) ++ [ch]))
        with (negb (is_high_surrogate x && is_low_surrogate y)
              && no_pair (((y :: l) ++ [a]) ++ [ch])).
      change (no_pair ((x :: y :: l) ++ [a]))
        with (negb (is_high_surrogate x && is_low_surrogate y)
              && no_pair ((y :: l) ++ [a])).
      rewrite IH, andb_assoc. reflexivity.
Qed.

Lemma decoded_ok_step (acc s s' : str) (ch : N) :
  scan_step s ch s' -> scalar_text s -> decoded_ok acc s ->
  decoded_ok (ch :: acc) s'.
Proof.
  intros Hstep Hs [Hall [Hnp Hhead]]. repeat split.
  - constructor; [exact (scan_step_code_point s s' ch Hstep Hs) | exact Hall].
  - destruct acc as [| a acc]; [reflexivity |].
    change (rev (ch :: a :: acc)) with ((rev acc ++ [a]) ++ [ch]).
    change (rev (a :: acc)) with (rev acc ++ [a]) in Hnp.
    rewrite no_pair_snoc, Hnp. cbn [andb]. apply negb_true_iff.
    destruct (is_high_surrogate a) eqn:Ha; [| reflexivity].
    destruct (is_low_surrogate ch) eqn:Hc; [| reflexivity].
    pose proof (scan_step_low s s' ch Hstep Hs Hc) as H1.
    rewrite (Hhead eq_refl) in H1. discriminate H1.
  - exact (scan_step_high s s' ch Hstep Hs).
Qed.

Lemma scanstring_ok (n : nat) :
  forall s acc out rest,
    (length s <= n)%nat ->
    scanstring s acc = Some (out, rest) ->
    scalar_text s -> decoded_ok acc s ->
    str_ok out /\ scalar_text rest.
Proof.
  induction n as [| n IH]; intros s acc out rest Hlen H Hs Hacc.
  - destruct s; [discriminate H | simpl in Hlen; lia].
  - destruct s as [| c s1]; [discriminate H |].
    apply scanstring_inv in H as [[-> H] | [ch [s' [Hstep H]]]].
    + injection H as -> ->. destruct Hacc as [Hall [Hnp _]]. split.
      * split; [apply Forall_rev; exact Hall | exact Hnp].
      * inversion Hs. assumption.
    + apply (IH s' (ch :: acc) out rest).
      * pose proof (scan_step_shorter _ _ _ Hstep) as Hshort. simpl in *. lia.
      * exact H.
      * exact (scan_step_rest _ _ _ Hstep Hs).
      * exact (decoded_ok_step acc _ s' ch Hstep Hs Hacc).
Qed.

Lemma scanstring_wf (s out rest : str) :
  scanstring s [] = Some (out, rest) -> scalar_text s ->
  str_ok out /\ scalar_text rest.
Proof.
  intros H Hs. apply (scanstring_ok (length s) s [] out rest);
    [lia | exact H | exact Hs |].
  repeat split. constructor.
Qed.

(** ** Number literals *)

Lemma span_digits_spec (s ds r : str) :
  span_digits s = (ds, r) ->
  s = ds ++ r /\ forallb is_digit ds = true /\ no_digit_ahead r.
Proof.
  revert ds r. induction s as [| c s IH]; intros ds r H; simpl in H.
  - injection H as <- <-. repeat split.
  - destruct (is_digit c) eqn:Hc.
    + destruct (span_digits s) as [ds' r'] eqn:E.
      injection H as <- <-.
      destruct (IH ds' r' eq_refl) as [-> [Hds Hr]].
      repeat split; [simpl; rewrite Hc, Hds; reflexivity | exact Hr].
    + injection H as <- <-. repeat split. exact Hc.
Qed.

Lemma match_integer_spec (s g r : str) :
  match_integer s = Some (g, r) -> s = g ++ r /\ integer_group g.
Proof.
  unfold match_integer. destruct s as [| c s]; [discriminate |].
  destruct (N.eqb_spec c 48) as [-> | Hc0].
  - intros H. injection H as <- <-. split; [reflexivity |]. split.
    + exists 48, []. split; reflexivity.
    + intros x _. reflexivity.
  - destruct (is_digit c) eqn:Hc; [| discriminate].
    destruct (span_digits s) as [ds r'] eqn:E. intros H. injection H as <- <-.
    destruct (span_digits_spec s ds r' E) as [-> [Hds Hr]].
    split; [reflexivity |]. split.
    + exists c, ds. split; [reflexivity | exact Hc].
    + intros x Hx. cbn [app match_integer].
      apply N.eqb_neq in Hc0. rewrite Hc0, Hc.
      rewrite (span_digits_app ds x Hds Hx). reflexivity.
Qed.

Lemma match_frac_spec (s g r : str) :
  match_frac s = (g, r) ->
  s = g ++ r /\ optional_group match_frac (fun c => c =? 46) g.
Proof.
  unfold match_frac. destruct s as [| c s].
  { intros H. injection H as <- <-. split; [reflexivity | left; reflexivity]. }
  destruct (N.eqb_spec c 46) as [-> | Hc].
  - destruct (span_digits s) as [ds r'] eqn:E.
    destruct (span_digits_spec s ds r' E) as [-> [Hds Hr]].
    destruct ds as [| d ds].
    + intros H. injection H as <- <-. split; [reflexivity | left; reflexivity].
    + intros H. injection H as <- <-. split; [reflexivity |]. right. split.
      * exists 46, (d :: ds). split; reflexivity.
      * intros x Hx. cbn [app]. change (46 =? 46) with true. cbv iota.
        change (d :: ds ++ x) with ((d :: ds) ++ x).
        rewrite (span_digits_app (d :: ds) x Hds Hx). reflexivity.
  - intros H. injection H as <- <-. split; [reflexivity | left; reflexivity].
Qed.

Lemma match_exp_spec (s g r : str) :
  match_exp s = (g, r) ->
  s = g ++ r /\ optional_group match_exp is_exponent_mark g.
Proof.
  unfold match_exp. destruct s as [| c s].
  { intros H. injection H as <- <-. split; [reflexivity | left; reflexivity]. }
  fold (is_exponent_mark c).
  destruct (is_exponent_mark c) eqn:Hc.
  2:{ intros H. injection H as <- <-. split; [reflexivity | left; reflexivity]. }
  destruct s as [| g0 s].
  { intros H. injection H as <- <-. split; [reflexivity | left; reflexivity]. }
  destruct ((g0 =? 45) || (g0 =? 43)) eqn:Hg.
  - destruct (span_digits s) as [ds r'] eqn:E.
    destruct (span_digits_spec s ds r' E) as [-> [Hds Hr]].
    destruct ds as [| d ds].
    + intros H. injection H as <- <-. split; [reflexivity | left; reflexivity].
    + intros H. injection H as <- <-. split; [reflexivity |]. right. split.
      * exists c, (g0 :: d :: ds). split; [reflexivity | exact Hc].
      * intros x Hx. cbn [app]. fold (is_exponent_mark c). rewrite Hc, Hg.
        change (d :: ds ++ x) with ((d :: ds) ++ x).
        rewrite (span_digits_app (d :: ds) x Hds Hx). reflexivity.
  - destruct (span_digits (g0 :: s)) as [ds r'] eqn:E.
    destruct (span_digits_spec (g0 :: s) ds r' E) as [E' [Hds Hr]].
    destruct ds as [| d ds].
    + intros H. injection H as <- <-. split; [reflexivity | left; reflexivity].
    + intros H. injection H as <- <-. rewrite E'. split; [reflexivity |].
      right. split.
      * exists c, (d :: ds). split; [reflexivity | exact Hc].
      * intros x Hx. injection E' as -> ->.
        cbn [app]. fold (is_exponent_mark c). rewrite Hc, Hg.
        change (d :: ds ++ x) with ((d :: ds) ++ x).
        rewrite (span_digits_app (d :: ds) x Hds Hx). reflexivity.
Qed.

Lemma dot_no_digit (c : N) (t : str) :
  (c =? 46) = true -> no_digit_ahead (c :: t).
Proof. intros H. apply N.eqb_eq in H. subst c. reflexivity. Qed.

Lemma exponent_mark_no_digit (c : N) (t : str) :
  is_exponent_mark c = true -> no_digit_ahead (c :: t).
Proof.
  unfold is_exponent_mark. intros H.
  apply orb_true_iff in H as [H | H]; apply N.eqb_eq in H; subst c; reflexivity.
Qed.

Lemma exponent_mark_no_dot (c : N) (t : str) :
  is_exponent_mark c = true -> match_frac (c :: t) = ([], c :: t).
Proof.
  unfold is_exponent_mark. intros H.
  apply orb_true_iff in H as [H | H]; apply N.eqb_eq in H; subst c; reflexivity.
Qed.

(** The groups of a float literal, put together, match again. *)
Lemma float_groups_match (neg : bool) (ds frac exp rest : str) :
  integer_group ds ->
  optional_group match_frac (fun c => c =? 46) frac ->
  optional_group match_exp is_exponent_mark exp ->
  frac <> [] \/ exp <> [] ->
  delimited rest ->
  match_number (((if neg then [45] else []) ++ ds ++ frac ++ exp) ++ rest)
  = Some (JFloat ((if neg then [45] else []) ++ ds ++ frac ++ exp), rest).
Proof.
  intros [[c [t [Eds Hc]]] Hint] Hfrac Hexp Hne Hrest.
  pose proof (delimited_no_digit rest Hrest) as Hnd.
  assert (Hc45 : (c =? 45) = false).
  { unfold is_digit in Hc. apply andb_true_iff in Hc as [H1 H2].
    apply N.leb_le in H1. apply N.eqb_neq. lia. }
  assert (Hexp_rest : match_exp (exp ++ rest) = (exp, rest)).
  { destruct Hexp as [-> | [_ Hexp]];
      [exact (match_exp_delimited rest Hrest) | exact (Hexp rest Hnd)]. }
  assert (Hnd_exp : no_digit_ahead (exp ++ rest)).
  { destruct Hexp as [-> | [[e [t' [-> He]]] _]];
      [exact Hnd | exact (exponent_mark_no_digit e _ He)]. }
  assert (Hfrac_rest : match_frac (frac ++ exp ++ rest) = (frac, exp ++ rest)).
  { destruct Hfrac as [-> | [_ Hfrac]]; [| exact (Hfrac _ Hnd_exp)].
    destruct Hexp as [-> | [[e [t' [-> He]]] _]];
      [destruct Hne; congruence |].
    exact (exponent_mark_no_dot e _ He). }
  assert (Hnd_frac : no_digit_ahead (frac ++ exp ++ rest)).
  { destruct Hfrac as [-> | [[d [t' [-> Hd]]] _]];
      [exact Hnd_exp | exact (dot_no_digit d _ Hd)]. }
  assert (Hbody : match_integer (ds ++ frac ++ exp ++ rest)
                  = Some (ds, frac ++ exp ++ rest))
    by exact (Hint _ Hnd_frac).
  assert (Hgo : forall neg',
             match match_integer (ds ++ frac ++ exp ++ rest) with
             | None => None
             | Some (ds0, r1) =>
                 let '(frac0, r2) := match_frac r1 in
                 let '(exp0, r3) := match_exp r2 in
                 match frac0, exp0 with
                 | [], [] => Some (JInt (int_of_literal neg' ds0), r3)
                 | _, _ =>
                     Some (JFloat ((if neg' then [45] else [])
                                   ++ ds0 ++ frac0 ++ exp0), r3)
                 end
             end
             = Some (JFloat ((if neg' then [45] else []) ++ ds ++ frac ++ exp),
                     rest)).
  { intros neg'. rewrite Hbody, Hfrac_rest, Hexp_rest.
    destruct frac; [destruct exp; [destruct Hne; congruence |] |]; reflexivity. }
  unfold match_number. repeat rewrite <- app_assoc.
  destruct neg.
  - change ([45] ++ ds ++ frac ++ exp ++ rest)
      with (45 :: ds ++ frac ++ exp ++ rest).
    change (45 =? 45) with true. cbv iota. exact (Hgo true).
  - subst ds. cbn [app]. rewrite Hc45. exact (Hgo false).
Qed.

Lemma float_groups_literal (neg : bool) (ds frac exp : str) :
  integer_group ds ->
  optional_group match_frac (fun c => c =? 46) frac ->
  optional_group match_exp is_exponent_mark exp ->
  frac <> [] \/ exp <> [] ->
  float_literal ((if neg then [45] else []) ++ ds ++ frac ++ exp).
Proof.
  intros Hint Hfrac Hexp Hne rest fuel Hrest.
  pose proof (float_groups_match neg ds frac exp rest
                Hint Hfrac Hexp Hne Hrest) as Hm.
  destruct Hint as [[c [t [Eds Hc]]] _].
  destruct neg.
  - change (([45] ++ ds ++ frac ++ exp) ++ rest)
      with (45 :: (ds ++ frac ++ exp) ++ rest) in *.
    apply scan_once_number; [right; reflexivity | exact Hm].
  - cbn [app] in *. rewrite Eds in *. cbn [app] in *.
    apply scan_once_number; [left; exact Hc | exact Hm].
Qed.

(** What [match_number] returns: an integer, or a float literal; what
    follows is the end of the text it was given. *)
Lemma match_number_spec (s : str) (v : json) (r : str) :
  match_number s = Some (v, r) ->
  (exists consumed, s = consumed ++ r)
  /\ ((exists z, v = JInt z) \/ (exists lit, v = JFloat lit /\ float_literal lit)).
Proof.
  unfold match_number.
  set (p := match s with
            | c :: s' => if c =? 45 then (true, s') else (false, s)
            | [] => (false, s)
            end).
  assert (Hp : exists sign, s = sign ++ snd p).
  { unfold p. destruct s as [| c s']; [exists []; reflexivity |].
    destruct (c =? 45) eqn:E.
    - apply N.eqb_eq in E. subst c. exists [45]. reflexivity.
    - exists []. reflexivity. }
  destruct p as [neg s0]. destruct Hp as [sign Hsign]. simpl in Hsign.
  destruct (match_integer s0) as [[ds r1] |] eqn:Ei; [| discriminate].
  destruct (match_frac r1) as [frac r2] eqn:Ef.
  destruct (match_exp r2) as [exp r3] eqn:Ee.
  destruct (match_integer_spec s0 ds r1 Ei) as [-> Hint].
  destruct (match_frac_spec r1 frac r2 Ef) as [-> Hfrac].
  destruct (match_exp_spec r2 exp r3 Ee) as [-> Hexp].
  assert (Hcons : exists consumed, s = consumed ++ r3).
  { exists (sign ++ ds ++ frac ++ exp). rewrite Hsign.
    repeat rewrite <- app_assoc. reflexivity. }
  destruct frac as [| f0 frac].
  - destruct exp as [| e0 exp].
    + intros H. injection H as <- <-. split; [exact Hcons |].
      left. eexists. reflexivity.
    + intros H. injection H as <- <-. split; [exact Hcons |].
      right. eexists. split; [reflexivity |].
      apply (float_groups_literal neg ds [] (e0 :: exp) Hint Hfrac Hexp).
      right. discriminate.
  - intros H. injection H as <- <-. split; [exact Hcons |].
    right. eexists. split; [reflexivity |].
    apply (float_groups_literal neg ds (f0 :: frac) exp Hint Hfrac Hexp).
    left. discriminate.
Qed.

Lemma float_literal_NaN : float_literal (u "NaN").
Proof. intros rest fuel _. reflexivity. Qed.

Lemma float_literal_Infinity : float_literal (u "Infinity").
Proof. intros rest fuel _. reflexivity. Qed.

Lemma float_literal_minus_Infinity : float_literal (u "-Infinity").
Proof. intros rest fuel _. reflexivity. Qed.

(** ** The dict of a list of pairs *)

Lemma dict_set_keys {A} (d : dict A) (k : str) (v : A) (x : str) :
  In x (map fst (dict_set d k v)) -> In x (map fst d) \/ x = k.
Proof.
  induction d as [| [k' v'] d IH]; simpl.
  - intros [<- | []]. right. reflexivity.
  - destruct (str_eqb k' k); simpl.
    + intros [<- | H]; [left; left; reflexivity | left; right; exact H].
    + intros [<- | H]; [left; left; reflexivity |].
      destruct (IH H) as [H' | ->]; [left; right; exact H' | right; reflexivity].
Qed.

Lemma dict_set_NoDup {A} (d : dict A) (k : str) (v : A) :
  NoDup (map fst d) -> NoDup (map fst (dict_set d k v)).
Proof.
  induction d as [| [k' v'] d IH]; simpl; intros Hnd.
  - constructor; [intros [] | constructor].
  - inversion Hnd as [| ? ? Hk' Hd]; subst.
    destruct (str_eqb k' k) eqn:E; simpl.
    + constructor; assumption.
    + constructor; [| exact (IH Hd)].
      intros H. apply dict_set_keys in H as [H | ->]; [exact (Hk' H) |].
      rewrite str_eqb_refl in E. discriminate E.
Qed.

Lemma dict_set_entries (d : dict json) (k : str) (v : json) :
  Forall entry_ok d -> entry_ok (k, v) -> Forall entry_ok (dict_set d k v).
Proof.
  intros Hd Hkv. induction Hd as [| [k' v'] d Hk' Hd IH]; simpl.
  - constructor; [exact Hkv | constructor].
  - destruct (str_eqb k' k) eqn:E.
    + apply str_eqb_eq in E. subst k'. constructor; assumption.
    + constructor; assumption.
Qed.

Lemma dict_of_pairs_wf (pairs : list (str * json)) :
  Forall entry_ok pairs -> wf (JDict (dict_of_pairs pairs)).
Proof.
  intros Hpairs. unfold dict_of_pairs.
  assert (H : forall acc,
             NoDup (map fst acc) -> Forall entry_ok acc ->
             let d := fold_left (fun d kv => dict_set d (fst kv) (snd kv))
                        pairs acc in
             NoDup (map fst d) /\ Forall entry_ok d).
  { induction Hpairs as [| [k v] pairs Hkv _ IH]; intros acc Hnd Hacc; simpl.
    - split; assumption.
    - apply IH; [apply dict_set_NoDup; exact Hnd
                | apply dict_set_entries; assumption]. }
  destruct (H [] (NoDup_nil _) (Forall_nil _)) as [Hnd Hall].
  apply wf_dict; assumption.
Qed.

(** ** Suffixes of scalar text *)

Lemma skip_ws_scalar (s : str) : scalar_text s -> scalar_text (skip_ws s).
Proof.
  induction 1 as [| c s Hc Hs IH]; simpl; [constructor |].
  destruct (is_ws c); [exact IH | constructor; assumption].
Qed.

Lemma skipn_scalar (n : nat) (s : str) : scalar_text s -> scalar_text (skipn n s).
Proof.
  revert s. induction n as [| n IH]; intros s Hs; [exact Hs |].
  destruct Hs as [| c s Hc Hs]; [constructor | exact (IH s Hs)].
Qed.

Lemma suffix_scalar (consumed r : str) :
  scalar_text (consumed ++ r) -> scalar_text r.
Proof. intros H. apply Forall_app in H. tauto. Qed.

Lemma skip_ws_tail_scalar (s : str) (c : N) (t : str) :
  scalar_text s -> skip_ws s = c :: t -> scalar_text (c :: t) /\ scalar_text t.
Proof.
  intros Hs E. pose proof (skip_ws_scalar s Hs) as H. rewrite E in H.
  split; [exact H | inversion H; assumption].
Qed.

(** ** What the scanner returns on scalar text is well formed *)

Lemma scan_once_wf_step (f : nat) :
  scanner_wf f ->
  forall s v r,
    scan_once (S f) s = Some (v, r) -> scalar_text s ->
    wf v /\ scalar_text r.
Proof.
  intros [IHs [IHa IHo]] s v r H Hs.
  destruct s as [| c s']; [discriminate H |].
  assert (Hs' : scalar_text s') by (inversion Hs; assumption).
  cbn [scan_once] in H.
  destruct (c =? 34).
  { destruct (scanstring s' []) as [[x r'] |] eqn:E; [| discriminate H].
    injection H as <- <-.
    destruct (scanstring_wf s' x r' E Hs') as [Hx Hr].
    split; [apply wf_str; exact Hx | exact Hr]. }
  destruct (c =? 123).
  { destruct (skip_ws s') as [| c1 s1] eqn:E; [discriminate H |].
    destruct (skip_ws_tail_scalar s' c1 s1 Hs' E) as [_ Hs1].
    destruct (c1 =? 125).
    - injection H as <- <-. split; [| exact Hs1].
      apply wf_dict; constructor.
    - destruct (c1 =? 34); [| discriminate H].
      exact (IHo s1 [] v r H Hs1 (Forall_nil _)). }
  destruct (c =? 91).
  { destruct (skip_ws s') as [| c1 s1] eqn:E; [discriminate H |].
    destruct (skip_ws_tail_scalar s' c1 s1 Hs' E) as [Hc1 Hs1].
    destruct (c1 =? 93).
    - injection H as <- <-. split; [| exact Hs1].
      apply wf_list. constructor.
    - exact (IHa (c1 :: s1) [] v r H Hc1 (Forall_nil _)). }
  destruct ((c =? 110) && startswith (u "null") (c :: s')).
  { injection H as <- <-.
    split; [apply wf_null | exact (skipn_scalar 4 (c :: s') Hs)]. }
  destruct ((c =? 116) && startswith (u "true") (c :: s')).
  { injection H as <- <-.
    split; [apply wf_bool | exact (skipn_scalar 4 (c :: s') Hs)]. }
  destruct ((c =? 102) && startswith (u "false") (c :: s')).
  { injection H as <- <-.
    split; [apply wf_bool | exact (skipn_scalar 5 (c :: s') Hs)]. }
  destruct (match_number (c :: s')) as [[v' r'] |] eqn:E.
  { injection H as <- <-.
    destruct (match_number_spec _ _ _ E) as [[consumed Hc] Hv].
    split.
    - destruct Hv as [[z ->] | [lit [-> Hlit]]];
        [apply wf_int | apply wf_float; exact Hlit].
    - rewrite Hc in Hs. exact (suffix_scalar consumed r' Hs). }
  destruct ((c =? 78) && startswith (u "NaN") (c :: s')).
  { injection H as <- <-.
    split; [apply wf_float; exact float_literal_NaN
           | exact (skipn_scalar 3 (c :: s') Hs)]. }
  destruct ((c =? 73) && startswith (u "Infinity") (c :: s')).
  { injection H as <- <-.
    split; [apply wf_float; exact float_literal_Infinity
           | exact (skipn_scalar 8 (c :: s') Hs)]. }
  destruct ((c =? 45) && startswith (u "-Infinity") (c :: s'));
    [| discriminate H].
  injection H as <- <-.
  split; [apply wf_float; exact float_literal_minus_Infinity
         | exact (skipn_scalar 9 (c :: s') Hs)].
Qed.

Lemma array_loop_wf_step (f : nat) :
  scanner_wf f ->
  forall s values v r,
    array_loop (S f) s values = Some (v, r) -> scalar_text s ->
    Forall wf values -> wf v /\ scalar_text r.
Proof.
  intros [IHs [IHa IHo]] s values v r H Hs Hvalues.
  rewrite array_loop_eq in H.
  destruct (scan_once f s) as [[value s1] |] eqn:E; [| discriminate H].
  destruct (IHs s value s1 E Hs) as [Hvalue Hs1].
  destruct (skip_ws s1) as [| c s2] eqn:Ews; [discriminate H |].
  destruct (skip_ws_tail_scalar s1 c s2 Hs1 Ews) as [_ Hs2].
  destruct (c =? 93).
  - injection H as <- <-. split; [| exact Hs2].
    apply wf_list. change (Forall wf (rev (value :: values))).
    apply Forall_rev. constructor; assumption.
  - destruct (c =? 44); [| discriminate H].
    apply (IHa (skip_ws s2) (value :: values) v r H).
    + apply skip_ws_scalar. exact Hs2.
    + constructor; assumption.
Qed.

Lemma object_loop_wf_step (f : nat) :
  scanner_wf f ->
  forall s pairs v r,
    object_loop (S f) s pairs = Some (v, r) -> scalar_text s ->
    Forall entry_ok pairs -> wf v /\ scalar_text r.
Proof.
  intros [IHs [IHa IHo]] s pairs v r H Hs Hpairs.
  rewrite object_loop_eq in H.
  destruct (scanstring s []) as [[key s1] |] eqn:Ek; [| discriminate H].
  destruct (scanstring_wf s key s1 Ek Hs) as [Hkey Hs1].
  destruct (skip_ws s1) as [| c s2] eqn:E1; [discriminate H |].
  destruct (skip_ws_tail_scalar s1 c s2 Hs1 E1) as [_ Hs2].
  destruct (c =? 58); [| discriminate H].
  destruct (scan_once f (skip_ws s2)) as [[value s3] |] eqn:Ev;
    [| discriminate H].
  destruct (IHs _ value s3 Ev (skip_ws_scalar s2 Hs2)) as [Hvalue Hs3].
  destruct (skip_ws s3) as [| c1 s4] eqn:E3; [discriminate H |].
  destruct (skip_ws_tail_scalar s3 c1 s4 Hs3 E3) as [_ Hs4].
  assert (Hpairs' : Forall entry_ok ((key, value) :: pairs)).
  { constructor; [split; assumption | exact Hpairs]. }
  destruct (c1 =? 125).
  - injection H as <- <-. split; [| exact Hs4].
    exact (dict_of_pairs_wf (rev ((key, value) :: pairs))
             (Forall_rev Hpairs')).
  - destruct (c1 =? 44); [| discriminate H].
    destruct (skip_ws s4) as [| c2 s5] eqn:E4; [discriminate H |].
    destruct (skip_ws_tail_scalar s4 c2 s5 Hs4 E4) as [_ Hs5].
    destruct (c2 =? 34); [| discriminate H].
    exact (IHo s5 _ v r H Hs5 Hpairs').
Qed.

Lemma scanner_wf_all (fuel : nat) : scanner_wf fuel.
Proof.
  induction fuel as [| f IH].
  - repeat split; intros; discriminate.
  - split; [exact (scan_once_wf_step f IH) |].
    split; [exact (array_loop_wf_step f IH) | exact (object_loop_wf_step f IH)].
Qed.

(** What [loads] returns on scalar text is well formed. *)
Lemma loads_wf (s : str) (v : json) :
  loads s = Some v -> scalar_text s -> wf v.
Proof.
  unfold loads. intros H Hs.
  destruct (startswith [65279] s); [discriminate H |].
  destruct (scan_once (S (length s)) (skip_ws s)) as [[obj rest] |] eqn:E;
    [| discriminate H].
  destruct (skip_ws rest); [| discriminate H].
  injection H as <-.
  destruct (scanner_wf_all (S (length s))) as [Hscan _].
  exact (proj1 (Hscan _ _ _ E (skip_ws_scalar s Hs))).
Qed.

(** * Serializing what the transformation returns *)

(** ** The parts of scalar text are scalar text *)

Lemma lstrip_scalar (s : str) : scalar_text s -> scalar_text (lstrip s).
Proof.
  induction 1 as [| c s Hc Hs IH]; simpl; [constructor |].
  destruct (isspace c); [exact IH | constructor; assumption].
Qed.

Lemma strip_scalar (s : str) : scalar_text s -> scalar_text (strip s).
Proof.
  intros Hs. unfold strip, rstrip. apply Forall_rev. apply lstrip_scalar.
  apply Forall_rev. apply lstrip_scalar. exact Hs.
Qed.

Lemma startswith_skipn (p s : str) :
  startswith p s = true -> s = p ++ skipn (length p) s.
Proof.
  revert s. induction p as [| a p IH]; intros s H; [reflexivity |].
  destruct s as [| b s]; [discriminate H |].
  simpl in H. apply andb_true_iff in H as [Hab H].
  apply N.eqb_eq in Hab. subst b. simpl. f_equal. exact (IH s H).
Qed.

Lemma partition_parts (sep s a b : str) :
  partition sep s = Some (a, b) -> s = a ++ sep ++ b.
Proof.
  revert a b. induction s as [| c s IH]; intros a b; simpl.
  - destruct (startswith sep []) eqn:E; [| discriminate].
    intros H. injection H as <- <-. exact (startswith_skipn sep [] E).
  - destruct (startswith sep (c :: s)) eqn:E.
    + intros H. injection H as <- <-. exact (startswith_skipn sep (c :: s) E).
    + destruct (partition sep s) as [[a' b'] |]; [| discriminate].
      intros H. injection H as <- <-. rewrite (IH a' b' eq_refl). reflexivity.
Qed.

Lemma split_fuel_scalar (fuel : nat) (sep s : str) :
  scalar_text s -> Forall scalar_text (split_fuel fuel sep s).
Proof.
  revert s. induction fuel as [| fuel IH]; intros s Hs; simpl.
  - constructor; [exact Hs | constructor].
  - destruct (partition sep s) as [[a b] |] eqn:E.
    + apply partition_parts in E. subst s.
      apply Forall_app in Hs as [Ha Hs]. apply Forall_app in Hs as [_ Hb].
      constructor; [exact Ha | exact (IH b Hb)].
    + constructor; [exact Hs | constructor].
Qed.

Lemma index_Forall {A} (P : A -> Prop) (l : list A) (i : nat) (x : A) :
  Forall P l -> index l i = Return x -> P x.
Proof.
  intros Hl. unfold index. destruct (nth_error l i) as [y |] eqn:E;
    [| discriminate].
  intros H. injection H as <-.
  rewrite Forall_forall in Hl. apply Hl. exact (nth_error_In l i E).
Qed.

Lemma fenced_scalar (opening text json_str : str) :
  scalar_text text -> fenced opening text = Return json_str ->
  scalar_text json_str.
Proof.
  intros Ht. unfold fenced. intros H.
  apply bind_Return_inv in H as [after [Hafter H]].
  apply bind_Return_inv in H as [inner [Hinner H]].
  injection H as <-. apply strip_scalar.
  apply (index_Forall scalar_text _ _ _
           (split_fuel_scalar _ FENCE after
              (index_Forall scalar_text _ _ _
                 (split_fuel_scalar _ opening text Ht) Hafter))
           Hinner).
Qed.

Lemma json_loads_Return (s : str) (r : json) :
  json_loads s = Return r <-> loads s = Some r.
Proof.
  unfold json_loads. destruct (loads s) as [v |]; split; intros H;
    try discriminate H; injection H as <-; reflexivity.
Qed.

(** ** What the extractor returns is well formed *)

Lemma extract_json_wf (t : str) (r : json) :
  extract_json t = Return r -> scalar_text t -> wf r.
Proof.
  unfold extract_json. intros H Ht.
  destruct (json_loads t) as [v | e] eqn:E.
  - injection H as <-. apply json_loads_Return in E.
    exact (loads_wf t v E Ht).
  - destruct e; try discriminate H.
    destruct (py_in FENCE_JSON t).
    + apply bind_Return_inv in H as [json_str [Hf H]].
      apply json_loads_Return in H.
      exact (loads_wf _ r H (fenced_scalar _ _ _ Ht Hf)).
    + destruct (py_in FENCE t); [| discriminate H].
      apply bind_Return_inv in H as [json_str [Hf H]].
      apply json_loads_Return in H.
      exact (loads_wf _ r H (fenced_scalar _ _ _ Ht Hf)).
Qed.

Lemma transform_skill_wf
  (client : model_client) (skill : skill_record) (text : str) (r : json) :
  model_text client skill = Return text -> scalar_text text ->
  transform_skill client skill = Return r ->
  wf r.
Proof.
  intros Ht Hs H. apply transform_skill_Return_iff in H as [Hc _].
  rewrite candidate_stages, Ht in Hc. simpl in Hc.
  exact (extract_json_wf _ r Hc (strip_scalar text Hs)).
Qed.

Lemma scalar_text_check (s : str) : forallb scalar s = true -> scalar_text s.
Proof.
  intros H. apply Forall_forall. intros c Hc.
  rewrite forallb_forall in H. exact (H c Hc).
Qed.

Lemma str_ok_check (s : str) :
  forallb (fun c => c <? 1114112) s && no_pair s = true -> str_ok s.
Proof.
  intros H. apply andb_true_iff in H as [H1 H2]. split; [| exact H2].
  apply Forall_forall. intros c Hc. rewrite forallb_forall in H1.
  apply N.ltb_lt. exact (H1 c Hc).
Qed.

(** What a successful transformation returns is reparsed from its
    serialization as it is. *)
Lemma transform_skill_reparsed
  (client : model_client) (skill : skill_record) (text : str) (r : json) :
  model_text client skill = Return text -> scalar_text text ->
  transform_skill client skill = Return r ->
  loads (dumps r) = Some r.
Proof.
  intros Ht Hs H. apply loads_dumps.
  exact (transform_skill_wf client skill text r Ht Hs H).
Qed.

(** The document [main] writes is reparsed as it is, with the skills it
    was given. *)
Lemma export_document_reparsed (transformed : list json) :
  Forall wf transformed ->
  loads (dumps (export_document transformed))
  = Some (export_document transformed).
Proof.
  intros H. apply loads_dumps. unfold export_document. apply wf_dict.
  - repeat constructor; simpl; intuition discriminate.
  - apply Forall_cons.
    { split; [| apply wf_str]; apply str_ok_check; vm_compute; reflexivity. }
    apply Forall_cons.
    { split; [| apply wf_str]; apply str_ok_check; vm_compute; reflexivity. }
    apply Forall_cons; [| apply Forall_nil].
    split; [apply str_ok_check; vm_compute; reflexivity |].
    apply wf_list. exact H.
Qed.

Lemma exported_skills_reparsed (transformed : list json) :
  Forall wf transformed ->
  exists document,
    json_loads (dumps (export_document transformed)) = Return document
    /\ member "skills" document = Some (JList transformed).
Proof.
  intros H. exists (export_document transformed). split.
  - apply json_loads_Return. exact (export_document_reparsed transformed H).
  - reflexivity.
Qed.

(** C7, as the code has it. A value returned by a successful
    transformation, the answer being scalar text, is a mapping whose
    [levels] entry maps each of the five level names to a sequence of at
    least two items, and it is serialized without loss: reparsing the
    serialization gives the value back. *)
Theorem returned_value_levels_and_roundtrip
  (client : model_client) (skill : skill_record) (text : str) (r : json) :
  model_text client skill = Return text -> scalar_text text ->
  transform_skill client skill = Return r ->
  levels_ok r /\ loads (dumps r) = Some r.
Proof.
  intros Ht Hs H. split.
  - apply transform_skill_Return_iff in H. tauto.
  - exact (transform_skill_reparsed client skill text r Ht Hs H).
Qed.

Lemma returned_value_levels_and_roundtrip_witness :
  exists text r,
    model_text
      (Sample.answers (json_fenced (Sample.skill_text "ESCOXXX" 2 2 2 2 2)))
      Sample.data_visualization = Return text
    /\ scalar_text text
    /\ transform_skill
         (Sample.answers (json_fenced (Sample.skill_text "ESCOXXX" 2 2 2 2 2)))
         Sample.data_visualization = Return r
    /\ levels_ok r /\ loads (dumps r) = Some r.
Proof.
  eexists. eexists.
  split; [vm_compute; reflexivity |].
  split; [apply scalar_text_check; vm_compute; reflexivity |].
  split; [vm_compute; reflexivity |].
  eapply (returned_value_levels_and_roundtrip
           (Sample.answers (json_fenced (Sample.skill_text "ESCOXXX" 2 2 2 2 2)))
           Sample.data_visualization).
  - vm_compute. reflexivity.
  - apply scalar_text_check. vm_compute. reflexivity.
  - vm_compute. reflexivity.
Defined.

(** C7 fails as stated: an answer that holds only the [levels] mapping is
    returned, and it has no [name]. *)
Lemma returned_value_without_name :
  exists r,
    transform_skill (Sample.answers Sample.levels_only_text)
      Sample.data_visualization = Return r
    /\ member "name" r = None
    /\ ~ wire_shape r.
Proof.
  eexists. split; [vm_compute; reflexivity |].
  split; [vm_compute; reflexivity |].
  intros [[s Hs] _]. vm_compute in Hs. discriminate Hs.
Qed.

(** * Serializing and reparsing any value *)

(** ** Strings *)

Lemma high_half_high (c : N) : is_high_surrogate (high_half c) = true.
Proof.
  unfold high_half.
  pose proof (land_1023_bound (N.shiftr (c - 65536) 10)) as Hb.
  replace (N.land (N.shiftr (c - 65536) 10) 1023)
    with (N.land (N.land (N.shiftr (c - 65536) 10) 1023) 1023)
    by (rewrite <- N.land_assoc, N.land_diag; reflexivity).
  rewrite (lor_high_base _ Hb). unfold is_high_surrogate.
  apply andb_true_iff. split; apply N.leb_le; lia.
Qed.

Lemma low_half_low (c : N) : is_low_surrogate (low_half c) = true.
Proof.
  rewrite low_half_eq. pose proof (land_1023_bound (c - 65536)) as Hb.
  unfold is_low_surrogate. apply andb_true_iff. split; apply N.leb_le; lia.
Qed.

Lemma encode_char_escape (c : N) :
  127 <= c -> c < 65536 -> encode_char c = u_escape c.
Proof.
  intros H1 H2. unfold encode_char.
  destruct (N.eqb_spec c 34); [lia |]. destruct (N.eqb_spec c 92); [lia |].
  destruct (N.eqb_spec c 10); [lia |]. destruct (N.eqb_spec c 13); [lia |].
  destruct (N.eqb_spec c 9); [lia |]. destruct (N.eqb_spec c 8); [lia |].
  destruct (N.eqb_spec c 12); [lia |].
  destruct (N.leb_spec c 126); [lia |]. rewrite andb_false_r.
  destruct (N.ltb_spec c 65536); [reflexivity | lia].
Qed.

Lemma encode_char_big (c : N) :
  65536 <= c -> encode_char c = u_escape (high_half c) ++ u_escape (low_half c).
Proof.
  intros H. unfold encode_char.
  destruct (N.eqb_spec c 34); [lia |]. destruct (N.eqb_spec c 92); [lia |].
  destruct (N.eqb_spec c 10); [lia |]. destruct (N.eqb_spec c 13); [lia |].
  destruct (N.eqb_spec c 9); [lia |]. destruct (N.eqb_spec c 8); [lia |].
  destruct (N.eqb_spec c 12); [lia |].
  destruct (N.leb_spec c 126); [lia |]. rewrite andb_false_r.
  destruct (N.ltb_spec c 65536); [lia | reflexivity].
Qed.

Lemma scanstring_surrogates (hi lo : N) (x acc : str) :
  is_high_surrogate hi = true -> is_low_surrogate lo = true ->
  scanstring (u_escape hi ++ u_escape lo ++ x) acc
  = scanstring x (join_surrogates hi lo :: acc).
Proof.
  intros Hhi Hlo. unfold u_escape. cbn [app].
  apply scanstring_pair.
  - apply u_escape_hex4. apply high_is_code_unit. exact Hhi.
  - exact Hhi.
  - apply u_escape_hex4. apply low_is_code_unit. exact Hlo.
  - exact Hlo.
Qed.

Lemma surrogate_escape (c : N) :
  is_high_surrogate c = true \/ is_low_surrogate c = true ->
  encode_char c = u_escape c.
Proof.
  unfold is_high_surrogate, is_low_surrogate.
  rewrite !andb_true_iff, !N.leb_le. intros H.
  apply encode_char_escape; lia.
Qed.

Lemma big_safe_after_high (c : N) (x : str) :
  65536 <= c -> safe_after_high (encode_char c ++ x) = true.
Proof.
  intros H. rewrite (encode_char_big c H). unfold u_escape. simpl.
  rewrite (u_escape_hex4 _ (high_is_code_unit _ (high_half_high c))).
  rewrite (high_is_not_low _ (high_half_high c)). reflexivity.
Qed.

Lemma encoding_ahead_safe (l : N) (x : str) :
  is_low_surrogate l = false -> safe_after_high (encode_char l ++ x) = true.
Proof.
  intros Hl. destruct (N.ltb_spec l 65536) as [Hlt | Hge].
  - apply (encoding_safe_after_high l); [| exact Hl].
    apply encode_char_class. lia.
  - apply big_safe_after_high. exact Hge.
Qed.

Lemma scanstring_reread (n : nat) :
  forall s rest acc,
    (length s <= n)%nat ->
    scanstring (flat_map encode_char s ++ 34 :: rest) acc
    = Some (rev acc ++ reread_str s, rest).
Proof.
  induction n as [| n IH]; intros s rest acc Hlen.
  { destruct s; [| simpl in Hlen; lia]. simpl. rewrite app_nil_r. reflexivity. }
  destruct s as [| c s1].
  { simpl. rewrite app_nil_r. reflexivity. }
  cbn [length] in Hlen.
  change (flat_map encode_char (c :: s1))
    with (encode_char c ++ flat_map encode_char s1).
  rewrite <- app_assoc. cbn [reread_str].
  destruct (N.ltb_spec c 65536) as [Hlt | Hge].
  - destruct s1 as [| l s2].
    + change (flat_map encode_char [] ++ 34 :: rest) with (34 :: rest).
      rewrite (encoding_reads_back c _ _ acc
                 (encode_char_class c ltac:(lia))
                 (fun _ => quote_safe_after_high rest)).
      reflexivity.
    + cbn [length] in Hlen.
      change (flat_map encode_char (l :: s2))
        with (encode_char l ++ flat_map encode_char s2).
      destruct (is_high_surrogate c) eqn:Hc;
        [destruct (is_low_surrogate l) eqn:Hl |]; cbn [andb].
      * rewrite (surrogate_escape c (or_introl Hc)).
        rewrite (surrogate_escape l (or_intror Hl)).
        rewrite <- !app_assoc.
        rewrite (scanstring_surrogates c l _ acc Hc Hl).
        rewrite (IH s2 rest _ ltac:(lia)).
        simpl. rewrite <- app_assoc. reflexivity.
      * rewrite <- app_assoc.
        rewrite (encoding_reads_back c _ _ acc
                   (encode_char_class c ltac:(lia))
                   (fun _ => encoding_ahead_safe l _ Hl)).
        rewrite app_assoc.
        change (encode_char l ++ flat_map encode_char s2)
          with (flat_map encode_char (l :: s2)).
        rewrite (IH (l :: s2) rest _ ltac:(simpl; lia)).
        simpl. rewrite <- app_assoc. reflexivity.
      * rewrite <- app_assoc.
        rewrite (encoding_reads_back c _ _ acc
                   (encode_char_class c ltac:(lia))).
        2:{ intros H. congruence. }
        rewrite app_assoc.
        change (encode_char l ++ flat_map encode_char s2)
          with (flat_map encode_char (l :: s2)).
        rewrite (IH (l :: s2) rest _ ltac:(simpl; lia)).
        simpl. rewrite <- app_assoc. reflexivity.
  - rewrite (encode_char_big c Hge). rewrite <- app_assoc.
    rewrite (scanstring_surrogates _ _ _ acc
               (high_half_high c) (low_half_low c)).
    rewrite (IH s1 rest _ ltac:(lia)).
    simpl. rewrite <- app_assoc. reflexivity.
Qed.

Lemma scanstring_encoded_any (s rest acc : str) :
  scanstring (flat_map encode_char s ++ 34 :: rest) acc
  = Some (rev acc ++ reread_str s, rest).
Proof. exact (scanstring_reread (length s) s rest acc (le_n _)). Qed.

(** ** Values *)

Lemma wf_parsed (v : json) : wf v -> parsed v.
Proof.
  induction v as [| b | z | lit | s | items IH | d IH] using json_induction;
    intros Hwf.
  - apply parsed_null.
  - apply parsed_bool.
  - apply parsed_int.
  - inversion Hwf as [| | | lit' Hlit | | |]; subst.
    apply parsed_float. exact Hlit.
  - apply parsed_str.
  - inversion Hwf as [| | | | | items' Hitems |]; subst.
    apply parsed_list. apply Forall_forall. intros x Hx.
    rewrite Forall_forall in IH, Hitems. exact (IH x Hx (Hitems x Hx)).
  - inversion Hwf as [| | | | | | d' Hnd Hd]; subst.
    apply parsed_dict; [exact Hnd |]. apply Forall_forall. intros kv Hkv.
    rewrite Forall_forall in IH, Hd. exact (IH kv Hkv (proj2 (Hd kv Hkv))).
Qed.

Lemma encode_head_parsed (level : nat) (v : json) :
  parsed v -> exists c t, encode level v = c :: t /\ value_start c.
Proof.
  intros Hp. destruct v as [| [|] | z | lit | s | [| x items] | [| kv d]];
    try (eexists; eexists; split; [reflexivity | repeat split]).
  - destruct z as [| p | p].
    + eexists; eexists; split; [reflexivity | repeat split].
    + destruct (str_of_N_head (Npos p)) as [c [t [E Hc]]].
      exists c, t. split; [exact E | apply digit_value_start; exact Hc].
    + eexists; eexists; split; [reflexivity | repeat split].
  - inversion Hp as [| | | lit' Hlit | | |]; subst.
    exact (float_literal_head lit Hlit).
Qed.

Lemma join_items_head_parsed (level : nat) (x : json) (items : list json)
  (rest : str) :
  parsed x ->
  exists c t,
    join_items level (map (encode level) (x :: items)) ++ rest = c :: t
    /\ value_start c.
Proof.
  intros Hx. destruct (encode_head_parsed level x Hx) as [c [t [E Hc]]].
  destruct items as [| y items]; simpl; rewrite E; simpl; eauto.
Qed.

Lemma array_loop_reread (level : nat) (items : list json) :
  items <> [] -> Forall parsed items -> Forall rereads items ->
  forall fuel values rest,
    (items_size items <= fuel)%nat ->
    array_loop fuel
      (join_items (S level) (map (encode (S level)) items)
       ++ newline_indent level ++ 93 :: rest) values
    = Some (JList (rev values ++ map reread items), rest).
Proof.
  induction items as [| x items IH]; [congruence |].
  intros _ Hwf Hrb fuel values rest Hfuel.
  inversion Hwf as [| ? ? Hwx Hwitems]; subst.
  inversion Hrb as [| ? ? Hx Hitems]; subst.
  destruct fuel as [| f]; [simpl in Hfuel; lia |].
  simpl in Hfuel. rewrite array_loop_eq.
  destruct items as [| y more].
  - change (join_items (S level) (map (encode (S level)) [x]))
      with (encode (S level) x).
    rewrite (Hx (S level) (newline_indent level ++ 93 :: rest) f);
      [| lia | simpl; right; reflexivity].
    rewrite (skip_ws_closing level 93 rest eq_refl).
    change (93 =? 93) with true. cbv iota.
    reflexivity.
  - change (join_items (S level) (map (encode (S level)) (x :: y :: more)))
      with (encode (S level) x ++ [44] ++ newline_indent (S level)
            ++ join_items (S level) (map (encode (S level)) (y :: more))).
    replace ((encode (S level) x ++ [44] ++ newline_indent (S level)
              ++ join_items (S level) (map (encode (S level)) (y :: more)))
             ++ newline_indent level ++ 93 :: rest)
      with (encode (S level) x
            ++ 44 :: newline_indent (S level)
            ++ (join_items (S level) (map (encode (S level)) (y :: more))
                ++ newline_indent level ++ 93 :: rest))
      by (repeat rewrite <- app_assoc; reflexivity).
    rewrite (Hx (S level) _ f); [| lia | simpl; left; reflexivity].
    rewrite (skip_ws_stop 44 _ eq_refl).
    change (44 =? 93) with false. change (44 =? 44) with true. cbv iota.
    rewrite skip_ws_indent.
    inversion Hwitems as [| ? ? Hwy Hwmore]; subst.
    destruct (join_items_head_parsed (S level) y more
                (newline_indent level ++ 93 :: rest) Hwy)
      as [c [t [E [Hc _]]]].
    rewrite E, (skip_ws_stop c t Hc), <- E.
    rewrite (IH ltac:(discriminate) Hwitems Hitems f (reread x :: values) rest);
      [| simpl; simpl in Hfuel; lia].
    cbn [rev map]. rewrite <- app_assoc. reflexivity.
Qed.

Lemma object_loop_reread (level : nat) (d : dict json) :
  d <> [] ->
  Forall (fun kv => parsed (snd kv)) d ->
  Forall (fun kv => rereads (snd kv)) d ->
  forall fuel pairs rest,
    (dict_size d <= fuel)%nat ->
    object_loop fuel
      (entries_tail (S level) d ++ newline_indent level ++ 125 :: rest) pairs
    = Some (JDict (dict_of_pairs (rev pairs ++ map reread_item d)), rest).
Proof.
  induction d as [| [k x] d IH]; [congruence |].
  intros _ Hwf Hrb fuel pairs rest Hfuel.
  inversion Hwf as [| ? ? Hwx Hwd]; subst.
  inversion Hrb as [| ? ? Hx Hd]; subst.
  simpl in Hwx, Hx.
  destruct fuel as [| f]; [simpl in Hfuel; lia |].
  simpl in Hfuel. rewrite object_loop_eq.
  cbn [entries_tail].
  repeat rewrite <- app_assoc.
  change ([34; 58; 32] ++ ?y) with (34 :: 58 :: 32 :: y).
  rewrite (scanstring_encoded_any k). cbn [rev app].
  rewrite (skip_ws_stop 58 _ eq_refl).
  change (58 =? 58) with true. cbv iota.
  change (skip_ws (32 :: ?y)) with (skip_ws y).
  destruct (encode_head_parsed (S level) x Hwx) as [c [t [E [Hc _]]]].
  destruct d as [| kv' d'].
  - rewrite E. cbn [app]. rewrite (skip_ws_stop c _ Hc).
    change (c :: t ++ newline_indent level ++ 125 :: rest)
      with ((c :: t) ++ newline_indent level ++ 125 :: rest).
    rewrite <- E.
    rewrite (Hx (S level) (newline_indent level ++ 125 :: rest) f);
      [| lia | simpl; right; reflexivity].
    rewrite (skip_ws_closing level 125 rest eq_refl).
    change (125 =? 125) with true. cbv iota.
    reflexivity.
  - repeat rewrite <- app_assoc.
    change ([44] ++ ?y) with (44 :: y).
    rewrite E. cbn [app]. rewrite (skip_ws_stop c _ Hc).
    match goal with
    | |- context [scan_once f (c :: t ++ ?r)] =>
        change (c :: t ++ r) with ((c :: t) ++ r)
    end.
    rewrite <- E.
    rewrite (Hx (S level) _ f); [| lia | simpl; left; reflexivity].
    rewrite (skip_ws_stop 44 _ eq_refl).
    change (44 =? 125) with false. change (44 =? 44) with true. cbv iota.
    rewrite <- app_assoc, skip_ws_indent.
    change ((34 :: entries_tail (S level) (kv' :: d'))
            ++ newline_indent level ++ 125 :: rest)
      with (34 :: (entries_tail (S level) (kv' :: d')
                   ++ newline_indent level ++ 125 :: rest)).
    rewrite (skip_ws_stop 34 _ eq_refl).
    change (34 =? 34) with true. cbv iota.
    rewrite (IH ltac:(discriminate) Hwd Hd f
               ((reread_str k, reread x) :: pairs) rest);
      [| simpl; simpl in Hfuel; lia].
    cbn [rev map]. rewrite <- app_assoc. reflexivity.
Qed.

Lemma reread_dict (d : dict json) :
  reread (JDict d) = JDict (dict_of_pairs (map reread_item d)).
Proof.
  cbn [reread]. f_equal. f_equal. apply map_ext. intros [k x]. reflexivity.
Qed.

Lemma encoded_rereads (v : json) : parsed v -> rereads v.
Proof.
  induction v as [| b | z | lit | s | items IH | d IH] using json_induction;
    intros Hwf level rest fuel Hfuel Hrest;
    (destruct fuel as [| f]; [simpl in Hfuel; lia |]).
  - reflexivity.
  - destruct b; reflexivity.
  - destruct (str_of_Z_head z) as [c [t [E Hc]]].
    pose proof (match_number_int z rest Hrest) as Hm.
    cbn [encode reread]. rewrite E in *. apply scan_once_number; assumption.
  - inversion Hwf as [| | | lit' Hlit | | |]; subst.
    apply Hlit. exact Hrest.
  - cbn [encode reread]. unfold encode_basestring_ascii.
    change ((34 :: flat_map encode_char s ++ [34]) ++ rest)
      with (34 :: ((flat_map encode_char s ++ [34]) ++ rest)).
    rewrite <- app_assoc. rewrite scan_once_string.
    change ([34] ++ rest) with (34 :: rest).
    rewrite (scanstring_encoded_any s). reflexivity.
  - inversion Hwf as [| | | | | items' Hitems |]; subst.
    destruct items as [| x items]; [reflexivity |].
    change (encode level (JList (x :: items)))
      with ([91] ++ newline_indent (S level)
            ++ join_items (S level) (map (encode (S level)) (x :: items))
            ++ newline_indent level ++ [93]).
    repeat rewrite <- app_assoc.
    change ([91] ++ ?y) with (91 :: y). change ([93] ++ rest) with (93 :: rest).
    rewrite scan_once_array, skip_ws_indent.
    inversion Hitems as [| ? ? Hwx Hwitems]; subst.
    destruct (join_items_head_parsed (S level) x items
                (newline_indent level ++ 93 :: rest) Hwx)
      as [c [t [E [Hc [Hc93 _]]]]].
    rewrite E, (skip_ws_stop c t Hc), Hc93, <- E.
    assert (Hall : Forall rereads (x :: items)).
    { apply Forall_forall. intros y Hy.
      rewrite Forall_forall in IH, Hitems. exact (IH y Hy (Hitems y Hy)). }
    rewrite (array_loop_reread level (x :: items) ltac:(discriminate)
               Hitems Hall f [] rest); [reflexivity |].
    change (size (JList (x :: items)))
      with (S (items_size (x :: items))) in Hfuel. lia.
  - inversion Hwf as [| | | | | | d' Hnd Hd]; subst.
    rewrite reread_dict.
    destruct d as [| kv d]; [reflexivity |].
    change (encode level (JDict (kv :: d)))
      with ([123] ++ newline_indent (S level)
            ++ join_items (S level)
                 (map (fun kv => match kv with
                                 | (k, x) =>
                                     encode_basestring_ascii k ++ [58; 32]
                                     ++ encode (S level) x
                                 end) (kv :: d))
            ++ newline_indent level ++ [125]).
    rewrite join_entries.
    repeat rewrite <- app_assoc.
    change ([123] ++ ?y) with (123 :: y).
    change ([125] ++ rest) with (125 :: rest).
    rewrite scan_once_object, skip_ws_indent.
    change ((34 :: entries_tail (S level) (kv :: d))
            ++ newline_indent level ++ 125 :: rest)
      with (34 :: (entries_tail (S level) (kv :: d)
                   ++ newline_indent level ++ 125 :: rest)).
    rewrite (skip_ws_stop 34 _ eq_refl).
    change (34 =? 125) with false. change (34 =? 34) with true. cbv iota.
    assert (Hall : Forall (fun kv => rereads (snd kv)) (kv :: d)).
    { apply Forall_forall. intros y Hy.
      rewrite Forall_forall in IH, Hd. apply (IH y Hy). apply (Hd y Hy). }
    rewrite (object_loop_reread level (kv :: d) ltac:(discriminate)
               Hd Hall f [] rest).
    + reflexivity.
    + change (size (JDict (kv :: d)))
        with (S (dict_size (kv :: d))) in Hfuel. lia.
Qed.

Lemma size_le_length_parsed (v : json) :
  parsed v -> forall level, (size v <= length (encode level v))%nat.
Proof.
  induction v as [| b | z | lit | s | items IH | d IH] using json_induction;
    intros Hwf level.
  - simpl. lia.
  - destruct b; simpl; lia.
  - destruct (str_of_Z_head z) as [c [t [E _]]].
    cbn [encode size]. rewrite E. simpl. lia.
  - destruct (encode_head_parsed level (JFloat lit) Hwf) as [c [t [E _]]].
    rewrite E. simpl. lia.
  - simpl. lia.
  - inversion Hwf as [| | | | | items' Hitems |]; subst.
    destruct items as [| x items]; [simpl; lia |].
    change (encode level (JList (x :: items)))
      with ([91] ++ newline_indent (S level)
            ++ join_items (S level) (map (encode (S level)) (x :: items))
            ++ newline_indent level ++ [93]).
    change (size (JList (x :: items))) with (S (items_size (x :: items))).
    rewrite !length_app.
    pose proof (join_items_length (S level)
                  (map (encode (S level)) (x :: items))) as Hj.
    assert (Hs : (items_size (x :: items)
                  <= chunk_sum (map (encode (S level)) (x :: items)))%nat).
    { apply items_size_chunks. apply Forall_forall. intros y Hy.
      rewrite Forall_forall in IH, Hitems. exact (IH y Hy (Hitems y Hy) _). }
    change (length [91]) with 1%nat. change (length [93]) with 1%nat. lia.
  - inversion Hwf as [| | | | | | d' Hnd Hd]; subst.
    destruct d as [| kv d]; [simpl; lia |].
    change (encode level (JDict (kv :: d)))
      with ([123] ++ newline_indent (S level)
            ++ join_items (S level)
                 (map (fun kv => match kv with
                                 | (k, x) =>
                                     encode_basestring_ascii k ++ [58; 32]
                                     ++ encode (S level) x
                                 end) (kv :: d))
            ++ newline_indent level ++ [125]).
    change (size (JDict (kv :: d))) with (S (dict_size (kv :: d))).
    rewrite !length_app.
    match goal with
    | |- context [join_items (S level) (map ?f (kv :: d))] =>
        pose proof (join_items_length (S level) (map f (kv :: d))) as Hj;
        assert (Hs : (dict_size (kv :: d) <= chunk_sum (map f (kv :: d)))%nat)
    end.
    { apply dict_size_chunks. apply Forall_forall. intros [k x] Hy.
      rewrite Forall_forall in IH, Hd.
      specialize (IH (k, x) Hy). specialize (Hd (k, x) Hy).
      simpl in IH, Hd.
      specialize (IH Hd (S level)).
      simpl snd. rewrite !length_app. lia. }
    change (length [123]) with 1%nat. change (length [125]) with 1%nat. lia.
Qed.

(** Serializing a parsed value and reparsing gives the value reread. *)
Lemma loads_dumps_reread (v : json) :
  parsed v -> loads (dumps v) = Some (reread v).
Proof.
  intros Hwf. unfold loads, dumps.
  destruct (encode_head_parsed 0 v Hwf) as [c [t [E [Hws [_ Hbom]]]]].
  pose proof (encoded_rereads v Hwf 0%nat [] (S (length (encode 0 v)))) as H.
  rewrite app_nil_r in H.
  rewrite E in *.
  cbn [startswith]. rewrite N.eqb_sym, Hbom. cbn [andb].
  rewrite (skip_ws_stop c t Hws), H.
  - reflexivity.
  - rewrite <- E. pose proof (size_le_length_parsed v Hwf 0%nat). lia.
  - exact I.
Qed.

(** ** What the scanner builds from any text *)

Lemma dict_set_parsed (d : dict json) (k : str) (v : json) :
  Forall (fun kv => parsed (snd kv)) d -> parsed v ->
  Forall (fun kv => parsed (snd kv)) (dict_set d k v).
Proof.
  intros Hd Hv. induction Hd as [| [k' v'] d Hk' Hd IH]; simpl.
  - constructor; [exact Hv | constructor].
  - destruct (str_eqb k' k); constructor; assumption.
Qed.

Lemma dict_of_pairs_parsed (pairs : list (str * json)) :
  Forall (fun kv => parsed (snd kv)) pairs ->
  parsed (JDict (dict_of_pairs pairs)).
Proof.
  intros Hpairs. unfold dict_of_pairs.
  assert (H : forall acc,
             NoDup (map fst acc) -> Forall (fun kv => parsed (snd kv)) acc ->
             let d := fold_left (fun d kv => dict_set d (fst kv) (snd kv))
                        pairs acc in
             NoDup (map fst d) /\ Forall (fun kv => parsed (snd kv)) d).
  { induction Hpairs as [| [k v] pairs Hkv _ IH]; intros acc Hnd Hacc; simpl.
    - split; assumption.
    - apply IH; [apply dict_set_NoDup; exact Hnd
                | apply dict_set_parsed; assumption]. }
  destruct (H [] (NoDup_nil _) (Forall_nil _)) as [Hnd Hall].
  apply parsed_dict; assumption.
Qed.

Lemma scan_once_parsed_step (f : nat) :
  scanner_parsed f ->
  forall s v r, scan_once (S f) s = Some (v, r) -> parsed v.
Proof.
  intros [IHs [IHa IHo]] s v r H.
  destruct s as [| c s']; [discriminate H |].
  cbn [scan_once] in H.
  destruct (c =? 34).
  { destruct (scanstring s' []) as [[x r'] |]; [| discriminate H].
    injection H as <- <-. apply parsed_str. }
  destruct (c =? 123).
  { destruct (skip_ws s') as [| c1 s1]; [discriminate H |].
    destruct (c1 =? 125).
    - injection H as <- <-. apply parsed_dict; constructor.
    - destruct (c1 =? 34); [| discriminate H].
      exact (IHo s1 [] v r H (Forall_nil _)). }
  destruct (c =? 91).
  { destruct (skip_ws s') as [| c1 s1]; [discriminate H |].
    destruct (c1 =? 93).
    - injection H as <- <-. apply parsed_list. constructor.
    - exact (IHa (c1 :: s1) [] v r H (Forall_nil _)). }
  destruct ((c =? 110) && startswith (u "null") (c :: s')).
  { injection H as <- <-. apply parsed_null. }
  destruct ((c =? 116) && startswith (u "true") (c :: s')).
  { injection H as <- <-. apply parsed_bool. }
  destruct ((c =? 102) && startswith (u "false") (c :: s')).
  { injection H as <- <-. apply parsed_bool. }
  destruct (match_number (c :: s')) as [[v' r'] |] eqn:E.
  { injection H as <- <-.
    destruct (match_number_spec _ _ _ E) as [_ Hv].
    destruct Hv as [[z ->] | [lit [-> Hlit]]];
      [apply parsed_int | apply parsed_float; exact Hlit]. }
  destruct ((c =? 78) && startswith (u "NaN") (c :: s')).
  { injection H as <- <-. apply parsed_float. exact float_literal_NaN. }
  destruct ((c =? 73) && startswith (u "Infinity") (c :: s')).
  { injection H as <- <-. apply parsed_float. exact float_literal_Infinity. }
  destruct ((c =? 45) && startswith (u "-Infinity") (c :: s'));
    [| discriminate H].
  injection H as <- <-. apply parsed_float. exact float_literal_minus_Infinity.
Qed.

Lemma array_loop_parsed_step (f : nat) :
  scanner_parsed f ->
  forall s values v r,
    array_loop (S f) s values = Some (v, r) ->
    Forall parsed values -> parsed v.
Proof.
  intros [IHs [IHa IHo]] s values v r H Hvalues.
  rewrite array_loop_eq in H.
  destruct (scan_once f s) as [[value s1] |] eqn:E; [| discriminate H].
  pose proof (IHs s value s1 E) as Hvalue.
  destruct (skip_ws s1) as [| c s2]; [discriminate H |].
  destruct (c =? 93).
  - injection H as <- <-.
    apply parsed_list. change (Forall parsed (rev (value :: values))).
    apply Forall_rev. constructor; assumption.
  - destruct (c =? 44); [| discriminate H].
    apply (IHa (skip_ws s2) (value :: values) v r H).
    constructor; assumption.
Qed.

Lemma object_loop_parsed_step (f : nat) :
  scanner_parsed f ->
  forall s pairs v r,
    object_loop (S f) s pairs = Some (v, r) ->
    Forall (fun kv => parsed (snd kv)) pairs -> parsed v.
Proof.
  intros [IHs [IHa IHo]] s pairs v r H Hpairs.
  rewrite object_loop_eq in H.
  destruct (scanstring s []) as [[key s1] |]; [| discriminate H].
  destruct (skip_ws s1) as [| c s2]; [discriminate H |].
  destruct (c =? 58); [| discriminate H].
  destruct (scan_once f (skip_ws s2)) as [[value s3] |] eqn:Ev;
    [| discriminate H].
  pose proof (IHs _ value s3 Ev) as Hvalue.
  destruct (skip_ws s3) as [| c1 s4]; [discriminate H |].
  assert (Hpairs' : Forall (fun kv => parsed (snd kv)) ((key, value) :: pairs)).
  { constructor; [exact Hvalue | exact Hpairs]. }
  destruct (c1 =? 125).
  - injection H as <- <-.
    exact (dict_of_pairs_parsed (rev ((key, value) :: pairs))
             (Forall_rev Hpairs')).
  - destruct (c1 =? 44); [| discriminate H].
    destruct (skip_ws s4) as [| c2 s5]; [discriminate H |].
    destruct (c2 =? 34); [| discriminate H].
    exact (IHo s5 _ v r H Hpairs').
Qed.

Lemma scanner_parsed_all (fuel : nat) : scanner_parsed fuel.
Proof.
  induction fuel as [| f IH].
  - repeat split; intros; discriminate.
  - split; [exact (scan_once_parsed_step f IH) |].
    split; [exact (array_loop_parsed_step f IH)
           | exact (object_loop_parsed_step f IH)].
Qed.

(** What [loads] returns, on any text, is a parsed value. *)
Lemma loads_parsed (s : str) (v : json) : loads s = Some v -> parsed v.
Proof.
  unfold loads. intros H.
  destruct (startswith [65279] s); [discriminate H |].
  destruct (scan_once (S (length s)) (skip_ws s)) as [[obj rest] |] eqn:E;
    [| discriminate H].
  destruct (skip_ws rest); [| discriminate H].
  injection H as <-.
  destruct (scanner_parsed_all (S (length s))) as [Hscan _].
  exact (Hscan _ _ _ E).
Qed.

Lemma extract_json_parsed (t : str) (r : json) :
  extract_json t = Return r -> parsed r.
Proof.
  unfold extract_json. intros H.
  destruct (json_loads t) as [v | e] eqn:E.
  - injection H as <-. apply json_loads_Return in E.
    exact (loads_parsed t v E).
  - destruct e; try discriminate H.
    destruct (py_in FENCE_JSON t).
    + apply bind_Return_inv in H as [json_str [Hf H]].
      apply json_loads_Return in H. exact (loads_parsed _ r H).
    + destruct (py_in FENCE t); [| discriminate H].
      apply bind_Return_inv in H as [json_str [Hf H]].
      apply json_loads_Return in H. exact (loads_parsed _ r H).
Qed.

Lemma transform_skill_parsed
  (client : model_client) (skill : skill_record) (r : json) :
  transform_skill client skill = Return r -> parsed r.
Proof.
  intros H. apply transform_skill_Return_iff in H as [Hc _].
  rewrite candidate_stages in Hc.
  apply bind_Return_inv in Hc as [text [_ Hc]].
  exact (extract_json_parsed (strip text) r Hc).
Qed.

(** ** The entries of a value reread *)

Lemma dict_find_app {A} (a b : dict A) (k : str) :
  dict_find (a ++ b) k
  = match dict_find a k with
    | Some v => Some v
    | None => dict_find b k
    end.
Proof.
  induction a as [| [k' v'] a IH]; simpl; [reflexivity |].
  destruct (str_eqb k' k); [reflexivity | exact IH].
Qed.

Lemma dict_find_dict_set {A} (d : dict A) (k : str) (v : A) (x : str) :
  dict_find (dict_set d k v) x
  = if str_eqb k x then Some v else dict_find d x.
Proof.
  induction d as [| [k' v'] d IH]; simpl.
  - reflexivity.
  - destruct (str_eqb k' k) eqn:E; simpl.
    + apply str_eqb_eq in E. subst k'.
      destruct (str_eqb k x); reflexivity.
    + destruct (str_eqb k' x) eqn:E'.
      * apply str_eqb_eq in E'. subst x.
        destruct (str_eqb k k') eqn:E''; [| reflexivity].
        apply str_eqb_eq in E''. subst k'.
        rewrite str_eqb_refl in E. discriminate E.
      * exact IH.
Qed.

(** A dict built from pairs holds, for a key, the value of the last pair
    with this key. *)
Lemma dict_find_fold (pairs acc : dict json) (k : str) :
  dict_find (fold_left (fun d kv => dict_set d (fst kv) (snd kv)) pairs acc) k
  = match dict_find (rev pairs) k with
    | Some v => Some v
    | None => dict_find acc k
    end.
Proof.
  revert acc. induction pairs as [| [k' v'] pairs IH]; intros acc.
  - reflexivity.
  - cbn [fold_left fst snd rev]. rewrite IH, dict_find_app, dict_find_dict_set.
    destruct (dict_find (rev pairs) k); [reflexivity |].
    simpl. destruct (str_eqb k' k); reflexivity.
Qed.

Lemma dict_find_of_pairs (pairs : dict json) (k : str) :
  dict_find (dict_of_pairs pairs) k = dict_find (rev pairs) k.
Proof.
  unfold dict_of_pairs. rewrite dict_find_fold.
  destruct (dict_find (rev pairs) k); reflexivity.
Qed.

Lemma dict_find_key {A} (d : dict A) (k : str) (v : A) :
  dict_find d k = Some v -> In k (map fst d).
Proof.
  induction d as [| [k' v'] d IH]; simpl; [discriminate |].
  destruct (str_eqb k' k) eqn:E.
  - apply str_eqb_eq in E. intros _. left. exact E.
  - intros H. right. exact (IH H).
Qed.

Lemma dict_find_In {A} (d : dict A) (k : str) (v : A) :
  dict_find d k = Some v -> In (k, v) d.
Proof.
  induction d as [| [k' v'] d IH]; simpl; [discriminate |].
  destruct (str_eqb k' k) eqn:E.
  - apply str_eqb_eq in E. intros H. injection H as <-. subst k'.
    left. reflexivity.
  - intros H. right. exact (IH H).
Qed.

(** In a dict with distinct keys, the first item with a key is the last
    one. *)
Lemma dict_find_rev {A} (d : dict A) (k : str) :
  NoDup (map fst d) -> dict_find (rev d) k = dict_find d k.
Proof.
  induction d as [| [k' v'] d IH]; intros Hnd; [reflexivity |].
  inversion Hnd as [| ? ? Hk' Hd]; subst.
  cbn [rev]. rewrite dict_find_app, (IH Hd). simpl.
  destruct (dict_find d k) as [v |] eqn:E.
  - destruct (str_eqb k' k) eqn:E'; [| reflexivity].
    apply str_eqb_eq in E'. subst k'.
    exfalso. apply Hk'. exact (dict_find_key d k v E).
  - destruct (str_eqb k' k); reflexivity.
Qed.

Lemma below_not_high (c : N) : c < 55296 -> is_high_surrogate c = false.
Proof.
  intros H. unfold is_high_surrogate. apply andb_false_iff. left.
  apply N.leb_gt. exact H.
Qed.

(** Text below the surrogates is reread as it is. *)
Lemma reread_str_below (k : str) : below_surrogates k -> reread_str k = k.
Proof.
  induction 1 as [| c s Hc Hs IH]; [reflexivity |].
  cbn [reread_str].
  destruct (N.ltb_spec c 65536) as [_ | Hge]; [| lia].
  destruct s as [| l s2]; [reflexivity |].
  rewrite (below_not_high c Hc). cbn [andb]. rewrite IH. reflexivity.
Qed.

(** Only such a text is reread as itself below the surrogates. *)
Lemma reread_str_plain (n : nat) :
  forall s k,
    (length s <= n)%nat ->
    reread_str s = k -> below_surrogates k -> s = k.
Proof.
  induction n as [| n IH]; intros s k Hlen E Hk.
  { destruct s; [| simpl in Hlen; lia]. exact E. }
  destruct s as [| c s1]; [exact E |].
  cbn [length] in Hlen. cbn [reread_str] in E.
  assert (Hpair : forall hi lo t,
             is_high_surrogate hi = true -> is_low_surrogate lo = true ->
             below_surrogates (join_surrogates hi lo :: t) -> False).
  { intros hi lo t Hhi Hlo Hb.
    inversion Hb as [| ? ? Hc _]; subst.
    pose proof (join_surrogates_range hi lo Hhi Hlo). lia. }
  destruct (c <? 65536).
  - destruct s1 as [| l s2]; [exact E |].
    destruct (is_high_surrogate c) eqn:Hc;
      [destruct (is_low_surrogate l) eqn:Hl |]; cbn [andb] in E.
    + exfalso. rewrite <- E in Hk. exact (Hpair c l _ Hc Hl Hk).
    + subst k. inversion Hk as [| ? ? _ Hk']; subst.
      f_equal. apply (IH (l :: s2) _ ltac:(simpl in *; lia) eq_refl Hk').
    + subst k. inversion Hk as [| ? ? _ Hk']; subst.
      f_equal. apply (IH (l :: s2) _ ltac:(simpl in *; lia) eq_refl Hk').
  - exfalso. rewrite <- E in Hk.
    exact (Hpair _ _ _ (high_half_high c) (low_half_low c) Hk).
Qed.

Lemma dict_find_reread_items (d : dict json) (k : str) :
  below_surrogates k ->
  dict_find (map reread_item d) k = option_map reread (dict_find d k).
Proof.
  intros Hk. induction d as [| [k' x] d IH]; [reflexivity |].
  cbn [map reread_item fst snd dict_find].
  destruct (str_eqb (reread_str k') k) eqn:E.
  - apply str_eqb_eq in E.
    pose proof (reread_str_plain (length k') k' k (le_n _) E Hk) as ->.
    rewrite str_eqb_refl. reflexivity.
  - destruct (str_eqb k' k) eqn:E'; [| exact IH].
    apply str_eqb_eq in E'. subst k'.
    rewrite (reread_str_below k Hk), str_eqb_refl in E. discriminate E.
Qed.

(** A key below the surrogates holds, in a dict reread, the value it
    held, reread. *)
Lemma dict_find_reread (d : dict json) (k : str) :
  NoDup (map fst d) -> below_surrogates k ->
  dict_find (dict_of_pairs (map reread_item d)) k
  = option_map reread (dict_find d k).
Proof.
  intros Hnd Hk.
  rewrite dict_find_of_pairs, <- map_rev, (dict_find_reread_items _ k Hk).
  rewrite (dict_find_rev d k Hnd). reflexivity.
Qed.

Lemma below_surrogates_check (k : str) :
  forallb (fun c => c <? 55296) k = true -> below_surrogates k.
Proof.
  intros H. apply Forall_forall. intros c Hc.
  rewrite forallb_forall in H. apply N.ltb_lt. exact (H c Hc).
Qed.

Lemma levels_below_surrogates (level : str) :
  In level LEVELS -> below_surrogates level.
Proof.
  intros H. apply below_surrogates_check.
  repeat (destruct H as [<- | H]; [reflexivity |]). destruct H.
Qed.

Lemma parsed_entry (d : dict json) (k : str) (x : json) :
  parsed (JDict d) -> dict_find d k = Some x -> parsed x.
Proof.
  intros Hp Hf. inversion Hp as [| | | | | | d' _ Hd]; subst.
  rewrite Forall_forall in Hd. exact (Hd (k, x) (dict_find_In d k x Hf)).
Qed.

(** The levels of a value that validates are those of the value reread,
    with as many statements each. *)
Lemma levels_ok_reread (r : json) : parsed r -> levels_ok r -> levels_ok (reread r).
Proof.
  intros Hp [by_level [Hl Hall]].
  destruct r as [| | | | | | d]; try discriminate Hl.
  unfold levels_of, dict_get in Hl.
  destruct (Hall (u "poor") ltac:(left; reflexivity)) as [items0 [Hpoor _]].
  destruct (dict_find d (u "levels")) as [x |] eqn:Hx.
  2:{ injection Hl as <-. discriminate Hpoor. }
  destruct x as [| | | | | | bl]; try discriminate Hl.
  injection Hl as ->.
  pose proof (parsed_entry d _ _ Hp Hx) as Hpl.
  assert (Hnd : NoDup (map fst d))
    by (inversion Hp; assumption).
  assert (Hndl : NoDup (map fst by_level))
    by (inversion Hpl; assumption).
  exists (dict_of_pairs (map reread_item by_level)). split.
  - rewrite reread_dict. unfold levels_of, dict_get.
    rewrite (dict_find_reread d (u "levels") Hnd
               (below_surrogates_check (u "levels") eq_refl)), Hx.
    cbn [option_map]. rewrite reread_dict. reflexivity.
  - intros level Hlevel.
    destruct (Hall level Hlevel) as [items [Hitems Hlen]].
    exists (map reread items). split.
    + rewrite (dict_find_reread by_level level Hndl
                 (levels_below_surrogates level Hlevel)), Hitems.
      reflexivity.
    + rewrite length_map. exact Hlen.
Qed.

(** C8. A value returned by a successful transformation, serialized to
    JSON text and reparsed, passes the validator again with no violation,
    whatever text the model answered with. *)
Theorem reparsed_value_validates
  (client : model_client) (skill : skill_record) (r : json) :
  transform_skill client skill = Return r ->
  exists r', json_loads (dumps r) = Return r' /\ validate r' = Return r'.
Proof.
  intros H. pose proof (transform_skill_parsed client skill r H) as Hp.
  exists (reread r). split.
  - apply json_loads_Return. exact (loads_dumps_reread r Hp).
  - apply validate_Return_iff. split; [reflexivity |].
    apply (levels_ok_reread r Hp).
    apply transform_skill_Return_iff in H. tauto.
Qed.

(** An answer whose [name] holds a surrogate pair as two characters: the
    value returned is reparsed with the code point of the pair as its
    [name], and validates. *)
Lemma reparsed_value_validates_witness :
  exists r,
    transform_skill (Sample.answers Sample.surrogates_text)
      Sample.data_visualization = Return r
    /\ exists r', json_loads (dumps r) = Return r' /\ validate r' = Return r'.
Proof.
  eexists. split; [vm_compute; reflexivity |].
  apply (reparsed_value_validates (Sample.answers Sample.surrogates_text)
           Sample.data_visualization).
  vm_compute. reflexivity.
Defined.

Example surrogate_pair_reread :
  exists r r',
    transform_skill (Sample.answers Sample.surrogates_text)
      Sample.data_visualization = Return r
    /\ json_loads (dumps r) = Return r'
    /\ member "name" r = Some (JStr [55357; 56832])
    /\ member "name" r' = Some (JStr [128512]).
Proof.
  eexists. eexists. split; [vm_compute; reflexivity |].
  split; [vm_compute; reflexivity |].
  split; vm_compute; reflexivity.
Qed.

(** * The fuel of the models is enough *)

(** ** [split] *)

Lemma partition_shorter (sep s a b : str) :
  sep <> [] -> partition sep s = Some (a, b) -> (length b < length s)%nat.
Proof.
  intros Hsep H. apply partition_parts in H. subst s.
  rewrite !length_app. destruct sep; [congruence | simpl; lia].
Qed.

(** Any fuel from the length of the text on gives the same pieces. *)
Lemma split_fuel_enough (sep : str) :
  sep <> [] ->
  forall n m s,
    (length s <= n)%nat -> (length s <= m)%nat ->
    split_fuel n sep s = split_fuel m sep s.
Proof.
  intros Hsep. induction n as [| n IH]; intros m s Hn Hm.
  - destruct s; [| simpl in Hn; lia].
    destruct m; simpl; [reflexivity |].
    rewrite (startswith_nil_r sep Hsep). reflexivity.
  - destruct m as [| m].
    + destruct s; [| simpl in Hm; lia].
      simpl. rewrite (startswith_nil_r sep Hsep). reflexivity.
    + simpl. destruct (partition sep s) as [[a b] |] eqn:E; [| reflexivity].
      pose proof (partition_shorter sep s a b Hsep E).
      f_equal. apply IH; lia.
Qed.

(** ** [scan_once] *)

Lemma more_fuel_all (f : nat) : more_fuel f.
Proof.
  induction f as [| f [IHs [IHa IHo]]].
  - repeat split; intros; discriminate.
  - repeat split.
    + intros s r f' H Hf. destruct f' as [| f']; [lia |].
      assert (Hle : (f <= f')%nat) by lia.
      destruct s as [| c s']; [discriminate H |].
      cbn [scan_once] in *.
      destruct (c =? 34); [exact H |].
      destruct (c =? 123).
      { destruct (skip_ws s') as [| c1 s1]; [discriminate H |].
        destruct (c1 =? 125); [exact H |].
        destruct (c1 =? 34); [| discriminate H].
        exact (IHo _ _ _ f' H Hle). }
      destruct (c =? 91).
      { destruct (skip_ws s') as [| c1 s1]; [discriminate H |].
        destruct (c1 =? 93); [exact H |].
        exact (IHa _ _ _ f' H Hle). }
      exact H.
    + intros s values r f' H Hf. destruct f' as [| f']; [lia |].
      assert (Hle : (f <= f')%nat) by lia.
      rewrite array_loop_eq in *.
      destruct (scan_once f s) as [[value s1] |] eqn:E; [| discriminate H].
      rewrite (IHs _ _ f' E Hle).
      destruct (skip_ws s1) as [| c s2]; [discriminate H |].
      destruct (c =? 93); [exact H |].
      destruct (c =? 44); [| discriminate H].
      exact (IHa _ _ _ f' H Hle).
    + intros s pairs r f' H Hf. destruct f' as [| f']; [lia |].
      assert (Hle : (f <= f')%nat) by lia.
      rewrite object_loop_eq in *.
      destruct (scanstring s []) as [[key s1] |]; [| discriminate H].
      destruct (skip_ws s1) as [| c s2]; [discriminate H |].
      destruct (c =? 58); [| discriminate H].
      destruct (scan_once f (skip_ws s2)) as [[value s3] |] eqn:E;
        [| discriminate H].
      rewrite (IHs _ _ f' E Hle).
      destruct (skip_ws s3) as [| c1 s4]; [discriminate H |].
      destruct (c1 =? 125); [exact H |].
      destruct (c1 =? 44); [| discriminate H].
      destruct (skip_ws s4) as [| c2 s5]; [discriminate H |].
      destruct (c2 =? 34); [| discriminate H].
      exact (IHo _ _ _ f' H Hle).
Qed.

Lemma skip_ws_length (s : str) : (length (skip_ws s) <= length s)%nat.
Proof.
  induction s as [| c s IH]; simpl; [lia |].
  destruct (is_ws c); simpl; lia.
Qed.

Lemma skip_ws_tail_length (s : str) (c : N) (t : str) :
  skip_ws s = c :: t -> (length t < length s)%nat.
Proof.
  intros E. pose proof (skip_ws_length s) as H. rewrite E in H.
  simpl in H. lia.
Qed.

Lemma scanstring_shorter (n : nat) :
  forall s acc x r,
    (length s <= n)%nat -> scanstring s acc = Some (x, r) ->
    (length r < length s)%nat.
Proof.
  induction n as [| n IH]; intros s acc x r Hlen H.
  - destruct s; [discriminate H | simpl in Hlen; lia].
  - destruct s as [| c s1]; [discriminate H |].
    apply scanstring_inv in H as [[_ H] | [ch [s' [Hstep H]]]].
    + injection H as _ ->. simpl. lia.
    + pose proof (scan_step_shorter _ _ _ Hstep) as Hs.
      assert (Hle : (length s' <= n)%nat) by (simpl in *; lia).
      pose proof (IH s' (ch :: acc) x r Hle H). lia.
Qed.

Lemma match_number_shorter (s : str) (v : json) (r : str) :
  match_number s = Some (v, r) -> (length r < length s)%nat.
Proof.
  unfold match_number.
  set (p := match s with
            | c :: s' => if c =? 45 then (true, s') else (false, s)
            | [] => (false, s)
            end).
  assert (Hp : (length (snd p) <= length s)%nat).
  { unfold p. destruct s as [| c s']; [simpl; lia |].
    destruct (c =? 45); simpl; lia. }
  destruct p as [neg s0]. simpl in Hp.
  destruct (match_integer s0) as [[ds r1] |] eqn:Ei; [| discriminate].
  destruct (match_frac r1) as [frac r2] eqn:Ef.
  destruct (match_exp r2) as [exp r3] eqn:Ee.
  destruct (match_integer_spec s0 ds r1 Ei) as [-> [[c [t [-> _]]] _]].
  destruct (match_frac_spec r1 frac r2 Ef) as [-> _].
  destruct (match_exp_spec r2 exp r3 Ee) as [-> _].
  rewrite !length_app in Hp. simpl in Hp.
  destruct frac; [destruct exp |]; intros H; injection H as _ <-; lia.
Qed.

Lemma skipn_shorter (n : nat) (c : N) (s : str) :
  (length (skipn (S n) (c :: s)) < length (c :: s))%nat.
Proof. rewrite length_skipn. simpl. lia. Qed.

Lemma consumes_all (f : nat) : consumes f.
Proof.
  induction f as [| f [IHs [IHa IHo]]].
  - repeat split; intros; discriminate.
  - repeat split.
    + intros s v rest H.
      destruct s as [| c s']; [discriminate H |].
      cbn [scan_once] in H.
      destruct (c =? 34).
      { destruct (scanstring s' []) as [[x r] |] eqn:E; [| discriminate H].
        injection H as _ <-.
        pose proof (scanstring_shorter _ s' [] x r (le_n _) E). simpl. lia. }
      destruct (c =? 123).
      { destruct (skip_ws s') as [| c1 s1] eqn:E; [discriminate H |].
        pose proof (skip_ws_tail_length s' c1 s1 E).
        destruct (c1 =? 125); [injection H as _ <-; simpl; lia |].
        destruct (c1 =? 34); [| discriminate H].
        pose proof (IHo _ _ _ _ H). simpl. lia. }
      destruct (c =? 91).
      { destruct (skip_ws s') as [| c1 s1] eqn:E; [discriminate H |].
        pose proof (skip_ws_tail_length s' c1 s1 E).
        destruct (c1 =? 93); [injection H as _ <-; simpl; lia |].
        pose proof (IHa _ _ _ _ H). simpl in *. lia. }
      destruct ((c =? 110) && startswith (u "null") (c :: s')).
      { injection H as _ <-. exact (skipn_shorter 3 c s'). }
      destruct ((c =? 116) && startswith (u "true") (c :: s')).
      { injection H as _ <-. exact (skipn_shorter 3 c s'). }
      destruct ((c =? 102) && startswith (u "false") (c :: s')).
      { injection H as _ <-. exact (skipn_shorter 4 c s'). }
      destruct (match_number (c :: s')) as [[v' r'] |] eqn:E.
      { injection H as _ <-. exact (match_number_shorter _ _ _ E). }
      destruct ((c =? 78) && startswith (u "NaN") (c :: s')).
      { injection H as _ <-. exact (skipn_shorter 2 c s'). }
      destruct ((c =? 73) && startswith (u "Infinity") (c :: s')).
      { injection H as _ <-. exact (skipn_shorter 7 c s'). }
      destruct ((c =? 45) && startswith (u "-Infinity") (c :: s'));
        [| discriminate H].
      injection H as _ <-. exact (skipn_shorter 8 c s').
    + intros s values v rest H. rewrite array_loop_eq in H.
      destruct (scan_once f s) as [[value s1] |] eqn:E; [| discriminate H].
      pose proof (IHs _ _ _ E).
      destruct (skip_ws s1) as [| c s2] eqn:E1; [discriminate H |].
      pose proof (skip_ws_tail_length s1 c s2 E1).
      destruct (c =? 93); [injection H as _ <-; lia |].
      destruct (c =? 44); [| discriminate H].
      pose proof (IHa _ _ _ _ H). pose proof (skip_ws_length s2). lia.
    + intros s pairs v rest H. rewrite object_loop_eq in H.
      destruct (scanstring s []) as [[key s1] |] eqn:Ek; [| discriminate H].
      pose proof (scanstring_shorter _ s [] key s1 (le_n _) Ek).
      destruct (skip_ws s1) as [| c s2] eqn:E1; [discriminate H |].
      pose proof (skip_ws_tail_length s1 c s2 E1).
      destruct (c =? 58); [| discriminate H].
      destruct (scan_once f (skip_ws s2)) as [[value s3] |] eqn:Ev;
        [| discriminate H].
      pose proof (IHs _ _ _ Ev). pose proof (skip_ws_length s2).
      destruct (skip_ws s3) as [| c1 s4] eqn:E3; [discriminate H |].
      pose proof (skip_ws_tail_length s3 c1 s4 E3).
      destruct (c1 =? 125); [injection H as _ <-; lia |].
      destruct (c1 =? 44); [| discriminate H].
      destruct (skip_ws s4) as [| c2 s5] eqn:E4; [discriminate H |].
      pose proof (skip_ws_tail_length s4 c2 s5 E4).
      destruct (c2 =? 34); [| discriminate H].
      pose proof (IHo _ _ _ _ H). lia.
Qed.

Lemma frugal_all (f : nat) : frugal f.
Proof.
  induction f as [| f [IHs [IHa IHo]]].
  - repeat split; intros; discriminate.
  - destruct (consumes_all f) as [Cs [Ca Co]].
    destruct (consumes_all (S f)) as [Cs' [Ca' Co']].
    repeat split.
    + intros s v rest H. pose proof (Cs' _ _ _ H) as Hlt.
      destruct s as [| c s']; [discriminate H |].
      destruct (length (c :: s') - length rest)%nat as [| k] eqn:Ek;
        [lia |].
      assert (Hk : k = (length s' - length rest)%nat)
        by (cbn [length] in *; lia).
      cbn [scan_once] in *.
      destruct (c =? 34); [exact H |].
      destruct (c =? 123).
      { destruct (skip_ws s') as [| c1 s1] eqn:E; [discriminate H |].
        pose proof (skip_ws_tail_length s' c1 s1 E).
        destruct (c1 =? 125); [exact H |].
        destruct (c1 =? 34); [| discriminate H].
        apply (proj2 (proj2 (more_fuel_all _)) _ _ _ k (IHo _ _ _ _ H)). lia. }
      destruct (c =? 91).
      { destruct (skip_ws s') as [| c1 s1] eqn:E; [discriminate H |].
        pose proof (skip_ws_tail_length s' c1 s1 E).
        destruct (c1 =? 93); [exact H |].
        apply (proj1 (proj2 (more_fuel_all _)) _ _ _ k (IHa _ _ _ _ H)).
        cbn [length]. lia. }
      exact H.
    + intros s values v rest H. pose proof (Ca' _ _ _ _ H) as Hlt.
      destruct (length s - length rest)%nat as [| k] eqn:Ek; [lia |].
      rewrite array_loop_eq in *.
      destruct (scan_once f s) as [[value s1] |] eqn:E; [| discriminate H].
      pose proof (Cs _ _ _ E).
      destruct (skip_ws s1) as [| c s2] eqn:E1; [discriminate H |].
      pose proof (skip_ws_tail_length s1 c s2 E1).
      pose proof (skip_ws_length s2).
      assert (Hrest : (length rest <= length s2)%nat).
      { destruct (c =? 93); [injection H as _ <-; lia |].
        destruct (c =? 44); [| discriminate H].
        pose proof (Ca _ _ _ _ H). lia. }
      rewrite (proj1 (more_fuel_all _) _ _ k (IHs _ _ _ E)) by lia.
      rewrite E1.
      destruct (c =? 93); [exact H |].
      destruct (c =? 44); [| discriminate H].
      apply (proj1 (proj2 (more_fuel_all _)) _ _ _ k (IHa _ _ _ _ H)). lia.
    + intros s pairs v rest H. pose proof (Co' _ _ _ _ H) as Hlt.
      destruct (length s - length rest)%nat as [| k] eqn:Ek; [lia |].
      rewrite object_loop_eq in *.
      destruct (scanstring s []) as [[key s1] |] eqn:Ekey; [| discriminate H].
      pose proof (scanstring_shorter _ s [] key s1 (le_n _) Ekey).
      destruct (skip_ws s1) as [| c s2] eqn:E1; [discriminate H |].
      pose proof (skip_ws_tail_length s1 c s2 E1).
      pose proof (skip_ws_length s2).
      destruct (c =? 58); [| discriminate H].
      destruct (scan_once f (skip_ws s2)) as [[value s3] |] eqn:Ev;
        [| discriminate H].
      pose proof (Cs _ _ _ Ev).
      destruct (skip_ws s3) as [| c1 s4] eqn:E3; [discriminate H |].
      pose proof (skip_ws_tail_length s3 c1 s4 E3).
      assert (Hrest : (length rest <= length s4)%nat).
      { destruct (c1 =? 125); [injection H as _ <-; lia |].
        destruct (c1 =? 44); [| discriminate H].
        destruct (skip_ws s4) as [| c2 s5] eqn:E4; [discriminate H |].
        pose proof (skip_ws_tail_length s4 c2 s5 E4).
        destruct (c2 =? 34); [| discriminate H].
        pose proof (Co _ _ _ _ H). lia. }
      rewrite (proj1 (more_fuel_all _) _ _ k (IHs _ _ _ Ev)) by lia.
      rewrite E3.
      destruct (c1 =? 125); [exact H |].
      destruct (c1 =? 44); [| discriminate H].
      destruct (skip_ws s4) as [| c2 s5] eqn:E4; [discriminate H |].
      pose proof (skip_ws_tail_length s4 c2 s5 E4).
      destruct (c2 =? 34); [| discriminate H].
      apply (proj2 (proj2 (more_fuel_all _)) _ _ _ k (IHo _ _ _ _ H)). lia.
Qed.

(** Whatever some fuel lets the scanner read from a text, the fuel [loads]
    gives it lets it read: [loads] fails on a text only where the scanner
    fails on it with any fuel. *)
Lemma loads_fuel_enough (s : str) (f : nat) (v : json) (rest : str) :
  scan_once f (skip_ws s) = Some (v, rest) ->
  scan_once (S (length s)) (skip_ws s) = Some (v, rest).
Proof.
  intros H.
  apply (proj1 (more_fuel_all _) _ _ _ (proj1 (frugal_all f) _ _ _ H)).
  pose proof (skip_ws_length s). lia.
Qed.

(** The fuel [split] gives is enough: more fuel gives the same pieces. *)
Lemma split_fuel_split (sep s : str) (n : nat) :
  sep <> [] -> (length s <= n)%nat -> split_fuel n sep s = split sep s.
Proof.
  intros Hsep Hn. unfold split.
  exact (split_fuel_enough sep Hsep n (length s) s Hn (le_n _)).
Qed.

(** * The validator on a candidate without a proper [levels] entry *)

Lemma build_prompt_Return (skill : skill_record) :
  exists prompt, build_prompt skill = Return prompt.
Proof.
  eexists. unfold build_prompt. exact (format_prompt_fields _ _ _).
Qed.

Lemma validate_levels_not_mapping (d : dict json) (x : json) :
  dict_find d (u "levels") = Some x ->
  (forall by_level, x <> JDict by_level) ->
  validate (JDict d) = Raise (AttributeError (type_name x) (u "get")).
Proof.
  intros Hfind Hx. unfold validate.
  change LEVELS with (u "poor" :: tl LEVELS).
  cbn [check_levels get_method bind]. unfold dict_get. rewrite Hfind.
  destruct x; try reflexivity.
  exfalso. exact (Hx d0 eq_refl).
Qed.

(** X1. A candidate whose [levels] entry is present but is not a mapping
    (a list, a string, a number, a null) makes the transformation fail
    with the [AttributeError] of the [get] lookup on that entry: this is
    not reported as a validation failure. *)
Theorem levels_entry_not_mapping
  (client : model_client) (skill : skill_record) (d : dict json) (x : json) :
  candidate client skill = Return (JDict d) ->
  dict_find d (u "levels") = Some x ->
  (forall by_level, x <> JDict by_level) ->
  transform_skill client skill
  = Raise (AttributeError (type_name x) (u "get")).
Proof.
  intros Hc Hfind Hx. rewrite transform_skill_stages, Hc.
  exact (validate_levels_not_mapping d x Hfind Hx).
Qed.

Lemma levels_entry_not_mapping_witness :
  transform_skill
    (Sample.answers (u "{" ++ Sample.entry "levels" (u "[]") ++ u "}"))
    Sample.data_visualization
  = Raise (AttributeError (u "list") (u "get")).
Proof.
  apply (levels_entry_not_mapping
           (Sample.answers (u "{" ++ Sample.entry "levels" (u "[]") ++ u "}"))
           Sample.data_visualization
           [(u "levels", JList [])] (JList [])).
  - vm_compute. reflexivity.
  - reflexivity.
  - intros by_level H. discriminate H.
Defined.

Lemma validate_levels_missing (d : dict json) :
  dict_find d (u "levels") = None ->
  validate (JDict d)
  = Raise (ValueError
             (error_msg (map (fun level => violation_clause level 0) LEVELS))).
Proof.
  intros Hfind.
  assert (Hl : levels_of (JDict d) = Some []).
  { unfold levels_of, dict_get. rewrite Hfind. reflexivity. }
  rewrite (validate_mapping (JDict d) [] Hl). reflexivity.
Qed.

(** X2. A candidate mapping without a [levels] entry fails validation
    with the one [ValueError] that lists all five levels, in the canonical
    order, each with the count 0. *)
Theorem missing_levels_lists_all_five
  (client : model_client) (skill : skill_record) (d : dict json) :
  candidate client skill = Return (JDict d) ->
  dict_find d (u "levels") = None ->
  transform_skill client skill
  = Raise (ValueError
             (error_msg (map (fun level => violation_clause level 0) LEVELS))).
Proof.
  intros Hc Hfind. rewrite transform_skill_stages, Hc.
  exact (validate_levels_missing d Hfind).
Qed.

Lemma missing_levels_lists_all_five_witness :
  transform_skill
    (Sample.answers (u "{" ++ Sample.entry "name" (Sample.quoted "x") ++ u "}"))
    Sample.data_visualization
  = Raise (ValueError
             (error_msg (map (fun level => violation_clause level 0) LEVELS))).
Proof.
  apply (missing_levels_lists_all_five
           (Sample.answers
              (u "{" ++ Sample.entry "name" (Sample.quoted "x") ++ u "}"))
           Sample.data_visualization
           [(u "name", JStr (u "x"))]).
  - vm_compute. reflexivity.
  - reflexivity.
Defined.

Lemma check_levels_reads_levels (d1 d2 : dict json) :
  dict_find d1 (u "levels") = dict_find d2 (u "levels") ->
  forall levels errs,
    check_levels (JDict d1) levels errs = check_levels (JDict d2) levels errs.
Proof.
  intros H levels. induction levels as [| level rest IH]; intros errs;
    [reflexivity |].
  cbn [check_levels get_method bind]. unfold dict_get. rewrite H.
  destruct (get_method match dict_find d2 (u "levels") with
                       | Some v => v
                       | None => JDict []
                       end) as [by_level | e]; [| reflexivity].
  cbn [bind]. apply IH.
Qed.

(** X3. Validation reads nothing of a candidate mapping but its [levels]
    entry: two mappings with the same entry are both accepted, or both
    rejected with the same error, whatever their other entries are. *)
Theorem validation_reads_only_levels (d1 d2 : dict json) :
  dict_find d1 (u "levels") = dict_find d2 (u "levels") ->
  (validate (JDict d1) = Return (JDict d1)
   <-> validate (JDict d2) = Return (JDict d2))
  /\ forall e, validate (JDict d1) = Raise e <-> validate (JDict d2) = Raise e.
Proof.
  intros H. unfold validate.
  rewrite (check_levels_reads_levels d1 d2 H LEVELS []).
  destruct (check_levels (JDict d2) LEVELS []) as [[| e0 errs] | e0];
    cbn [bind]; split; try tauto; try (split; intros; discriminate);
    try (split; intros; reflexivity).
Qed.

Lemma validation_reads_only_levels_witness :
  let d1 := [(u "levels", JDict []); (u "name", JStr (u "Data Visualization"))] in
  let d2 := [(u "lightcast_id", JInt 7); (u "levels", JDict [])] in
  (validate (JDict d1) = Return (JDict d1)
   <-> validate (JDict d2) = Return (JDict d2))
  /\ forall e, validate (JDict d1) = Raise e <-> validate (JDict d2) = Raise e.
Proof.
  intros d1 d2. apply (validation_reads_only_levels d1 d2). reflexivity.
Defined.

(** * The answer of the model *)

(** X4. Only the first content block of the reply is read: the blocks
    that follow it change nothing in the outcome of the transformation. *)
Theorem only_first_block_read
  (block : content_block) (others : list content_block)
  (skill : skill_record) :
  transform_skill (fun _ => Return (block :: others)) skill
  = transform_skill (fun _ => Return [block]) skill.
Proof.
  unfold transform_skill.
  destruct (build_prompt skill) as [prompt | e]; [| reflexivity].
  cbn [bind]. destruct block; reflexivity.
Qed.

(** X5. A reply with no content block makes the transformation fail
    with the [IndexError] of [message.content[0]]. *)
Theorem empty_content_index_error
  (client : model_client) (skill : skill_record) :
  (forall prompt, client prompt = Return []) ->
  transform_skill client skill = Raise IndexError.
Proof.
  intros H. unfold transform_skill.
  destruct (build_prompt_Return skill) as [prompt ->].
  cbn [bind]. rewrite H. reflexivity.
Qed.

Lemma empty_content_index_error_witness :
  transform_skill (fun _ => Return []) Sample.data_visualization
  = Raise IndexError.
Proof.
  apply (empty_content_index_error (fun _ => Return [])
           Sample.data_visualization).
  intros prompt. reflexivity.
Defined.

(** ** Trimming white space *)

Lemma lstrip_spaces (w s : str) :
  Forall (fun c => isspace c = true) w -> lstrip (w ++ s) = lstrip s.
Proof.
  induction 1 as [| c w Hc Hw IH]; [reflexivity |].
  simpl. rewrite Hc. exact IH.
Qed.

Lemma lstrip_all_spaces (w : str) :
  Forall (fun c => isspace c = true) w -> lstrip w = [].
Proof.
  intros H. rewrite <- (app_nil_r w). rewrite (lstrip_spaces w [] H).
  reflexivity.
Qed.

Lemma rstrip_spaces (s w : str) :
  Forall (fun c => isspace c = true) w -> rstrip (s ++ w) = rstrip s.
Proof.
  intros H. unfold rstrip. rewrite rev_app_distr.
  rewrite (lstrip_spaces (rev w) (rev s)); [reflexivity |].
  apply Forall_rev. exact H.
Qed.

Lemma strip_spaces (before text after : str) :
  Forall (fun c => isspace c = true) before ->
  Forall (fun c => isspace c = true) after ->
  strip (before ++ text ++ after) = strip text.
Proof.
  intros Hb Ha. unfold strip. rewrite (lstrip_spaces before _ Hb).
  rewrite lstrip_app. destruct (lstrip text) as [| c r].
  - rewrite (lstrip_all_spaces after Ha). reflexivity.
  - exact (rstrip_spaces (c :: r) after Ha).
Qed.

(** X6. White space around the answer is ignored: the extractor gives
    the same outcome for the answer with and without it. *)
Theorem surrounding_whitespace_ignored (before text after : str) :
  Forall (fun c => isspace c = true) before ->
  Forall (fun c => isspace c = true) after ->
  response_extractor (before ++ text ++ after) = response_extractor text.
Proof.
  intros Hb Ha. unfold response_extractor.
  rewrite (strip_spaces before text after Hb Ha). reflexivity.
Qed.

Lemma surrounding_whitespace_ignored_witness :
  response_extractor (u "  " ++ u "[1]" ++ [NL; NL])
  = response_extractor (u "[1]").
Proof.
  apply (surrounding_whitespace_ignored (u "  ") (u "[1]") [NL; NL]).
  - repeat constructor.
  - repeat constructor.
Defined.

(** * The extractor *)

(** X7. Lines 241-253 raise no error of their own: whatever the
    extractor raises, [json.loads] raised it, on the whole trimmed answer
    or on the content of the first fenced block.  The indexing of the
    pieces of the split answer, [[1]] and [[0]], never fails, since the
    branch is taken only when the fence occurs. *)
Theorem extractor_adds_no_error (loads : str -> outcome json) (text : str)
  (e : exn) :
  response_extractor_with loads text = Raise e ->
  loads (strip text) = Raise e
  \/ exists json_str,
       fenced (if py_in FENCE_JSON (strip text) then FENCE_JSON else FENCE)
         (strip text) = Return json_str
       /\ loads json_str = Raise e.
Proof.
  unfold response_extractor_with, extract_json_with.
  destruct (loads (strip text)) as [r | e0] eqn:Hl; [discriminate |].
  destruct e0; try (intros H; left; exact H).
  destruct (py_in FENCE_JSON (strip text)) eqn:Hj.
  - destruct (fenced_defined FENCE_JSON (strip text) ltac:(discriminate) Hj)
      as [json_str Hs].
    rewrite Hs. cbn [bind]. intros H. right. exists json_str.
    split; [reflexivity | exact H].
  - destruct (py_in FENCE (strip text)) eqn:Hf.
    + destruct (fenced_defined FENCE (strip text) ltac:(discriminate) Hf)
        as [json_str Hs].
      rewrite Hs. cbn [bind]. intros H. right. exists json_str.
      split; [reflexivity | exact H].
    + intros H. left. exact H.
Qed.

Lemma extractor_adds_no_error_witness :
  json_loads (strip (json_fenced (u "not json")))
  = Raise (JSONDecodeError (u "not json"))
  \/ exists json_str,
       fenced (if py_in FENCE_JSON (strip (json_fenced (u "not json")))
               then FENCE_JSON else FENCE)
         (strip (json_fenced (u "not json"))) = Return json_str
       /\ json_loads json_str = Raise (JSONDecodeError (u "not json")).
Proof.
  apply (extractor_adds_no_error json_loads (json_fenced (u "not json"))).
  vm_compute. reflexivity.
Defined.

(** ** A fenced block in prose *)

Lemma startswith_other_head (c0 c : N) (p s : str) :
  c <> c0 -> startswith (c0 :: p) (c :: s) = false.
Proof.
  intros H. simpl. destruct (N.eqb_spec c0 c) as [-> | _]; [congruence |].
  reflexivity.
Qed.

(** A pattern is first found after a text that does not hold its first
    character. *)
Lemma partition_first_char (c0 : N) (p a rest : str) :
  ~ In c0 a ->
  partition (c0 :: p) (a ++ (c0 :: p) ++ rest) = Some (a, rest).
Proof.
  induction a as [| c a IH]; intros Ha.
  - exact (partition_prefix (c0 :: p) rest).
  - change ((c :: a) ++ (c0 :: p) ++ rest)
      with (c :: (a ++ (c0 :: p) ++ rest)).
    change (partition (c0 :: p) (c :: (a ++ (c0 :: p) ++ rest)))
      with (if startswith (c0 :: p) (c :: (a ++ (c0 :: p) ++ rest))
            then Some ([], skipn (length (c0 :: p))
                             (c :: (a ++ (c0 :: p) ++ rest)))
            else match partition (c0 :: p) (a ++ (c0 :: p) ++ rest) with
                 | Some (x, y) => Some (c :: x, y)
                 | None => None
                 end).
    rewrite startswith_other_head;
      [| intros ->; apply Ha; left; reflexivity].
    rewrite IH; [reflexivity |].
    intros H. apply Ha. right. exact H.
Qed.

Lemma py_in_skip_prefix (c0 : N) (p a s : str) :
  ~ In c0 a -> py_in (c0 :: p) (a ++ s) = py_in (c0 :: p) s.
Proof.
  induction a as [| c a IH]; intros Ha; [reflexivity |].
  change ((c :: a) ++ s) with (c :: (a ++ s)).
  change (py_in (c0 :: p) (c :: (a ++ s)))
    with (startswith (c0 :: p) (c :: (a ++ s)) || py_in (c0 :: p) (a ++ s)).
  rewrite startswith_other_head;
    [| intros ->; apply Ha; left; reflexivity].
  apply IH. intros H. apply Ha. right. exact H.
Qed.

Lemma fenced_json_in_prose (before body after : str) :
  ~ In 96 before -> ~ In 96 body ->
  py_in FENCE_JSON (FENCE ++ after) = false ->
  fenced FENCE_JSON (before ++ FENCE_JSON ++ body ++ FENCE ++ after)
  = Return (strip body).
Proof.
  intros Hb Hbody Hafter. unfold fenced.
  assert (Hrest : py_in FENCE_JSON (body ++ FENCE ++ after) = false).
  { rewrite <- Hafter.
    exact (py_in_skip_prefix 96 (u "``json") body (FENCE ++ after) Hbody). }
  rewrite (split_found FENCE_JSON
             (before ++ FENCE_JSON ++ body ++ FENCE ++ after)
             before (body ++ FENCE ++ after)).
  - apply partition_None_iff in Hrest.
    rewrite (split_fuel_absent _ FENCE_JSON _ Hrest).
    change (index [before; body ++ FENCE ++ after] 1)
      with (Return (body ++ FENCE ++ after)).
    cbn [bind].
    rewrite (split_found FENCE (body ++ FENCE ++ after) body after).
    + reflexivity.
    + destruct body; discriminate.
    + exact (partition_first_char 96 (u "``") body after Hbody).
  - destruct before; discriminate.
  - exact (partition_first_char 96 (u "``json") before
             (body ++ FENCE ++ after) Hb).
Qed.

(** X8. A block tagged [json] is found inside prose.  For an answer on
    which [json.loads] raises a [JSONDecodeError], made of text without a
    backtick, a fence tagged [json], a body without a backtick, a closing
    fence, and any text with no further fence tagged [json], the outcome
    of lines 241-253 is the one of [json.loads] on the trimmed body,
    whatever [json.loads] does with it. *)
Theorem fenced_block_in_prose (loads : str -> outcome json)
  (before body after doc : str) :
  ~ In 96 before -> ~ In 96 body ->
  py_in FENCE_JSON (FENCE ++ after) = false ->
  loads (before ++ FENCE_JSON ++ body ++ FENCE ++ after)
  = Raise (JSONDecodeError doc) ->
  extract_json_with loads (before ++ FENCE_JSON ++ body ++ FENCE ++ after)
  = loads (strip body).
Proof.
  intros Hb Hbody Hafter Hwhole.
  rewrite (extract_json_with_caught loads _ doc Hwhole).
  rewrite (py_in_app FENCE_JSON before (body ++ FENCE ++ after)).
  rewrite (fenced_json_in_prose before body after Hb Hbody Hafter).
  reflexivity.
Qed.

Lemma fenced_block_in_prose_witness :
  extract_json_with json_loads
    ((u "Here is the skill:" ++ [NL]) ++ FENCE_JSON
     ++ (NL :: Sample.levels_only_text ++ [NL]) ++ FENCE
     ++ (NL :: u "Tell me if you need changes."))
  = Return (JDict [(u "levels",
                    JDict (map (fun level =>
                                  (level,
                                   JList [JStr (u "Delivers tasks on time");
                                          JStr (u "Delivers tasks on time")]))
                             LEVELS))]).
Proof.
  rewrite (fenced_block_in_prose json_loads
             (u "Here is the skill:" ++ [NL])
             (NL :: Sample.levels_only_text ++ [NL])
             (NL :: u "Tell me if you need changes.")
             ((u "Here is the skill:" ++ [NL]) ++ FENCE_JSON
              ++ (NL :: Sample.levels_only_text ++ [NL]) ++ FENCE
              ++ (NL :: u "Tell me if you need changes."))).
  - vm_compute. reflexivity.
  - vm_compute. intuition discriminate.
  - vm_compute. intuition discriminate.
  - vm_compute. reflexivity.
  - vm_compute. reflexivity.
Defined.

(** * The characters of a serialization *)

Lemma digit_number_char (c : N) : is_digit c = true -> number_char c = true.
Proof. intros H. unfold number_char. rewrite H. reflexivity. Qed.

Lemma digits_number_chars (ds : str) :
  forallb is_digit ds = true -> forallb number_char ds = true.
Proof.
  induction ds as [| c ds IH]; [reflexivity |]. simpl.
  rewrite !andb_true_iff. intros [Hc Hds].
  split; [exact (digit_number_char c Hc) | exact (IH Hds)].
Qed.

Lemma span_digits_chars (s ds r : str) :
  span_digits s = (ds, r) -> forallb number_char ds = true.
Proof.
  intros H. apply digits_number_chars.
  exact (proj1 (proj2 (span_digits_spec s ds r H))).
Qed.

Lemma match_integer_chars (s g r : str) :
  match_integer s = Some (g, r) -> forallb number_char g = true.
Proof.
  unfold match_integer. destruct s as [| c s]; [discriminate |].
  destruct (c =? 48).
  - intros H. injection H as <- <-. reflexivity.
  - destruct (is_digit c) eqn:Hc; [| discriminate].
    destruct (span_digits s) as [ds r'] eqn:E. intros H. injection H as <- <-.
    simpl. rewrite (digit_number_char c Hc). exact (span_digits_chars s ds r' E).
Qed.

Lemma match_frac_chars (s g r : str) :
  match_frac s = (g, r) -> forallb number_char g = true.
Proof.
  unfold match_frac. destruct s as [| c s].
  { intros H. injection H as <- <-. reflexivity. }
  destruct (c =? 46).
  - destruct (span_digits s) as [ds r'] eqn:E.
    pose proof (span_digits_chars s ds r' E) as Hds.
    destruct ds as [| d ds]; intros H; injection H as <- <-;
      [reflexivity | exact Hds].
  - intros H. injection H as <- <-. reflexivity.
Qed.

Lemma match_exp_chars (s g r : str) :
  match_exp s = (g, r) -> forallb number_char g = true.
Proof.
  unfold match_exp. destruct s as [| c s].
  { intros H. injection H as <- <-. reflexivity. }
  destruct ((c =? 101) || (c =? 69)) eqn:Hc.
  2:{ intros H. injection H as <- <-. reflexivity. }
  assert (Hc' : number_char c = true).
  { unfold number_char. apply orb_true_iff in Hc as [Hc | Hc]; rewrite Hc;
      rewrite ?orb_true_r; reflexivity. }
  destruct s as [| g0 s].
  { intros H. injection H as <- <-. reflexivity. }
  destruct ((g0 =? 45) || (g0 =? 43)) eqn:Hg.
  - assert (Hg' : number_char g0 = true).
    { unfold number_char. apply orb_true_iff in Hg as [Hg | Hg]; rewrite Hg;
        rewrite ?orb_true_r; reflexivity. }
    destruct (span_digits s) as [ds r'] eqn:E.
    pose proof (span_digits_chars s ds r' E) as Hds.
    destruct ds as [| d ds]; intros H; injection H as <- <-;
      [reflexivity |].
    cbn [forallb]. rewrite Hc', Hg'. exact Hds.
  - destruct (span_digits (g0 :: s)) as [ds r'] eqn:E.
    pose proof (span_digits_chars (g0 :: s) ds r' E) as Hds.
    destruct ds as [| d ds]; intros H; injection H as <- <-;
      [reflexivity |].
    cbn [forallb]. rewrite Hc'. exact Hds.
Qed.

Lemma forallb_app_true {A} (f : A -> bool) (a b : list A) :
  forallb f a = true -> forallb f b = true -> forallb f (a ++ b) = true.
Proof. intros Ha Hb. rewrite forallb_app, Ha, Hb. reflexivity. Qed.

Lemma match_number_chars (s lit r : str) :
  match_number s = Some (JFloat lit, r) -> forallb number_char lit = true.
Proof.
  unfold match_number.
  destruct (match s with
            | c :: s' => if c =? 45 then (true, s') else (false, s)
            | [] => (false, s)
            end) as [neg s0].
  destruct (match_integer s0) as [[ds r1] |] eqn:Ei; [| discriminate].
  destruct (match_frac r1) as [frac r2] eqn:Ef.
  destruct (match_exp r2) as [exp r3] eqn:Ee.
  pose proof (match_integer_chars s0 ds r1 Ei) as Hds.
  pose proof (match_frac_chars r1 frac r2 Ef) as Hfrac.
  pose proof (match_exp_chars r2 exp r3 Ee) as Hexp.
  assert (Hall : forallb number_char
                   ((if neg then [45] else []) ++ ds ++ frac ++ exp) = true).
  { repeat apply forallb_app_true; try assumption.
    destruct neg; reflexivity. }
  destruct frac as [| f0 frac]; [destruct exp as [| e0 exp] |];
    intros H; try discriminate H; injection H as <- <-; exact Hall.
Qed.

Lemma plain_asciib_spec (c : N) : plain_asciib c = true -> plain_ascii c.
Proof.
  unfold plain_asciib, plain_ascii.
  rewrite orb_true_iff, andb_true_iff, N.eqb_eq, !N.leb_le. tauto.
Qed.

Lemma plain_ascii_check (s : str) :
  forallb plain_asciib s = true -> Forall plain_ascii s.
Proof.
  intros H. apply Forall_forall. intros c Hc.
  rewrite forallb_forall in H. exact (plain_asciib_spec c (H c Hc)).
Qed.

Lemma number_char_plain (c : N) : number_char c = true -> plain_asciib c = true.
Proof.
  unfold number_char, plain_asciib, is_digit.
  rewrite !orb_true_iff, !andb_true_iff, !N.eqb_eq, !N.leb_le. lia.
Qed.

Lemma number_chars_plain (s : str) :
  forallb number_char s = true -> forallb plain_asciib s = true.
Proof.
  induction s as [| c s IH]; [reflexivity |]. simpl.
  rewrite !andb_true_iff. intros [Hc Hs].
  split; [exact (number_char_plain c Hc) | exact (IH Hs)].
Qed.

Lemma scan_once_float_chars (s lit r : str) :
  scan_once 1 s = Some (JFloat lit, r) -> forallb plain_asciib lit = true.
Proof.
  destruct s as [| c s']; [discriminate |].
  cbn [scan_once array_loop object_loop].
  destruct (c =? 34).
  { destruct (scanstring s' []) as [[x r'] |]; discriminate. }
  destruct (c =? 123).
  { destruct (skip_ws s') as [| c1 s1]; [discriminate |].
    destruct (c1 =? 125); [discriminate |].
    destruct (c1 =? 34); discriminate. }
  destruct (c =? 91).
  { destruct (skip_ws s') as [| c1 s1]; [discriminate |].
    destruct (c1 =? 93); discriminate. }
  destruct ((c =? 110) && startswith (u "null") (c :: s')); [discriminate |].
  destruct ((c =? 116) && startswith (u "true") (c :: s')); [discriminate |].
  destruct ((c =? 102) && startswith (u "false") (c :: s')); [discriminate |].
  destruct (match_number (c :: s')) as [[v r'] |] eqn:E.
  { intros H. injection H as -> ->. apply number_chars_plain.
    exact (match_number_chars _ _ _ E). }
  destruct ((c =? 78) && startswith (u "NaN") (c :: s')).
  { intros H. injection H as <- _. reflexivity. }
  destruct ((c =? 73) && startswith (u "Infinity") (c :: s')).
  { intros H. injection H as <- _. reflexivity. }
  destruct ((c =? 45) && startswith (u "-Infinity") (c :: s'));
    [| discriminate].
  intros H. injection H as <- _. reflexivity.
Qed.

Lemma float_literal_chars (lit : str) :
  float_literal lit -> forallb plain_asciib lit = true.
Proof.
  intros H. specialize (H [] O I). rewrite app_nil_r in H.
  exact (scan_once_float_chars lit lit [] H).
Qed.

Lemma hexdigit_plain (n : N) : n < 16 -> plain_asciib (hexdigit n) = true.
Proof.
  intros H. unfold hexdigit, plain_asciib.
  destruct (N.ltb_spec n 10);
    rewrite orb_true_iff, andb_true_iff, !N.leb_le; right; lia.
Qed.

Lemma u_escape_plain (n : N) :
  n < 65536 -> forallb plain_asciib (u_escape n) = true.
Proof.
  intros H. unfold u_escape. cbn [forallb].
  rewrite !hexdigit_plain; [reflexivity | | | |].
  - apply N.mod_lt. discriminate.
  - apply N.mod_lt. discriminate.
  - apply N.mod_lt. discriminate.
  - apply N.Div0.div_lt_upper_bound. exact H.
Qed.

Lemma high_escape_bound (x : N) : N.lor 55296 (N.land x 1023) < 65536.
Proof.
  pose proof (land_1023_bound x) as Hb.
  replace (N.land x 1023) with (N.land (N.land x 1023) 1023)
    by (rewrite <- N.land_assoc, N.land_diag; reflexivity).
  rewrite (lor_high_base _ Hb). lia.
Qed.

Lemma low_escape_bound (x : N) : N.lor 56320 (N.land x 1023) < 65536.
Proof.
  pose proof (land_1023_bound x) as Hb.
  rewrite (lor_low_base _ Hb). lia.
Qed.

Lemma encode_char_plain (c : N) : forallb plain_asciib (encode_char c) = true.
Proof.
  unfold encode_char.
  destruct (c =? 34); [reflexivity |].
  destruct (c =? 92); [reflexivity |].
  destruct (c =? 10); [reflexivity |].
  destruct (c =? 13); [reflexivity |].
  destruct (c =? 9); [reflexivity |].
  destruct (c =? 8); [reflexivity |].
  destruct (c =? 12); [reflexivity |].
  destruct ((32 <=? c) && (c <=? 126)) eqn:E.
  { cbn [forallb]. unfold plain_asciib. rewrite E, orb_true_r. reflexivity. }
  destruct (N.ltb_spec c 65536) as [Hc | Hc].
  { exact (u_escape_plain c Hc). }
  apply forallb_app_true; apply u_escape_plain.
  - apply high_escape_bound.
  - apply low_escape_bound.
Qed.

Lemma flat_map_plain (s : str) :
  forallb plain_asciib (flat_map encode_char s) = true.
Proof.
  induction s as [| c s IH]; [reflexivity |]. cbn [flat_map].
  exact (forallb_app_true _ _ _ (encode_char_plain c) IH).
Qed.

Lemma encode_basestring_plain (s : str) :
  forallb plain_asciib (encode_basestring_ascii s) = true.
Proof.
  unfold encode_basestring_ascii. cbn [forallb].
  rewrite (forallb_app_true _ _ [34] (flat_map_plain s) eq_refl).
  reflexivity.
Qed.

Lemma newline_indent_plain (level : nat) :
  forallb plain_asciib (newline_indent level) = true.
Proof.
  unfold newline_indent. cbn [forallb].
  induction (2 * level)%nat as [| n IH]; [reflexivity | exact IH].
Qed.

Lemma join_items_plain (level : nat) (chunks : list str) :
  Forall (fun x => forallb plain_asciib x = true) chunks ->
  forallb plain_asciib (join_items level chunks) = true.
Proof.
  induction 1 as [| x chunks Hx Hchunks IH]; [reflexivity |].
  destruct chunks as [| y chunks]; [exact Hx |].
  change (join_items level (x :: y :: chunks))
    with (x ++ [44] ++ newline_indent level ++ join_items level (y :: chunks)).
  repeat apply forallb_app_true; try assumption; try reflexivity.
  apply newline_indent_plain.
Qed.

Lemma str_of_N_plain (n : N) : forallb plain_asciib (str_of_N n) = true.
Proof.
  apply number_chars_plain, digits_number_chars, digits_of_uint_digits.
Qed.

Lemma str_of_Z_plain (z : Z) : forallb plain_asciib (str_of_Z z) = true.
Proof.
  destruct z as [| p | p]; unfold str_of_Z.
  - apply str_of_N_plain.
  - apply str_of_N_plain.
  - cbn [forallb]. rewrite (str_of_N_plain (Npos p)). reflexivity.
Qed.

(** The serialization of a well-formed value holds newlines and printable
    ASCII characters only. *)
Lemma encode_plain (v : json) :
  wf v -> forall level, forallb plain_asciib (encode level v) = true.
Proof.
  induction v as [| b | z | lit | s | items IH | d IH] using json_induction;
    intros Hwf level.
  - reflexivity.
  - destruct b; reflexivity.
  - apply str_of_Z_plain.
  - inversion Hwf as [| | | lit' Hlit | | |]; subst.
    exact (float_literal_chars lit Hlit).
  - apply encode_basestring_plain.
  - inversion Hwf as [| | | | | items' Hitems |]; subst.
    destruct items as [| x items]; [reflexivity |].
    change (encode level (JList (x :: items)))
      with ([91] ++ newline_indent (S level)
            ++ join_items (S level) (map (encode (S level)) (x :: items))
            ++ newline_indent level ++ [93]).
    repeat apply forallb_app_true; try reflexivity;
      try apply newline_indent_plain.
    apply join_items_plain. apply Forall_map.
    rewrite Forall_forall in *. intros y Hy.
    exact (IH y Hy (Hitems y Hy) (S level)).
  - inversion Hwf as [| | | | | | d' Hnodup Hd]; subst.
    destruct d as [| kv d]; [reflexivity |].
    change (encode level (JDict (kv :: d)))
      with ([123] ++ newline_indent (S level)
            ++ join_items (S level)
                 (map (fun kv => match kv with
                                 | (k, x) =>
                                     encode_basestring_ascii k ++ [58; 32]
                                     ++ encode (S level) x
                                 end) (kv :: d))
            ++ newline_indent level ++ [125]).
    repeat apply forallb_app_true; try reflexivity;
      try apply newline_indent_plain.
    apply join_items_plain. apply Forall_map.
    rewrite Forall_forall in *. intros [k x] Hkx.
    apply forallb_app_true; [apply encode_basestring_plain |].
    apply forallb_app_true; [reflexivity |].
    exact (IH (k, x) Hkx (proj2 (Hd (k, x) Hkx)) (S level)).
Qed.

Lemma dumps_plain (v : json) : wf v -> Forall plain_ascii (dumps v).
Proof.
  intros H. apply plain_ascii_check. exact (encode_plain v H 0%nat).
Qed.

(** * Selecting skills by their numbers *)

Lemma in_range_nth {A} (l : list A) (i : Z) :
  in_range l i = true -> exists x, nth_error l (Z.to_nat i) = Some x.
Proof.
  unfold in_range. rewrite andb_true_iff, Z.leb_le, Z.ltb_lt. intros [H0 Hn].
  destruct (nth_error l (Z.to_nat i)) as [x |] eqn:E; [eauto |].
  apply nth_error_None in E. lia.
Qed.

Lemma getitem_in_range {A} (l : list A) (i : Z) (x : A) :
  in_range l i = true -> nth_error l (Z.to_nat i) = Some x ->
  getitem l i = Return x.
Proof.
  intros Hr Hx. unfold getitem, index.
  pose proof Hr as Hr'. unfold in_range in Hr'.
  apply andb_true_iff in Hr' as [H0 Hn]. apply Z.leb_le in H0.
  destruct (Z.ltb_spec i 0) as [Hneg | _]; [lia |].
  fold (in_range l i). rewrite Hr, Hx. reflexivity.
Qed.

Lemma add_selected_items {A} (skills : list A) (indices : list Z) :
  forall selected_skills,
    add_selected skills indices selected_skills
    = Return (selected_skills ++ items_at skills indices).
Proof.
  induction indices as [| i rest IH]; intros selected_skills.
  - simpl. rewrite app_nil_r. reflexivity.
  - cbn [add_selected]. fold (in_range skills i).
    unfold items_at. cbn [flat_map]. fold (items_at skills rest).
    destruct (in_range skills i) eqn:Hr.
    + destruct (in_range_nth skills i Hr) as [x Hx].
      rewrite (getitem_in_range skills i x Hr Hx), Hx. cbn [bind].
      rewrite IH, <- app_assoc. reflexivity.
    + apply IH.
Qed.

Lemma items_at_listed {A} (l : list A) (indices : list Z) (x : A) :
  In x (items_at l indices) -> In x l.
Proof.
  unfold items_at. rewrite in_flat_map. intros [i [_ H]].
  destruct (in_range l i); [| destruct H].
  destruct (nth_error l (Z.to_nat i)) as [y |] eqn:E; [| destruct H].
  destruct H as [<- | []]. exact (nth_error_In l _ E).
Qed.

Lemma items_at_length {A} (l : list A) (indices : list Z) :
  (length (items_at l indices) <= length indices)%nat.
Proof.
  unfold items_at. induction indices as [| i rest IH]; [apply le_n |].
  cbn [flat_map]. rewrite length_app. cbn [length].
  destruct (in_range l i); [| simpl; lia].
  destruct (nth_error l (Z.to_nat i)); simpl; lia.
Qed.

Lemma items_at_all {A} (l : list A) (indices : list Z) :
  length (items_at l indices) = length indices
  <-> forallb (in_range l) indices = true.
Proof.
  induction indices as [| i rest IH]; [simpl; tauto |].
  pose proof (items_at_length l rest) as Hle.
  unfold items_at in *. cbn [flat_map forallb]. rewrite length_app.
  cbn [length]. destruct (in_range l i) eqn:Hr.
  - destruct (in_range_nth l i Hr) as [x ->]. simpl.
    rewrite <- IH. lia.
  - simpl. split; [lia | discriminate].
Qed.

(** X9. Selecting by numbers never fails and adds, after the skills
    already selected, the listed skills at the positions typed, in the
    order typed and with repetitions; every skill added is one of the
    list shown, and neither the number 0 (the index -1, which would
    otherwise denote the last skill) nor the number after the last adds
    anything. *)
Theorem selection_adds_listed_skills
  {A} (skills : list A) (indices : list Z) (selected_skills : list A) :
  add_selected skills indices selected_skills
  = Return (selected_skills ++ items_at skills indices)
  /\ (forall skill, In skill (items_at skills indices) -> In skill skills)
  /\ items_at skills [(-1)%Z; Z.of_nat (length skills)] = [].
Proof.
  split; [apply add_selected_items |].
  split; [intros skill; apply items_at_listed |].
  unfold items_at, in_range. cbn [flat_map].
  rewrite Z.ltb_irrefl, andb_false_r. reflexivity.
Qed.

(** X10. The count announced after a selection by numbers is the count
    of the numbers typed, not of the skills added: the selection grows by
    at most that count, and by exactly that count only when every number
    typed is the number of a listed skill. *)
Theorem announced_count_is_numbers_typed
  {A} (skills : list A) (indices : list Z) (selected_skills : list A)
  (selected : list A) (line : str) :
  select_numbers skills indices selected_skills = Return (selected, line) ->
  line = u "Added " ++ str_of_N (N.of_nat (length indices)) ++ u " skills"
  /\ (length selected <= length selected_skills + length indices)%nat
  /\ (length selected = (length selected_skills + length indices)%nat
      <-> forallb (in_range skills) indices = true).
Proof.
  unfold select_numbers. rewrite add_selected_items. cbn [bind].
  intros H. injection H as <- <-. split; [reflexivity |].
  rewrite length_app. pose proof (items_at_length skills indices).
  split; [lia |]. rewrite <- items_at_all. lia.
Qed.

Lemma announced_count_is_numbers_typed_witness :
  exists selected,
    select_numbers [u "Python"; u "SQL"] [0%Z; 6%Z] []
    = Return (selected, u "Added 2 skills")
    /\ (length selected <= 0 + 2)%nat
    /\ (length selected = (0 + 2)%nat
        <-> forallb (in_range [u "Python"; u "SQL"]) [0%Z; 6%Z] = true).
Proof.
  exists [u "Python"]. split; [reflexivity |].
  apply (announced_count_is_numbers_typed
           [u "Python"; u "SQL"] [0%Z; 6%Z] [] [u "Python"]
           (u "Added 2 skills")).
  reflexivity.
Defined.

(** * Removing selected skills *)

Lemma existsb_eqb_In (z : Z) (l : list Z) :
  existsb (Z.eqb z) l = true <-> In z l.
Proof.
  rewrite existsb_exists. split.
  - intros [x [Hx E]]. apply Z.eqb_eq in E. subst x. exact Hx.
  - intros H. exists z. split; [exact H | apply Z.eqb_refl].
Qed.

Lemma drop_positions_from_ext {A} (p1 p2 : list Z) (l : list A) :
  (forall z, In z p1 <-> In z p2) ->
  forall start, drop_positions_from start p1 l = drop_positions_from start p2 l.
Proof.
  intros H. induction l as [| x l IH]; intros start; [reflexivity |].
  cbn [drop_positions_from].
  assert (E : existsb (Z.eqb start) p1 = existsb (Z.eqb start) p2).
  { apply eq_true_iff_eq. rewrite !existsb_eqb_In. apply H. }
  rewrite E, IH. reflexivity.
Qed.

Lemma drop_positions_from_below {A} (positions : list Z) (l : list A) :
  forall start,
    Forall (fun b => (b < start)%Z) positions ->
    drop_positions_from start positions l = l.
Proof.
  induction l as [| x l IH]; intros start H; [reflexivity |].
  cbn [drop_positions_from].
  destruct (existsb (Z.eqb start) positions) eqn:E.
  - apply existsb_eqb_In in E. rewrite Forall_forall in H.
    specialize (H start E). lia.
  - rewrite IH; [reflexivity |].
    eapply Forall_impl; [| exact H]. simpl. intros b Hb. lia.
Qed.

Lemma drop_positions_from_outside {A} (i : Z) (positions : list Z)
  (l : list A) :
  forall start,
    (i < start \/ start + Z.of_nat (length l) <= i)%Z ->
    drop_positions_from start (i :: positions) l
    = drop_positions_from start positions l.
Proof.
  induction l as [| x l IH]; intros start H; [reflexivity |].
  cbn [drop_positions_from existsb].
  cbn [length] in H.
  destruct (Z.eqb_spec start i) as [-> | _]; [lia |].
  cbn [orb]. rewrite IH by lia. reflexivity.
Qed.

Lemma drop_positions_from_pop {A} (i : Z) (rest : list Z) (l : list A) :
  forall start,
    (start <= i < start + Z.of_nat (length l))%Z ->
    Forall (fun b => (b < i)%Z) rest ->
    drop_positions_from start (i :: rest) l
    = drop_positions_from start rest
        (remove_at (Z.to_nat (i - start)) l).
Proof.
  induction l as [| x l IH]; intros start Hi Hrest.
  - cbn [length] in Hi. lia.
  - cbn [length] in Hi. cbn [drop_positions_from existsb].
    destruct (Z.eqb_spec start i) as [-> | Hne].
    + cbn [orb]. replace (i - i)%Z with 0%Z by lia.
      change (remove_at (Z.to_nat 0) (x :: l)) with l.
      rewrite (drop_positions_from_below rest l i Hrest).
      apply drop_positions_from_below. constructor; [lia |].
      eapply Forall_impl; [| exact Hrest]. simpl. intros b Hb. lia.
    + cbn [orb].
      replace (Z.to_nat (i - start)) with (S (Z.to_nat (i - (start + 1))))
        by lia.
      change (remove_at (S (Z.to_nat (i - (start + 1)))) (x :: l))
        with (x :: remove_at (Z.to_nat (i - (start + 1))) l).
      cbn [drop_positions_from].
      rewrite (IH (start + 1)%Z) by (assumption || lia). reflexivity.
Qed.

Lemma pop_in_range {A} (l : list A) (i : Z) (x : A) :
  in_range l i = true -> nth_error l (Z.to_nat i) = Some x ->
  pop l i = Return (x, remove_at (Z.to_nat i) l).
Proof.
  intros Hr Hx. unfold pop, index.
  pose proof Hr as Hr'. unfold in_range in Hr'.
  apply andb_true_iff in Hr' as [H0 Hn]. apply Z.leb_le in H0.
  destruct (Z.ltb_spec i 0) as [Hneg | _]; [lia |].
  fold (in_range l i). rewrite Hr, Hx. reflexivity.
Qed.

Lemma remove_at_incl {A} (n : nat) (l : list A) (x : A) :
  In x (remove_at n l) -> In x l.
Proof.
  unfold remove_at. rewrite in_app_iff. intros [H | H].
  - rewrite <- (firstn_skipn n l). apply in_or_app. left. exact H.
  - rewrite <- (firstn_skipn (S n) l). apply in_or_app. right. exact H.
Qed.

Lemma remove_at_length {A} (n : nat) (l : list A) :
  (n < length l)%nat -> length (remove_at n l) = pred (length l).
Proof.
  intros H. unfold remove_at.
  rewrite length_app, length_firstn, length_skipn. lia.
Qed.

Lemma subscript_named (skill : skill_record) :
  named skill -> exists name, subscript skill (u "name") = Return name.
Proof.
  unfold named, subscript. destruct (dict_find skill (u "name")) as [v |].
  - eauto.
  - congruence.
Qed.

(** The loop over numbers in strictly descending order removes the items
    at these positions. *)
Lemma remove_selected_descending (indices : list Z) :
  StronglySorted (fun a b => (b < a)%Z) indices ->
  forall selected_skills,
    Forall named selected_skills ->
    remove_selected indices selected_skills
    = Return (drop_positions indices selected_skills).
Proof.
  induction 1 as [| i rest Hsorted IH Hrest]; intros selected_skills Hnamed.
  - unfold drop_positions. cbn [remove_selected].
    rewrite drop_positions_from_below; [reflexivity | constructor].
  - cbn [remove_selected]. fold (in_range selected_skills i).
    destruct (in_range selected_skills i) eqn:Hr.
    + destruct (in_range_nth selected_skills i Hr) as [x Hx].
      rewrite (pop_in_range selected_skills i x Hr Hx). cbn [bind fst snd].
      rewrite Forall_forall in Hnamed.
      destruct (subscript_named x (Hnamed x (nth_error_In _ _ Hx)))
        as [name ->].
      cbn [bind]. rewrite IH.
      * unfold drop_positions. unfold in_range in Hr.
        apply andb_true_iff in Hr as [H0 Hn].
        apply Z.leb_le in H0. apply Z.ltb_lt in Hn.
        rewrite (drop_positions_from_pop i rest selected_skills 0%Z)
          by (assumption || lia).
        rewrite Z.sub_0_r. reflexivity.
      * apply Forall_forall. intros y Hy.
        exact (Hnamed y (remove_at_incl _ _ y Hy)).
    + rewrite (IH selected_skills Hnamed). unfold drop_positions.
      rewrite drop_positions_from_outside; [reflexivity |].
      unfold in_range in Hr. apply andb_false_iff in Hr as [Hr | Hr].
      * apply Z.leb_gt in Hr. lia.
      * apply Z.ltb_ge in Hr. lia.
Qed.

(** ** Sorting *)

Lemma insert_descending_In (x z : Z) (l : list Z) :
  In z (insert_descending x l) <-> z = x \/ In z l.
Proof.
  induction l as [| y l IH]; simpl; [intuition |].
  destruct (y <? x)%Z; simpl; [intuition |].
  rewrite IH. intuition.
Qed.

Lemma sorted_reverse_In (z : Z) (l : list Z) :
  In z (sorted_reverse l) <-> In z l.
Proof.
  induction l as [| x l IH]; simpl; [tauto |].
  rewrite insert_descending_In, IH. intuition.
Qed.

Lemma insert_descending_strict (x : Z) (l : list Z) :
  StronglySorted (fun a b => (b < a)%Z) l -> ~ In x l ->
  StronglySorted (fun a b => (b < a)%Z) (insert_descending x l).
Proof.
  induction 1 as [| y l Hsorted IH Hy]; intros Hx; simpl.
  - constructor; constructor.
  - destruct (Z.ltb_spec y x) as [Hlt | Hge].
    + constructor; [constructor; assumption |].
      constructor; [exact Hlt |].
      eapply Forall_impl; [| exact Hy]. simpl. intros b Hb. lia.
    + assert (Hne : x <> y) by (intros ->; apply Hx; left; reflexivity).
      constructor.
      * apply IH. intros H. apply Hx. right. exact H.
      * apply Forall_forall. intros b Hb.
        apply insert_descending_In in Hb as [-> | Hb]; [lia |].
        rewrite Forall_forall in Hy. exact (Hy b Hb).
Qed.

Lemma sorted_reverse_strict (l : list Z) :
  NoDup l -> StronglySorted (fun a b => (b < a)%Z) (sorted_reverse l).
Proof.
  induction 1 as [| x l Hx Hl IH]; simpl; [constructor |].
  apply insert_descending_strict; [exact IH |].
  rewrite sorted_reverse_In. exact Hx.
Qed.

Lemma remove_numbers_distinct
  (numbers : list Z) (selected_skills : list skill_record) :
  Forall named selected_skills -> NoDup numbers ->
  remove_numbers numbers selected_skills
  = Return (drop_positions numbers selected_skills).
Proof.
  intros Hnamed Hnodup. unfold remove_numbers.
  rewrite (remove_selected_descending _ (sorted_reverse_strict _ Hnodup)
             _ Hnamed).
  unfold drop_positions.
  rewrite (drop_positions_from_ext (sorted_reverse numbers) numbers);
    [reflexivity |].
  intros z. apply sorted_reverse_In.
Qed.

(** X11. Removing by distinct numbers, every selected skill having a
    name, leaves the selection without the skills at the positions typed
    and with the other skills in their order; a number that is no
    position of the selection removes nothing.  (The numbers are handled
    from the greatest down, so that a removal moves no position still to
    be removed.) *)
Theorem removal_of_distinct_numbers
  (numbers : list Z) (selected_skills : list skill_record) :
  Forall named selected_skills -> NoDup numbers ->
  remove_numbers numbers selected_skills
  = Return (drop_positions numbers selected_skills).
Proof. exact (remove_numbers_distinct numbers selected_skills). Qed.

Lemma removal_of_distinct_numbers_witness :
  remove_numbers [0%Z; 2%Z; 7%Z]
    [ [(u "name", FStr (u "Python"))]; [(u "name", FStr (u "SQL"))];
      [(u "name", FStr (u "Statistics"))] ]
  = Return [ [(u "name", FStr (u "SQL"))] ].
Proof.
  apply (removal_of_distinct_numbers [0%Z; 2%Z; 7%Z]
           [ [(u "name", FStr (u "Python"))]; [(u "name", FStr (u "SQL"))];
             [(u "name", FStr (u "Statistics"))] ]).
  - repeat constructor; discriminate.
  - repeat constructor; simpl; intuition discriminate.
Defined.

Lemma remove_at_twice {A} (n : nat) (l : list A) :
  remove_at n (remove_at n l) = remove_at n (remove_at (S n) l).
Proof.
  revert l. induction n as [| n IH]; intros l.
  - destruct l as [| x [| y l]]; reflexivity.
  - destruct l as [| x l]; [reflexivity |].
    change (remove_at (S n) (x :: l)) with (x :: remove_at n l).
    change (remove_at (S (S n)) (x :: l)) with (x :: remove_at (S n) l).
    change (remove_at (S n) (x :: remove_at n l))
      with (x :: remove_at n (remove_at n l)).
    change (remove_at (S n) (x :: remove_at (S n) l))
      with (x :: remove_at n (remove_at (S n) l)).
    rewrite IH. reflexivity.
Qed.

(** X12. A number typed twice removes two skills: the one at that
    position and the one after it, which has moved to that position when
    the number is handled again. *)
Theorem number_typed_twice_removes_the_next
  (i : Z) (selected_skills : list skill_record) :
  Forall named selected_skills ->
  (0 <= i)%Z -> (i + 1 < Z.of_nat (length selected_skills))%Z ->
  remove_numbers [i; i] selected_skills
  = Return (drop_positions [i; (i + 1)%Z] selected_skills).
Proof.
  intros Hnamed H0 Hn.
  assert (Hdistinct : NoDup [(i + 1)%Z; i]).
  { repeat constructor; simpl; [lia | tauto]. }
  pose proof (remove_numbers_distinct [(i + 1)%Z; i] selected_skills
                Hnamed Hdistinct) as Hd.
  unfold remove_numbers in *. cbn [sorted_reverse fold_right] in *.
  cbn [insert_descending] in *. rewrite Z.ltb_irrefl.
  destruct (Z.ltb_spec i (i + 1)) as [_ | Hge]; [| lia].
  cbn [remove_selected] in *.
  fold (in_range selected_skills i).
  fold (in_range selected_skills (i + 1)) in Hd.
  assert (Hr1 : in_range selected_skills (i + 1) = true).
  { unfold in_range. apply andb_true_iff.
    split; [apply Z.leb_le | apply Z.ltb_lt]; lia. }
  assert (Hr : in_range selected_skills i = true).
  { unfold in_range. apply andb_true_iff.
    split; [apply Z.leb_le | apply Z.ltb_lt]; lia. }
  rewrite Hr1 in Hd. rewrite Hr.
  destruct (in_range_nth selected_skills i Hr) as [x Hx].
  destruct (in_range_nth selected_skills (i + 1) Hr1) as [y Hy].
  rewrite (pop_in_range selected_skills (i + 1) y Hr1 Hy) in Hd.
  rewrite (pop_in_range selected_skills i x Hr Hx).
  cbn [bind fst snd] in *.
  rewrite Forall_forall in Hnamed.
  destruct (subscript_named x (Hnamed x (nth_error_In _ _ Hx))) as [nx Ex].
  destruct (subscript_named y (Hnamed y (nth_error_In _ _ Hy))) as [ny Ey].
  rewrite Ey in Hd. rewrite Ex. cbn [bind] in *.
  assert (Hlen : forall n, (n < length selected_skills)%nat ->
                   length (remove_at n selected_skills)
                   = pred (length selected_skills))
    by (intros n; apply remove_at_length).
  fold (in_range (remove_at (Z.to_nat i) selected_skills) i).
  fold (in_range (remove_at (Z.to_nat (i + 1)) selected_skills) i) in Hd.
  assert (Hr2 : in_range (remove_at (Z.to_nat i) selected_skills) i = true).
  { unfold in_range. rewrite Hlen by lia. apply andb_true_iff.
    split; [apply Z.leb_le | apply Z.ltb_lt]; lia. }
  assert (Hr3 : in_range (remove_at (Z.to_nat (i + 1)) selected_skills) i
                = true).
  { unfold in_range. rewrite Hlen by lia. apply andb_true_iff.
    split; [apply Z.leb_le | apply Z.ltb_lt]; lia. }
  rewrite Hr3 in Hd. rewrite Hr2.
  destruct (in_range_nth _ i Hr2) as [x2 Hx2].
  destruct (in_range_nth _ i Hr3) as [x3 Hx3].
  rewrite (pop_in_range _ i x3 Hr3 Hx3) in Hd.
  rewrite (pop_in_range _ i x2 Hr2 Hx2).
  cbn [bind fst snd] in *.
  destruct (subscript_named x2
              (Hnamed x2 (remove_at_incl _ _ _ (nth_error_In _ _ Hx2))))
    as [n2 E2].
  destruct (subscript_named x3
              (Hnamed x3 (remove_at_incl _ _ _ (nth_error_In _ _ Hx3))))
    as [n3 E3].
  rewrite E3 in Hd. rewrite E2. cbn [bind] in *.
  injection Hd as Hd. f_equal.
  replace (Z.to_nat (i + 1)) with (S (Z.to_nat i)) in Hd by lia.
  rewrite remove_at_twice, Hd. unfold drop_positions.
  apply drop_positions_from_ext. intros z. simpl. tauto.
Qed.

Lemma number_typed_twice_removes_the_next_witness :
  remove_numbers [0%Z; 0%Z]
    [ [(u "name", FStr (u "Python"))]; [(u "name", FStr (u "SQL"))];
      [(u "name", FStr (u "Statistics"))] ]
  = Return [ [(u "name", FStr (u "Statistics"))] ].
Proof.
  apply (number_typed_twice_removes_the_next 0%Z
           [ [(u "name", FStr (u "Python"))]; [(u "name", FStr (u "SQL"))];
             [(u "name", FStr (u "Statistics"))] ]).
  - repeat constructor; discriminate.
  - reflexivity.
  - reflexivity.
Defined.

(** * Transforming the selected skills and exporting *)

Lemma subscript_Return_named (skill : skill_record) (name : field_value) :
  subscript skill (u "name") = Return name -> named skill.
Proof.
  unfold subscript, named. destruct (dict_find skill (u "name")).
  - discriminate.
  - discriminate.
Qed.

Lemma subscript_unnamed (skill : skill_record) :
  ~ named skill -> subscript skill (u "name") = Raise (KeyError (u "name")).
Proof.
  unfold subscript, named. destruct (dict_find skill (u "name")) as [v |].
  - intros H. exfalso. apply H. discriminate.
  - reflexivity.
Qed.

Lemma named_dec (skill : skill_record) : named skill \/ ~ named skill.
Proof.
  unfold named. destruct (dict_find skill (u "name")) as [v |].
  - left. discriminate.
  - right. intros H. apply H. reflexivity.
Qed.

(** With a name for every skill the loop ends, with the results of the
    transformations that succeed. *)
Lemma transform_selected_named (claude : nat -> model_client)
  (selected_skills : list skill_record) :
  Forall named selected_skills ->
  forall call transformed,
    transform_selected claude call selected_skills transformed
    = Return (transformed ++ successes claude call selected_skills).
Proof.
  induction 1 as [| skill rest Hskill Hrest IH]; intros call transformed.
  - simpl. rewrite app_nil_r. reflexivity.
  - cbn [transform_selected successes].
    destruct (subscript_named skill Hskill) as [name ->]. cbn [bind].
    destruct (transform_skill (claude call) skill) as [result | e].
    + rewrite IH, <- app_assoc. reflexivity.
    + apply IH.
Qed.

Lemma transform_selected_unnamed (claude : nat -> model_client)
  (selected_skills : list skill_record) :
  (exists skill, In skill selected_skills /\ ~ named skill) ->
  forall call transformed,
    transform_selected claude call selected_skills transformed
    = Raise (KeyError (u "name")).
Proof.
  induction selected_skills as [| skill rest IH]; intros [s [Hin Hs]];
    [destruct Hin |].
  intros call transformed. cbn [transform_selected].
  destruct (named_dec skill) as [Hnamed | Hunnamed].
  - destruct (subscript_named skill Hnamed) as [name ->]. cbn [bind].
    assert (Hrest : exists skill, In skill rest /\ ~ named skill).
    { destruct Hin as [-> | Hin]; [contradiction |]. eauto. }
    destruct (transform_skill (claude call) skill); apply IH; exact Hrest.
  - rewrite (subscript_unnamed skill Hunnamed). reflexivity.
Qed.

Lemma all_named_dec (skills : list skill_record) :
  Forall named skills \/ exists skill, In skill skills /\ ~ named skill.
Proof.
  induction skills as [| skill rest IH]; [left; constructor |].
  destruct (named_dec skill) as [Hs | Hs].
  - destruct IH as [IH | [s [Hin Hn]]].
    + left. constructor; assumption.
    + right. exists s. split; [right; exact Hin | exact Hn].
  - right. exists skill. split; [left; reflexivity | exact Hs].
Qed.

Lemma successes_validated (claude : nat -> model_client)
  (skills : list skill_record) :
  forall call, Forall levels_ok (successes claude call skills).
Proof.
  induction skills as [| skill rest IH]; intros call; [constructor |].
  cbn [successes].
  destruct (transform_skill (claude call) skill) as [result | e] eqn:E.
  - constructor; [| apply IH].
    apply transform_skill_Return_iff in E. tauto.
  - apply IH.
Qed.

Lemma successes_length (claude : nat -> model_client)
  (skills : list skill_record) :
  forall call, (length (successes claude call skills) <= length skills)%nat.
Proof.
  induction skills as [| skill rest IH]; intros call; [apply le_n |].
  cbn [successes length]. specialize (IH (S call)).
  destruct (transform_skill (claude call) skill); cbn [length]; lia.
Qed.

Lemma successes_nonempty (claude : nat -> model_client)
  (skills : list skill_record) :
  forall call,
    successes claude call skills <> []
    <-> exists k skill result,
          nth_error skills k = Some skill
          /\ transform_skill (claude (call + k)%nat) skill = Return result.
Proof.
  induction skills as [| skill rest IH]; intros call.
  - split; [intros H; exfalso; apply H; reflexivity |].
    intros [k [s [r [H _]]]]. destruct k; discriminate H.
  - cbn [successes].
    destruct (transform_skill (claude call) skill) as [result | e] eqn:E.
    + split; [| discriminate]. intros _. exists O, skill, result.
      rewrite Nat.add_0_r. split; [reflexivity | exact E].
    + rewrite IH. split.
      * intros [k [s [r [Hk Hr]]]]. exists (S k), s, r.
        split; [exact Hk |]. rewrite Nat.add_succ_r. exact Hr.
      * intros [[| k] [s [r [Hk Hr]]]].
        -- simpl in Hk. injection Hk as <-. rewrite Nat.add_0_r in Hr.
           congruence.
        -- exists k, s, r. split; [exact Hk |].
           rewrite Nat.add_succ_r in Hr. exact Hr.
Qed.

(** What [export_selected] does, by cases. *)
Lemma export_selected_named (claude : nat -> model_client)
  (selected_skills : list skill_record) :
  Forall named selected_skills ->
  export_selected claude selected_skills
  = Return match successes claude 0 selected_skills with
           | [] => None
           | (_ :: _) as transformed =>
               Some (dumps (export_document transformed))
           end.
Proof.
  intros Hnamed. unfold export_selected.
  destruct selected_skills as [| skill rest]; [reflexivity |].
  rewrite (transform_selected_named claude _ Hnamed 0%nat []).
  cbn [bind app].
  destruct (successes claude 0 (skill :: rest)); reflexivity.
Qed.

Lemma export_selected_unnamed (claude : nat -> model_client)
  (selected_skills : list skill_record) :
  (exists skill, In skill selected_skills /\ ~ named skill) ->
  export_selected claude selected_skills = Raise (KeyError (u "name")).
Proof.
  intros H. unfold export_selected.
  destruct selected_skills as [| skill rest];
    [destruct H as [s [[] _]] |].
  rewrite (transform_selected_unnamed claude _ H 0%nat []). reflexivity.
Qed.

Lemma export_selected_written (claude : nat -> model_client)
  (selected_skills : list skill_record) (text : str) :
  export_selected claude selected_skills = Return (Some text) ->
  Forall named selected_skills
  /\ successes claude 0 selected_skills <> []
  /\ text = dumps (export_document (successes claude 0 selected_skills)).
Proof.
  intros H. destruct (all_named_dec selected_skills) as [Hnamed | Hunnamed].
  - split; [exact Hnamed |].
    rewrite (export_selected_named claude _ Hnamed) in H.
    destruct (successes claude 0 selected_skills) as [| r rs];
      [discriminate H |].
    injection H as <-. split; [discriminate | reflexivity].
  - rewrite (export_selected_unnamed claude _ Hunnamed) in H. discriminate H.
Qed.

(** X13. When an export writes a file, the file is the serialization of
    the document whose [skills] are the results of the transformations
    that succeeded, in the order of the selection: there is at least one,
    there are no more than skills selected, and each of them holds at
    least two statements at each of the five levels. *)
Theorem export_holds_validated_results (claude : nat -> model_client)
  (selected_skills : list skill_record) (text : str) :
  export_selected claude selected_skills = Return (Some text) ->
  exists transformed,
    text = dumps (export_document transformed)
    /\ transformed = successes claude 0 selected_skills
    /\ transformed <> []
    /\ Forall levels_ok transformed
    /\ (length transformed <= length selected_skills)%nat.
Proof.
  intros H. apply export_selected_written in H as [_ [Hne ->]].
  exists (successes claude 0 selected_skills).
  split; [reflexivity |]. split; [reflexivity |]. split; [exact Hne |].
  split; [apply successes_validated | apply successes_length].
Qed.

(** X14. Every selected skill having a name, the export writes a file
    exactly when at least one transformation succeeds: a transformation
    that fails is left out and stops neither the others nor the export. *)
Theorem file_written_iff_some_success (claude : nat -> model_client)
  (selected_skills : list skill_record) :
  Forall named selected_skills ->
  (exists text, export_selected claude selected_skills = Return (Some text))
  <-> exists k skill result,
        nth_error selected_skills k = Some skill
        /\ transform_skill (claude k) skill = Return result.
Proof.
  intros Hnamed. rewrite (export_selected_named claude _ Hnamed).
  pose proof (successes_nonempty claude selected_skills 0%nat) as Hs.
  cbn [Nat.add] in Hs. rewrite <- Hs.
  destruct (successes claude 0 selected_skills) as [| r rs]; split.
  - intros [text H]. discriminate H.
  - intros H. congruence.
  - intros _. discriminate.
  - intros _. eexists. reflexivity.
Qed.

(** X15. A selected skill without a [name] makes the export fail with
    the [KeyError] of line 448, and no file is written, whatever the
    service answers and although [transform_skill] itself accepts a skill
    without a name. *)
Theorem skill_without_name_stops_export (claude : nat -> model_client)
  (selected_skills : list skill_record) :
  (exists skill,
      In skill selected_skills /\ dict_find skill (u "name") = None) ->
  export_selected claude selected_skills = Raise (KeyError (u "name")).
Proof.
  intros [skill [Hin Hname]]. apply export_selected_unnamed.
  exists skill. split; [exact Hin |]. unfold named. rewrite Hname. tauto.
Qed.

Lemma model_text_stages (client : model_client) (skill : skill_record) :
  model_text client skill
  = bind (build_prompt skill) (fun prompt => bind (client prompt) first_text).
Proof. reflexivity. Qed.

Lemma transform_skill_scalar_wf (client : model_client)
  (skill : skill_record) (r : json) :
  (forall prompt message text,
      client prompt = Return message -> first_text message = Return text ->
      scalar_text text) ->
  transform_skill client skill = Return r -> wf r.
Proof.
  intros Hscalar H. pose proof H as Hc.
  apply transform_skill_Return_iff in Hc as [Hc _].
  rewrite candidate_stages in Hc.
  apply bind_Return_inv in Hc as [text [Ht _]].
  apply (transform_skill_wf client skill text r Ht); [| exact H].
  rewrite model_text_stages in Ht.
  apply bind_Return_inv in Ht as [prompt [_ Ht]].
  apply bind_Return_inv in Ht as [message [Hm Ht]].
  exact (Hscalar prompt message text Hm Ht).
Qed.

Lemma successes_wf (claude : nat -> model_client)
  (skills : list skill_record) :
  scalar_answers claude -> forall call, Forall wf (successes claude call skills).
Proof.
  intros Hscalar. induction skills as [| skill rest IH]; intros call;
    [constructor |].
  cbn [successes].
  destruct (transform_skill (claude call) skill) as [result | e] eqn:E.
  - constructor; [| apply IH].
    exact (transform_skill_scalar_wf (claude call) skill result
             (Hscalar call) E).
  - apply IH.
Qed.

Lemma export_document_wf (transformed : list json) :
  Forall wf transformed -> wf (export_document transformed).
Proof.
  intros H. unfold export_document. apply wf_dict.
  - repeat constructor; simpl; intuition discriminate.
  - apply Forall_cons.
    { split; [| apply wf_str]; apply str_ok_check; vm_compute; reflexivity. }
    apply Forall_cons.
    { split; [| apply wf_str]; apply str_ok_check; vm_compute; reflexivity. }
    apply Forall_cons; [| apply Forall_nil].
    split; [apply str_ok_check; vm_compute; reflexivity |].
    apply wf_list. exact H.
Qed.

(** X16. The file an export writes is read back by [json.loads] as the
    document that was exported, and every skill of it passes the validator
    again; the answers of the service are taken to be scalar text. *)
Theorem exported_file_reads_back (claude : nat -> model_client)
  (selected_skills : list skill_record) (text : str) :
  scalar_answers claude ->
  export_selected claude selected_skills = Return (Some text) ->
  exists transformed,
    json_loads text = Return (export_document transformed)
    /\ transformed = successes claude 0 selected_skills
    /\ Forall (fun result => validate result = Return result) transformed.
Proof.
  intros Hscalar H. apply export_selected_written in H as [_ [_ ->]].
  exists (successes claude 0 selected_skills). split; [| split].
  - apply json_loads_Return. apply export_document_reparsed.
    exact (successes_wf claude selected_skills Hscalar 0%nat).
  - reflexivity.
  - eapply Forall_impl; [| apply successes_validated].
    intros r Hr. apply validate_Return_iff. split; [reflexivity | exact Hr].
Qed.

(** X17. The file an export writes holds only newlines and printable
    ASCII characters, whatever characters the names and the statements of
    the skills hold: [json.dump] escapes the others.  The answers of the
    service are taken to be scalar text. *)
Theorem exported_file_is_plain_ascii (claude : nat -> model_client)
  (selected_skills : list skill_record) (text : str) :
  scalar_answers claude ->
  export_selected claude selected_skills = Return (Some text) ->
  Forall plain_ascii text.
Proof.
  intros Hscalar H. apply export_selected_written in H as [_ [_ ->]].
  apply dumps_plain. apply export_document_wf.
  exact (successes_wf claude selected_skills Hscalar 0%nat).
Qed.

Lemma first_call_succeeds_scalar : scalar_answers first_call_succeeds.
Proof.
  intros n prompt message text H1 H2.
  destruct n as [| n]; unfold first_call_succeeds, Sample.answers in H1;
    injection H1 as <-; injection H2 as <-;
    apply scalar_text_check; vm_compute; reflexivity.
Qed.

Lemma export_holds_validated_results_witness :
  let selected_skills := [Sample.data_visualization; Sample.empty_description] in
  let text :=
    dumps (export_document (successes first_call_succeeds 0 selected_skills)) in
  export_selected first_call_succeeds selected_skills = Return (Some text)
  /\ exists transformed,
       text = dumps (export_document transformed)
       /\ transformed = successes first_call_succeeds 0 selected_skills
       /\ transformed <> []
       /\ Forall levels_ok transformed
       /\ (length transformed <= length selected_skills)%nat.
Proof.
  intros selected_skills text. split.
  - vm_compute. reflexivity.
  - apply (export_holds_validated_results first_call_succeeds
             selected_skills text).
    vm_compute. reflexivity.
Defined.

Lemma file_written_iff_some_success_witness :
  let selected_skills := [Sample.data_visualization; Sample.empty_description] in
  Forall named selected_skills
  /\ ((exists text,
         export_selected first_call_succeeds selected_skills
         = Return (Some text))
      <-> exists k skill result,
            nth_error selected_skills k = Some skill
            /\ transform_skill (first_call_succeeds k) skill = Return result).
Proof.
  intros selected_skills.
  assert (Hnamed : Forall named selected_skills)
    by (repeat constructor; discriminate).
  split; [exact Hnamed |].
  exact (file_written_iff_some_success first_call_succeeds selected_skills
           Hnamed).
Defined.

Lemma skill_without_name_stops_export_witness :
  export_selected first_call_succeeds
    [Sample.data_visualization; [(u "id", FStr (u "KS1200364C9C1LK3V5Q1"))]]
  = Raise (KeyError (u "name")).
Proof.
  apply (skill_without_name_stops_export first_call_succeeds
           [Sample.data_visualization;
            [(u "id", FStr (u "KS1200364C9C1LK3V5Q1"))]]).
  exists [(u "id", FStr (u "KS1200364C9C1LK3V5Q1"))].
  split; [right; left; reflexivity | reflexivity].
Defined.

Lemma exported_file_reads_back_witness :
  let selected_skills := [Sample.data_visualization; Sample.empty_description] in
  let text :=
    dumps (export_document (successes first_call_succeeds 0 selected_skills)) in
  export_selected first_call_succeeds selected_skills = Return (Some text)
  /\ exists transformed,
       json_loads text = Return (export_document transformed)
       /\ transformed = successes first_call_succeeds 0 selected_skills
       /\ Forall (fun result => validate result = Return result) transformed.
Proof.
  intros selected_skills text. split.
  - vm_compute. reflexivity.
  - apply (exported_file_reads_back first_call_succeeds selected_skills text
             first_call_succeeds_scalar).
    vm_compute. reflexivity.
Defined.

Lemma exported_file_is_plain_ascii_witness :
  let selected_skills := [Sample.data_visualization; Sample.empty_description] in
  let text :=
    dumps (export_document (successes first_call_succeeds 0 selected_skills)) in
  export_selected first_call_succeeds selected_skills = Return (Some text)
  /\ Forall plain_ascii text.
Proof.
  intros selected_skills text. split.
  - vm_compute. reflexivity.
  - apply (exported_file_is_plain_ascii first_call_succeeds selected_skills
             text first_call_succeeds_scalar).
    vm_compute. reflexivity.
Defined.

(** * The credentials *)

Lemma py_not_false_iff (v : option str) : py_not v = false <-> is_set v.
Proof.
  unfold is_set. destruct v as [[| c s] |]; simpl; split;
    try discriminate; try (intros [c' [s' H]]; discriminate H).
  - intros _. eauto.
  - reflexivity.
Qed.

Lemma missing_variables_nil (c : configuration) :
  missing_variables c = []
  <-> is_set (LIGHTCAST_CLIENT_ID c)
      /\ is_set (LIGHTCAST_CLIENT_SECRET c)
      /\ is_set (ANTHROPIC_API_KEY c).
Proof.
  rewrite <- !py_not_false_iff. unfold missing_variables.
  destruct (py_not (LIGHTCAST_CLIENT_ID c)),
    (py_not (LIGHTCAST_CLIENT_SECRET c)),
    (py_not (ANTHROPIC_API_KEY c)); simpl; split;
    try discriminate; try tauto; intros [H1 [H2 H3]]; discriminate.
Qed.

Lemma py_not_true_iff (v : option str) : py_not v = true <-> ~ is_set v.
Proof.
  rewrite <- py_not_false_iff. destruct (py_not v); split; congruence.
Qed.

Lemma In_existsb (x : str) (l : list str) :
  In x l <-> existsb (str_eqb x) l = true.
Proof.
  rewrite existsb_exists. split.
  - intros H. exists x. split; [exact H | apply str_eqb_refl].
  - intros [y [Hy E]]. apply str_eqb_eq in E. subst y. exact Hy.
Qed.

(** X18. [check_credentials] returns [True] exactly when each of the
    three variables is set to a text that is not empty (a variable set to
    the empty text counts as missing); it then prints nothing.  The line
    that names a variable is printed exactly when that variable is
    missing. *)
Theorem check_credentials_iff (c : configuration) :
  (snd (check_credentials c) = true
   <-> is_set (LIGHTCAST_CLIENT_ID c)
       /\ is_set (LIGHTCAST_CLIENT_SECRET c)
       /\ is_set (ANTHROPIC_API_KEY c))
  /\ (snd (check_credentials c) = true -> fst (check_credentials c) = [])
  /\ (In (u "  - LIGHTCAST_CLIENT_ID") (fst (check_credentials c))
      <-> ~ is_set (LIGHTCAST_CLIENT_ID c))
  /\ (In (u "  - LIGHTCAST_CLIENT_SECRET") (fst (check_credentials c))
      <-> ~ is_set (LIGHTCAST_CLIENT_SECRET c))
  /\ (In (u "  - ANTHROPIC_API_KEY") (fst (check_credentials c))
      <-> ~ is_set (ANTHROPIC_API_KEY c)).
Proof.
  split; [| split].
  - rewrite <- missing_variables_nil. unfold check_credentials.
    destruct (missing_variables c); cbn [snd]; split; congruence.
  - unfold check_credentials.
    destruct (missing_variables c); cbn [fst snd]; congruence.
  - rewrite <- !py_not_true_iff, !In_existsb.
    unfold check_credentials, missing_variables.
    destruct (py_not (LIGHTCAST_CLIENT_ID c)),
      (py_not (LIGHTCAST_CLIENT_SECRET c)),
      (py_not (ANTHROPIC_API_KEY c));
      repeat split; intros H; try reflexivity; vm_compute in H;
      try discriminate H; vm_compute; reflexivity.
Qed.

(** With the identifier set, the secret set to the empty text and no
    key, the lines printed name the secret and the key. *)
Example credentials_example :
  check_credentials
    {| LIGHTCAST_CLIENT_ID := Some (u "id");
       LIGHTCAST_CLIENT_SECRET := Some [];
       ANTHROPIC_API_KEY := None |}
  = ([ u "ERROR: Missing environment variables:";
       u "  - LIGHTCAST_CLIENT_SECRET";
       u "  - ANTHROPIC_API_KEY";
       NL :: u "Set them with:";
       u "  export LIGHTCAST_CLIENT_ID=" ++ q ++ u "your_id" ++ q;
       u "  export LIGHTCAST_CLIENT_SECRET=" ++ q ++ u "your_secret" ++ q;
       u "  export ANTHROPIC_API_KEY=" ++ q ++ u "your_key" ++ q ],
     false).
Proof. reflexivity. Qed.

(** * The description shown for a skill *)

(** X19. The description shown for a skill in the list is never longer
    than 60 characters: a description of at most 60 characters is shown
    as it is, a longer one as its first 57 characters and an ellipsis. *)
Theorem shown_description_bounded (skill : skill_record) (s : str) :
  shown_description skill = FStr s ->
  (length s <= 60)%nat
  /\ exists full,
       dict_get skill (u "description") (FStr (u "No description")) = FStr full
       /\ ((length full <= 60)%nat -> s = full)
       /\ ((60 < length full)%nat -> s = firstn 57 full ++ u "...").
Proof.
  unfold shown_description.
  destruct (dict_get skill (u "description") (FStr (u "No description")))
    as [full |]; [| discriminate].
  destruct (truthy (FStr full) && (60 <? N.of_nat (length full))) eqn:E;
    intros H.
  - assert (Hs : s = firstn 57 full ++ u "...") by congruence.
    clear H. subst s.
    apply andb_true_iff in E as [_ E]. apply N.ltb_lt in E.
    split.
    + rewrite length_app, length_firstn.
      change (length (u "...")) with 3%nat. lia.
    + exists full. split; [reflexivity |]. split; [lia | reflexivity].
  - injection H as <-.
    assert (Hlen : (length full <= 60)%nat).
    { apply andb_false_iff in E as [E | E].
      - destruct full; [simpl; lia | discriminate E].
      - apply N.ltb_ge in E. lia. }
    split; [exact Hlen |].
    exists full. split; [reflexivity |]. split; [reflexivity | lia].
Qed.

Lemma shown_description_bounded_witness :
  let skill :=
    [ (u "name", FStr (u "Data Visualization"));
      (u "description",
       FStr (u "The ability to present data in charts, maps and dashboard"
             ++ u "s that people can read")) ] in
  let s := u "The ability to present data in charts, maps and dashboard..." in
  shown_description skill = FStr s
  /\ (length s <= 60)%nat
  /\ exists full,
       dict_get skill (u "description") (FStr (u "No description")) = FStr full
       /\ ((length full <= 60)%nat -> s = full)
       /\ ((60 < length full)%nat -> s = firstn 57 full ++ u "...").
Proof.
  intros skill s. split; [vm_compute; reflexivity |].
  apply (shown_description_bounded skill s). vm_compute. reflexivity.
Defined.

(** * The numbers typed *)

(** ** Splitting what was joined *)

Lemma py_in_single_absent (c : N) (p : str) :
  ~ In c p -> py_in [c] p = false.
Proof.
  induction p as [| b p IH]; intros H; [reflexivity |].
  cbn [py_in startswith]. destruct (N.eqb_spec c b) as [-> | _].
  - exfalso. apply H. left. reflexivity.
  - cbn [andb orb]. apply IH. intros Hin. apply H. right. exact Hin.
Qed.

Lemma split_join (c : N) (parts : list str) :
  parts <> [] -> Forall (fun p => ~ In c p) parts ->
  split [c] (join [c] parts) = parts.
Proof.
  intros Hne Hparts. induction Hparts as [| p rest Hp Hrest IH];
    [exfalso; apply Hne; reflexivity |].
  destruct rest as [| p' rest].
  - cbn [join]. apply split_absent. exact (py_in_single_absent c p Hp).
  - change (join [c] (p :: p' :: rest))
      with (p ++ [c] ++ join [c] (p' :: rest)).
    unfold split.
    destruct (length (p ++ [c] ++ join [c] (p' :: rest))) as [| k] eqn:Ek.
    { rewrite !length_app in Ek. cbn [length] in Ek. lia. }
    rewrite (split_fuel_found k [c] _ p (join [c] (p' :: rest))
               (partition_first_char c [] p _ Hp)).
    rewrite (split_fuel_split [c] (join [c] (p' :: rest)) k).
    + rewrite IH; [reflexivity | discriminate].
    + discriminate.
    + rewrite !length_app in Ek. cbn [length] in Ek. lia.
Qed.

(** ** Digits *)

Lemma digit_not_space (c : N) : is_digit c = true -> isspace c = false.
Proof.
  unfold is_digit, isspace. rewrite andb_true_iff, !N.leb_le. intros [H1 H2].
  repeat rewrite orb_false_iff. repeat split;
    try (apply andb_false_iff; left; apply N.leb_gt; lia);
    try (apply andb_false_iff; right; apply N.leb_gt; lia);
    apply N.eqb_neq; lia.
Qed.

Lemma lstrip_digits (s : str) :
  forallb is_digit s = true -> lstrip s = s.
Proof.
  destruct s as [| c s]; [reflexivity |]. cbn [forallb lstrip].
  rewrite andb_true_iff. intros [Hc _].
  rewrite (digit_not_space c Hc). reflexivity.
Qed.

Lemma forallb_rev {A} (f : A -> bool) (l : list A) :
  forallb f l = true -> forallb f (rev l) = true.
Proof.
  rewrite !forallb_forall. intros H x Hx. apply H. apply in_rev. exact Hx.
Qed.

Lemma strip_digits (s : str) : forallb is_digit s = true -> strip s = s.
Proof.
  intros H. unfold strip, rstrip. rewrite (lstrip_digits s H).
  rewrite (lstrip_digits (rev s) (forallb_rev _ _ H)).
  apply rev_involutive.
Qed.

Lemma str_of_N_digits (n : N) : forallb is_digit (str_of_N n) = true.
Proof. apply digits_of_uint_digits. Qed.

Lemma strip_typed_number (before after : str) (n : N) :
  blanks before -> blanks after ->
  strip (typed_number (before, n, after)) = str_of_N n.
Proof.
  intros Hb Ha. unfold typed_number.
  rewrite (strip_spaces before (str_of_N n) after Hb Ha).
  exact (strip_digits _ (str_of_N_digits n)).
Qed.

Section AsciiDigits.

Variable unicode_digit : N -> bool.
Variable unicode_decimal : N -> option N.
Variable max_str_digits : nat.
Hypothesis Hascii : agrees_on_ascii unicode_digit unicode_decimal.

Lemma digit_is_ascii (c : N) : is_digit c = true -> c < 128.
Proof.
  unfold is_digit. rewrite andb_true_iff, !N.leb_le. lia.
Qed.

Lemma isdigit_digits (s : str) :
  s <> [] -> forallb is_digit s = true -> isdigit unicode_digit s = true.
Proof.
  intros Hne H. unfold isdigit.
  destruct s as [| c s]; [exfalso; apply Hne; reflexivity |].
  rewrite forallb_forall in *. intros x Hx.
  rewrite (proj1 Hascii x (digit_is_ascii x (H x Hx))). exact (H x Hx).
Qed.


Lemma decimal_values_digits (s : str) :
  forallb is_digit s = true ->
  decimal_values unicode_decimal s = Some (map (fun c => c - 48) s).
Proof.
  induction s as [| c s IH]; [reflexivity |]. cbn [forallb].
  rewrite andb_true_iff. intros [Hc Hs]. cbn [decimal_values map].
  rewrite (proj2 Hascii c Hc), (IH Hs). reflexivity.
Qed.

Lemma uint_of_values_digits (s : str) :
  forallb is_digit s = true ->
  uint_of_values (map (fun c => c - 48) s) = uint_of_digits s.
Proof.
  induction s as [| c s IH]; [reflexivity |]. cbn [forallb].
  rewrite andb_true_iff. intros [Hc Hs].
  cbn [map uint_of_values uint_of_digits]. rewrite (IH Hs).
  unfold is_digit in Hc. apply andb_true_iff in Hc as [H1 H2].
  apply N.leb_le in H1. apply N.leb_le in H2.
  assert (E : forall k, (c - 48 =? k) = (c =? 48 + k)).
  { intros k. apply eq_true_iff_eq. rewrite !N.eqb_eq. lia. }
  rewrite !E. reflexivity.
Qed.

Lemma py_int_digits (s : str) :
  forallb is_digit s = true -> within_limit max_str_digits (length s) ->
  py_int unicode_decimal max_str_digits s
  = Return (Z.of_N (N.of_uint (uint_of_digits s))).
Proof.
  intros Hs Hlimit. unfold py_int.
  assert (E : negb (Nat.eqb max_str_digits 0)
              && Nat.ltb max_str_digits (length s) = false).
  { destruct Hlimit as [-> | Hle]; [reflexivity |].
    apply andb_false_iff. right. apply Nat.ltb_ge. exact Hle. }
  rewrite E, (decimal_values_digits s Hs), (uint_of_values_digits s Hs).
  reflexivity.
Qed.

Lemma py_int_str_of_N (n : N) :
  within_limit max_str_digits (length (str_of_N n)) ->
  py_int unicode_decimal max_str_digits (str_of_N n) = Return (Z.of_N n).
Proof.
  intros Hlimit. rewrite (py_int_digits _ (str_of_N_digits n) Hlimit).
  unfold str_of_N. rewrite uint_of_digits_of_uint, DecimalN.Unsigned.of_to.
  reflexivity.
Qed.

Lemma str_of_N_nonempty (n : N) : str_of_N n <> [].
Proof.
  destruct (str_of_N_head n) as [c [t [E _]]]. rewrite E. discriminate.
Qed.

Lemma entry_indices_typed (entries : list (str * N * str)) :
  Forall (entry_ok_typed max_str_digits) entries ->
  entry_indices unicode_digit unicode_decimal max_str_digits
    (map typed_number entries)
  = Return (map (fun entry => (Z.of_N (snd (fst entry)) - 1)%Z) entries).
Proof.
  induction 1 as [| [[before n] after] rest [Hb [Ha Hlimit]] Hrest IH];
    [reflexivity |].
  cbn [map entry_indices]. rewrite (strip_typed_number before after n Hb Ha).
  rewrite (isdigit_digits _ (str_of_N_nonempty n) (str_of_N_digits n)).
  rewrite (py_int_str_of_N n Hlimit). cbn [bind]. rewrite IH. reflexivity.
Qed.

Lemma space_not_comma (s : str) : blanks s -> ~ In 44 s.
Proof.
  intros H Hin. unfold blanks in H. rewrite Forall_forall in H.
  specialize (H 44 Hin). discriminate H.
Qed.

Lemma digits_not_comma (s : str) : forallb is_digit s = true -> ~ In 44 s.
Proof.
  intros H Hin. rewrite forallb_forall in H. specialize (H 44 Hin).
  discriminate H.
Qed.

Lemma typed_number_no_comma (entry : str * N * str) :
  (entry_ok_typed max_str_digits) entry -> ~ In 44 (typed_number entry).
Proof.
  destruct entry as [[before n] after]. intros [Hb [Ha _]].
  unfold typed_number. rewrite !in_app_iff. intros [H | [H | H]].
  - exact (space_not_comma before Hb H).
  - exact (digits_not_comma _ (str_of_N_digits n) H).
  - exact (space_not_comma after Ha H).
Qed.

Lemma typed_indices_typed (entries : list (str * N * str)) :
  entries <> [] -> Forall (entry_ok_typed max_str_digits) entries ->
  typed_indices unicode_digit unicode_decimal max_str_digits
    (join (u ",") (map typed_number entries))
  = Return (map (fun entry => (Z.of_N (snd (fst entry)) - 1)%Z) entries).
Proof.
  intros Hne Hok. unfold typed_indices.
  change (u ",") with [44].
  rewrite (split_join 44 (map typed_number entries)).
  - exact (entry_indices_typed entries Hok).
  - destruct entries; [exfalso; apply Hne; reflexivity | discriminate].
  - apply Forall_map. eapply Forall_impl; [| exact Hok].
    exact typed_number_no_comma.
Qed.

End AsciiDigits.

Lemma ascii_tables_agree : agrees_on_ascii is_digit ascii_decimal.
Proof.
  split; [reflexivity |].
  intros c H. unfold ascii_decimal. rewrite H. reflexivity.
Qed.

(** X20. The numbers typed are read as they are written.  For a text made
    of decimal numbers, each between blanks or none, separated by commas,
    the list of indices is the list of these numbers less one, in the
    order typed; the tables of [str.isdigit] and [int] are taken to know
    the ASCII digits, and the numbers to be within the limit of [int] on
    the number of digits. *)
Theorem typed_numbers_are_parsed
  (unicode_digit : N -> bool) (unicode_decimal : N -> option N)
  (max_str_digits : nat) (entries : list (str * N * str)) :
  agrees_on_ascii unicode_digit unicode_decimal ->
  entries <> [] ->
  Forall (entry_ok_typed max_str_digits) entries ->
  typed_indices unicode_digit unicode_decimal max_str_digits
    (join (u ",") (map typed_number entries))
  = Return (map (fun entry => (Z.of_N (snd (fst entry)) - 1)%Z) entries).
Proof.
  intros Hascii.
  exact (typed_indices_typed unicode_digit unicode_decimal max_str_digits
           Hascii entries).
Qed.

Lemma typed_numbers_are_parsed_witness :
  typed_indices is_digit ascii_decimal 4300 (u "1, 3,5 ")
  = Return [0%Z; 2%Z; 4%Z].
Proof.
  apply (typed_numbers_are_parsed is_digit ascii_decimal 4300
           [([], 1, []); (u " ", 3, []); ([], 5, u " ")]).
  - exact ascii_tables_agree.
  - discriminate.
  - repeat (apply Forall_cons || apply Forall_nil);
      (split; [repeat constructor |];
       split; [repeat constructor | right; apply Nat.leb_le; reflexivity]).
Defined.

(** X21. Typing numbers selects the skills with these numbers.  For a
    text made of decimal numbers separated by commas, the selection grows
    by the listed skills whose numbers were typed, in the order typed,
    and the line printed counts the numbers typed. *)
Theorem typed_numbers_select_their_skills
  {A} (unicode_digit : N -> bool) (unicode_decimal : N -> option N)
  (max_str_digits : nat) (entries : list (str * N * str))
  (skills selected_skills : list A) :
  agrees_on_ascii unicode_digit unicode_decimal ->
  entries <> [] ->
  Forall (entry_ok_typed max_str_digits) entries ->
  select_typed unicode_digit unicode_decimal max_str_digits skills
    (join (u ",") (map typed_number entries)) selected_skills
  = Return
      (selected_skills
       ++ items_at skills
            (map (fun entry => (Z.of_N (snd (fst entry)) - 1)%Z) entries),
       u "Added " ++ str_of_N (N.of_nat (length entries)) ++ u " skills").
Proof.
  intros Hascii Hne Hok. unfold select_typed.
  rewrite (typed_indices_typed unicode_digit unicode_decimal max_str_digits
             Hascii entries Hne Hok).
  cbn [bind]. unfold select_numbers. rewrite add_selected_items.
  cbn [bind]. rewrite length_map. reflexivity.
Qed.

Lemma typed_numbers_select_their_skills_witness :
  select_typed is_digit ascii_decimal 4300
    [u "Python"; u "SQL"; u "Statistics"] (u "3, 1,9") [u "Git"]
  = Return ([u "Git"; u "Statistics"; u "Python"], u "Added 3 skills").
Proof.
  apply (typed_numbers_select_their_skills is_digit ascii_decimal 4300
           [([], 3, []); (u " ", 1, []); ([], 9, [])]
           [u "Python"; u "SQL"; u "Statistics"] [u "Git"]).
  - exact ascii_tables_agree.
  - discriminate.
  - repeat (apply Forall_cons || apply Forall_nil);
      (split; [repeat constructor |];
       split; [repeat constructor | right; apply Nat.leb_le; reflexivity]).
Defined.

(** ** Any ASCII text *)










Lemma NoDup_map_injective {A B} (h : A -> B) (l : list A) :
  (forall x y, h x = h y -> x = y) -> NoDup l -> NoDup (map h l).
Proof.
  intros Hinj. induction 1 as [| x l Hx Hl IH]; [constructor |].
  cbn [map]. constructor; [| exact IH].
  rewrite in_map_iff. intros [y [E Hy]]. apply Hinj in E. subst y.
  exact (Hx Hy).
Qed.

(** X23. Typing distinct numbers removes the skills with these numbers.
    For a text made of distinct decimal numbers separated by commas, in
    any order, and a selection in which every skill has a name, the
    selection is left without the skills at these numbers, the others
    keeping their order. *)
Theorem typed_numbers_remove_their_skills
  (unicode_digit : N -> bool) (unicode_decimal : N -> option N)
  (max_str_digits : nat) (entries : list (str * N * str))
  (selected_skills : list skill_record) :
  agrees_on_ascii unicode_digit unicode_decimal ->
  entries <> [] ->
  Forall (entry_ok_typed max_str_digits) entries ->
  NoDup (map (fun entry => snd (fst entry)) entries) ->
  Forall named selected_skills ->
  remove_typed unicode_digit unicode_decimal max_str_digits
    (join (u ",") (map typed_number entries)) selected_skills
  = Return
      (drop_positions
         (map (fun entry => (Z.of_N (snd (fst entry)) - 1)%Z) entries)
         selected_skills).
Proof.
  intros Hascii Hne Hok Hdistinct Hnamed. unfold remove_typed.
  rewrite (typed_indices_typed unicode_digit unicode_decimal max_str_digits
             Hascii entries Hne Hok).
  cbn [bind]. apply remove_numbers_distinct; [exact Hnamed |].
  rewrite <- (map_map (fun entry : str * N * str => snd (fst entry))
                (fun n => (Z.of_N n - 1)%Z)).
  apply NoDup_map_injective; [| exact Hdistinct].
  intros x y H. lia.
Qed.

Lemma typed_numbers_remove_their_skills_witness :
  remove_typed is_digit ascii_decimal 4300 (u "1, 3")
    [ [(u "name", FStr (u "Python"))]; [(u "name", FStr (u "SQL"))];
      [(u "name", FStr (u "Statistics"))] ]
  = Return [ [(u "name", FStr (u "SQL"))] ].
Proof.
  apply (typed_numbers_remove_their_skills is_digit ascii_decimal 4300
           [([], 1, []); (u " ", 3, [])]
           [ [(u "name", FStr (u "Python"))]; [(u "name", FStr (u "SQL"))];
             [(u "name", FStr (u "Statistics"))] ]).
  - exact ascii_tables_agree.
  - discriminate.
  - repeat (apply Forall_cons || apply Forall_nil);
      (split; [repeat constructor |];
       split; [repeat constructor | right; apply Nat.leb_le; reflexivity]).
  - repeat constructor; simpl; intuition discriminate.
  - repeat constructor; discriminate.
Defined.
